(** * Solarus engine core: input events and the main loop

    A shallow embedding of [src/core/InputEvent.cpp] and
    [src/core/MainLoop.cpp] (with [System.h] and [Debug.h]), and proofs of the
    properties the engine specification states about them.

    Conventions.
    - C++ integers are [Z] with the wrap-around written out ([Int.i64],
      [Int.u64], ...).
    - [float] and [double] are IEEE-754 binary32 / binary64, taken from the
      Standard Library's executable specification [SpecFloat].
    - The static members of [InputEvent], the fields of [MainLoop] and the
      simulated clock of [System] form one [World]; every call that leaves
      the two translation units (SDL, Video, Lua, Game, Sound, ...) is answered
      by a [Collaborators] oracle that sees the whole history of such calls,
      and is appended to that history.

    Further parts cover more of the two files (pressing and releasing,
    joypads, the focus, the scheduling of frames, the start of a quest and
    the Lua console), the launcher of [gui/src/quest_runner.cpp], which starts
    the engine and feeds its console, and the references to Lua values of
    [src/lua/ScopedLuaRef.cpp]. *)

From Stdlib Require Import ZArith Lia List String Bool Ascii.
From Stdlib Require Import Floats.SpecFloat.
From stdpp Require Import gmap strings list pretty sorting.

Local Open Scope string_scope.
Local Open Scope list_scope.
Local Open Scope Z_scope.

(** ** Machine integers *)

Module Int.

Definition wrap_unsigned (bits z : Z) : Z := z mod 2 ^ bits.

Definition wrap_signed (bits z : Z) : Z :=
  (z + 2 ^ (bits - 1)) mod 2 ^ bits - 2 ^ (bits - 1).

(** [uint64_t], [int64_t], [uint32_t], [int]. *)
Definition u64 : Z -> Z := wrap_unsigned 64.
Definition i64 : Z -> Z := wrap_signed 64.
Definition u32 : Z -> Z := wrap_unsigned 32.
Definition i32 : Z -> Z := wrap_signed 32.

Definition INT_MAX : Z := 2147483647.
Definition INT_MIN : Z := -2147483648.
Definition INT64_MAX : Z := 9223372036854775807.
Definition INT64_MIN : Z := -9223372036854775808.

End Int.

(** ** Floating point *)

Module Float.

(** A value of either format; the format is fixed by the operation. *)
Definition t : Type := spec_float.

Definition zero : t := S754_zero false.

Module Single.
Definition prec : Z := 24.
Definition emax : Z := 128.
Definition of_int (z : Z) : t := binary_normalize prec emax z 0 false.
Definition mul : t -> t -> t := SFmul prec emax.
End Single.

Module Double.
Definition prec : Z := 53.
Definition emax : Z := 1024.
Definition of_int (z : Z) : t := binary_normalize prec emax z 0 false.
Definition div : t -> t -> t := SFdiv prec emax.
Definition one : t := SFone prec emax.
Definition minus_one : t := SFopp one.
End Double.

Definition eqb : t -> t -> bool := SFeqb.
Definition ltb : t -> t -> bool := SFltb.
Definition leb : t -> t -> bool := SFleb.

(** Real value rounded toward zero; [None] for infinities and NaN. *)
Definition truncate (f : t) : option Z :=
  match f with
  | S754_zero _ => Some 0
  | S754_finite s m e =>
      let a := Z.shiftl (Zpos m) e in
      Some (if s then - a else a)
  | S754_infinity _ | S754_nan => None
  end.

(** Conversion to a signed integer of the given width.  Out of range the
    conversion is undefined in C++; the model returns the smallest integer,
    as the x86-64 conversion instructions do. *)
Definition to_signed (bits : Z) (f : t) : Z :=
  let lowest := - 2 ^ (bits - 1) in
  match truncate f with
  | Some z => if (lowest <=? z) && (z <? 2 ^ (bits - 1)) then z else lowest
  | None => lowest
  end.

Definition to_int64 : t -> Z := to_signed 64.

End Float.

(** ** Geometry *)

Record Point := { point_x : Z; point_y : Z }.
Record Size := { width : Z; height : Z }.

(** ** SDL events *)

Module SDL.

(** Event types of [SDL_events.h] (SDL 2). *)
Definition SDL_QUIT : Z := 0x100.
Definition SDL_WINDOWEVENT : Z := 0x200.
Definition SDL_KEYDOWN : Z := 0x300.
Definition SDL_KEYUP : Z := 0x301.
Definition SDL_TEXTINPUT : Z := 0x303.
Definition SDL_MOUSEBUTTONDOWN : Z := 0x401.
Definition SDL_MOUSEBUTTONUP : Z := 0x402.
Definition SDL_JOYHATMOTION : Z := 0x602.
Definition SDL_JOYBUTTONDOWN : Z := 0x603.
Definition SDL_JOYBUTTONUP : Z := 0x604.
Definition SDL_CONTROLLERAXISMOTION : Z := 0x650.
Definition SDL_CONTROLLERBUTTONDOWN : Z := 0x651.
Definition SDL_CONTROLLERBUTTONUP : Z := 0x652.
Definition SDL_CONTROLLERDEVICEADDED : Z := 0x653.
Definition SDL_CONTROLLERDEVICEREMOVED : Z := 0x654.
Definition SDL_CONTROLLERDEVICEREMAPPED : Z := 0x655.
Definition SDL_FINGERDOWN : Z := 0x700.
Definition SDL_FINGERUP : Z := 0x701.
Definition SDL_FINGERMOTION : Z := 0x702.
Definition SDL_LASTEVENT : Z := 0xFFFF.

(** Window event ids of [SDL_video.h]. *)
Definition SDL_WINDOWEVENT_RESIZED : Z := 5.
Definition SDL_WINDOWEVENT_FOCUS_GAINED : Z := 12.
Definition SDL_WINDOWEVENT_FOCUS_LOST : Z := 13.

(** Hat positions of [SDL_joystick.h]. *)
Definition SDL_HAT_UP : Z := 1.
Definition SDL_HAT_RIGHT : Z := 2.
Definition SDL_HAT_DOWN : Z := 4.
Definition SDL_HAT_LEFT : Z := 8.
Definition SDL_HAT_RIGHTUP : Z := 3.
Definition SDL_HAT_RIGHTDOWN : Z := 6.
Definition SDL_HAT_LEFTUP : Z := 9.
Definition SDL_HAT_LEFTDOWN : Z := 12.

(** The [SDL_Event] union, flattened: one field per member the engine
    reads or writes.  Members of the union overlap in memory; the model
    keeps them apart, except for the joystick instance id [which] of the
    three controller structs, which sits at one common offset and which
    the engine reads through a different struct than SDL wrote. *)
Record SDL_Event := {
  type : Z;
  key_repeat : Z;
  key_keysym_sym : Z;
  key_keysym_mod : Z;
  text_text : string;
  button_button : Z;
  button_x : Z;
  button_y : Z;
  jbutton_button : Z;
  jhat_hat : Z;
  jhat_value : Z;
  controller_which : Z;
  caxis_axis : Z;
  caxis_value : Z;
  cbutton_button : Z;
  tfinger_fingerId : Z;
  tfinger_x : Float.t;
  tfinger_y : Float.t;
  tfinger_pressure : Float.t;
  window_event : Z;
  window_data1 : Z;
  window_data2 : Z
}.

Definition caxis_which : SDL_Event -> Z := controller_which.
Definition cbutton_which : SDL_Event -> Z := controller_which.
Definition cdevice_which : SDL_Event -> Z := controller_which.

(** An event of the given type with every other byte zero. *)
Definition blank (ty : Z) : SDL_Event :=
  {| type := ty; key_repeat := 0; key_keysym_sym := 0; key_keysym_mod := 0;
     text_text := ""; button_button := 0; button_x := 0; button_y := 0;
     jbutton_button := 0; jhat_hat := 0; jhat_value := 0;
     controller_which := 0; caxis_axis := 0; caxis_value := 0;
     cbutton_button := 0; tfinger_fingerId := 0;
     tfinger_x := Float.zero; tfinger_y := Float.zero;
     tfinger_pressure := Float.zero;
     window_event := 0; window_data1 := 0; window_data2 := 0 |}.

(** [event.key.repeat = r]. *)
Definition set_key_repeat (r : Z) (e : SDL_Event) : SDL_Event :=
  {| type := type e; key_repeat := r;
     key_keysym_sym := key_keysym_sym e; key_keysym_mod := key_keysym_mod e;
     text_text := text_text e; button_button := button_button e;
     button_x := button_x e; button_y := button_y e;
     jbutton_button := jbutton_button e; jhat_hat := jhat_hat e;
     jhat_value := jhat_value e; controller_which := controller_which e;
     caxis_axis := caxis_axis e; caxis_value := caxis_value e;
     cbutton_button := cbutton_button e;
     tfinger_fingerId := tfinger_fingerId e; tfinger_x := tfinger_x e;
     tfinger_y := tfinger_y e; tfinger_pressure := tfinger_pressure e;
     window_event := window_event e; window_data1 := window_data1 e;
     window_data2 := window_data2 e |}.

(** Events as the tests build them. *)
Definition key_event (ty sym : Z) : SDL_Event :=
  {| type := ty; key_repeat := 0; key_keysym_sym := sym; key_keysym_mod := 0;
     text_text := ""; button_button := 0; button_x := 0; button_y := 0;
     jbutton_button := 0; jhat_hat := 0; jhat_value := 0;
     controller_which := 0; caxis_axis := 0; caxis_value := 0;
     cbutton_button := 0; tfinger_fingerId := 0;
     tfinger_x := Float.zero; tfinger_y := Float.zero;
     tfinger_pressure := Float.zero;
     window_event := 0; window_data1 := 0; window_data2 := 0 |}.

Definition jbutton_event (ty button : Z) : SDL_Event :=
  {| type := ty; key_repeat := 0; key_keysym_sym := 0; key_keysym_mod := 0;
     text_text := ""; button_button := 0; button_x := 0; button_y := 0;
     jbutton_button := button; jhat_hat := 0; jhat_value := 0;
     controller_which := 0; caxis_axis := 0; caxis_value := 0;
     cbutton_button := 0; tfinger_fingerId := 0;
     tfinger_x := Float.zero; tfinger_y := Float.zero;
     tfinger_pressure := Float.zero;
     window_event := 0; window_data1 := 0; window_data2 := 0 |}.

Definition caxis_event (which axis value : Z) : SDL_Event :=
  {| type := SDL_CONTROLLERAXISMOTION;
     key_repeat := 0; key_keysym_sym := 0; key_keysym_mod := 0;
     text_text := ""; button_button := 0; button_x := 0; button_y := 0;
     jbutton_button := 0; jhat_hat := 0; jhat_value := 0;
     controller_which := which; caxis_axis := axis; caxis_value := value;
     cbutton_button := 0; tfinger_fingerId := 0;
     tfinger_x := Float.zero; tfinger_y := Float.zero;
     tfinger_pressure := Float.zero;
     window_event := 0; window_data1 := 0; window_data2 := 0 |}.

Definition jhat_event (hat value : Z) : SDL_Event :=
  {| type := SDL_JOYHATMOTION;
     key_repeat := 0; key_keysym_sym := 0; key_keysym_mod := 0;
     text_text := ""; button_button := 0; button_x := 0; button_y := 0;
     jbutton_button := 0; jhat_hat := hat; jhat_value := value;
     controller_which := 0; caxis_axis := 0; caxis_value := 0;
     cbutton_button := 0; tfinger_fingerId := 0;
     tfinger_x := Float.zero; tfinger_y := Float.zero;
     tfinger_pressure := Float.zero;
     window_event := 0; window_data1 := 0; window_data2 := 0 |}.

Definition window_event_of (event data1 data2 : Z) : SDL_Event :=
  {| type := SDL_WINDOWEVENT;
     key_repeat := 0; key_keysym_sym := 0; key_keysym_mod := 0;
     text_text := ""; button_button := 0; button_x := 0; button_y := 0;
     jbutton_button := 0; jhat_hat := 0; jhat_value := 0;
     controller_which := 0; caxis_axis := 0; caxis_value := 0;
     cbutton_button := 0; tfinger_fingerId := 0;
     tfinger_x := Float.zero; tfinger_y := Float.zero;
     tfinger_pressure := Float.zero;
     window_event := event; window_data1 := data1; window_data2 := data2 |}.

End SDL.
Export SDL.

(** ** Enumerations

    [InputEvent.h] and [Joypad.h] are not among the sources at hand.  The
    enumerators of [KeyboardKey] are those listed in the name table of
    [InputEvent.cpp]; their integer values (SDL key codes) and the values of
    the other enumerators the code mentions are parameters ([Headers]). *)

Module KeyboardKey.

Inductive Enum : Set :=
  | NONE | BACKSPACE | TABULATION | CLEAR | RETURN | PAUSE | ESCAPE | SPACE
  | EXCLAMATION_MARK | DOULE_QUOTE | HASH | DOLLAR | AMPERSAND
  | SINGLE_QUOTE | LEFT_PARENTHESIS | RIGHT_PARENTHESIS | ASTERISK | PLUS
  | COMMA | MINUS | PERIOD | SLASH | NUMBER_0 | NUMBER_1 | NUMBER_2
  | NUMBER_3 | NUMBER_4 | NUMBER_5 | NUMBER_6 | NUMBER_7 | NUMBER_8
  | NUMBER_9 | COLON | SEMICOLON | LESS | EQUALS | GREATER | QUESTION_MARK
  | AT | LEFT_BRACKET | BACKSLASH | RIGHT_BRACKET | CARET | UNDERSCORE
  | BACKQUOTE | a | b | c | d | e | f | g | h | i | j | k | l | m | n | o
  | p | q | r | s | t | u | v | w | x | y | z | KEY_DELETE | KP0 | KP1
  | KP2 | KP3 | KP4 | KP5 | KP6 | KP7 | KP8 | KP9 | KP_PERIOD | KP_DIVIDE
  | KP_MULTIPLY | KP_MINUS | KP_PLUS | KP_ENTER | KP_EQUALS | UP | DOWN
  | RIGHT | LEFT | INSERT | HOME | END | PAGE_UP | PAGE_DOWN | F1 | F2 | F3
  | F4 | F5 | F6 | F7 | F8 | F9 | F10 | F11 | F12 | F13 | F14 | F15
  | NUMLOCK | CAPSLOCK | SCROLLOCK | RIGHT_SHIFT | LEFT_SHIFT
  | RIGHT_CONTROL | LEFT_CONTROL | RIGHT_ALT | LEFT_ALT | RIGHT_META
  | LEFT_META.

(** The one-character string holding a double quote. *)
Definition double_quote : string := String (Ascii.ascii_of_nat 34) EmptyString.

(** [EnumInfoTraits<InputEvent::KeyboardKey>::names]. *)
Definition names : list (Enum * string) :=
  [
    (NONE, ""); (BACKSPACE, "backspace"); (TABULATION, "tab");
    (CLEAR, "clear"); (RETURN, "return"); (PAUSE, "pause");
    (ESCAPE, "escape"); (SPACE, "space"); (EXCLAMATION_MARK, "!");
    (DOULE_QUOTE, double_quote); (HASH, "#"); (DOLLAR, "$");
    (AMPERSAND, "&"); (SINGLE_QUOTE, "'"); (LEFT_PARENTHESIS, "(");
    (RIGHT_PARENTHESIS, ")"); (ASTERISK, "*"); (PLUS, "+"); (COMMA, ",");
    (MINUS, "-"); (PERIOD, "."); (SLASH, "/"); (NUMBER_0, "0");
    (NUMBER_1, "1"); (NUMBER_2, "2"); (NUMBER_3, "3"); (NUMBER_4, "4");
    (NUMBER_5, "5"); (NUMBER_6, "6"); (NUMBER_7, "7"); (NUMBER_8, "8");
    (NUMBER_9, "9"); (COLON, "."); (SEMICOLON, ":"); (LESS, "<");
    (EQUALS, "="); (GREATER, ">"); (QUESTION_MARK, "?"); (AT, "@");
    (LEFT_BRACKET, "["); (BACKSLASH, "\"); (RIGHT_BRACKET, "]");
    (CARET, "^"); (UNDERSCORE, "_"); (BACKQUOTE, "`"); (a, "a"); (b, "b");
    (c, "c"); (d, "d"); (e, "e"); (f, "f"); (g, "g"); (h, "h"); (i, "i");
    (j, "j"); (k, "k"); (l, "l"); (m, "m"); (n, "n"); (o, "o"); (p, "p");
    (q, "q"); (r, "r"); (s, "s"); (t, "t"); (u, "u"); (v, "v"); (w, "w");
    (x, "x"); (y, "y"); (z, "z"); (KEY_DELETE, "delete"); (KP0, "kp 0");
    (KP1, "kp 1"); (KP2, "kp 2"); (KP3, "kp 3"); (KP4, "kp 4");
    (KP5, "kp 5"); (KP6, "kp 6"); (KP7, "kp 7"); (KP8, "kp 8");
    (KP9, "kp 9"); (KP_PERIOD, "kp ."); (KP_DIVIDE, "kp /");
    (KP_MULTIPLY, "kp *"); (KP_MINUS, "kp -"); (KP_PLUS, "kp +");
    (KP_ENTER, "kp return"); (KP_EQUALS, "kp ="); (UP, "up");
    (DOWN, "down"); (RIGHT, "right"); (LEFT, "left"); (INSERT, "insert");
    (HOME, "home"); (END, "end"); (PAGE_UP, "page up");
    (PAGE_DOWN, "page down"); (F1, "f1"); (F2, "f2"); (F3, "f3");
    (F4, "f4"); (F5, "f5"); (F6, "f6"); (F7, "f7"); (F8, "f8"); (F9, "f9");
    (F10, "f10"); (F11, "f11"); (F12, "f12"); (F13, "f13"); (F14, "f14");
    (F15, "f15"); (NUMLOCK, "num lock"); (CAPSLOCK, "caps lock");
    (SCROLLOCK, "scroll lock"); (RIGHT_SHIFT, "right shift");
    (LEFT_SHIFT, "left shift"); (RIGHT_CONTROL, "right control");
    (LEFT_CONTROL, "left control"); (RIGHT_ALT, "right alt");
    (LEFT_ALT, "left alt"); (RIGHT_META, "right meta");
    (LEFT_META, "left meta")
  ].

End KeyboardKey.

(** Enumerator values declared in the absent headers. *)
Class Headers := {
  (** [InputEvent::KeyboardKey]: the SDL key code of each enumerator. *)
  keycode : KeyboardKey.Enum -> Z;
  (** [InputEvent::MouseButton::NONE]. *)
  MouseButton_NONE : Z;
  (** [JoyPadButton::INVALID]. *)
  JoyPadButton_INVALID : Z;
  (** [JoyPadAxis::INVALID], [JoyPadAxis::LEFT_X], [JoyPadAxis::RIGHT_X]. *)
  JoyPadAxis_INVALID : Z;
  JoyPadAxis_LEFT_X : Z;
  JoyPadAxis_RIGHT_X : Z
}.

(** ** Debug.h *)

Module Debug.

(** A computation that may end in [Debug::die], which never returns. *)
Inductive Checked (A : Type) : Type :=
| Ok (a : A)
| Died (error_message : string).
Arguments Ok {A} a.
Arguments Died {A} error_message.

(** The build configuration: [NDEBUG] is defined in optimized builds. *)
Inductive Build := DebugBuild | ReleaseBuild.

Definition NDEBUG (b : Build) : bool :=
  match b with DebugBuild => false | ReleaseBuild => true end.

(** [#define SOLARUS_REQUIRE(condition, message)
      ((condition) ? (void)0 : Debug::die(message))] *)
Definition SOLARUS_REQUIRE (condition : bool) (message : string)
  : Checked unit :=
  if condition then Ok tt else Died message.

(** [#ifndef NDEBUG] the same as [SOLARUS_REQUIRE], [#else ((void)0)]. *)
Definition SOLARUS_ASSERT (b : Build) (condition : bool) (message : string)
  : Checked unit :=
  if negb (NDEBUG b) then SOLARUS_REQUIRE condition message else Ok tt.

Definition and_then {A B} (c : Checked A) (k : A -> Checked B) : Checked B :=
  match c with
  | Ok a => k a
  | Died m => Died m
  end.

End Debug.

(** ** Events, effects and the world *)

(** [class InputEvent { const SDL_Event internal_event; ... }] *)
Record InputEvent := { internal_event : SDL_Event }.

(** [JoypadPtr] and [Game*]: objects of classes defined elsewhere, known
    here by their address only. *)
Definition JoypadPtr : Type := Z.
Definition GamePtr : Type := Z.

(** Calls that leave [InputEvent.cpp] and [MainLoop.cpp], in the order they
    are made.  Calls that return [handled] or [success] carry the answer.
    The list [lua_commands] is shared with the thread of the console:
    [lua_commands.push_back(command)] and [lua_commands.clear()] are in the
    history too, where they are made between the calls of the mutex. *)
Inductive Effect :=
| SDL_CaptureMouse (enabled : bool)
| SDL_GameControllerOpen (index : Z)
| SDL_JoystickOpen (index : Z)
| Joypad_reset (joy : JoypadPtr)
| Logger_info (message : string)
| cout (text : string)
| Video_on_window_resized (size : Size)
| Surface_create (size : Size)
| Game_notify_window_size_changed (size : Size)
| Sound_pause_all
| Sound_resume_all
| Music_pause_playing
| Music_resume_playing
| Music_stop_playing
| Controls_set_joypad (joy : option JoypadPtr)
| Lua_on_joypad_axis_moved (joy : JoypadPtr) (axis : Z) (val : Float.t)
    (handled : bool)
| Lua_on_joypad_button_released (joy : JoypadPtr) (button : Z) (handled : bool)
| Lua_on_joypad_button_pressed (joy : JoypadPtr) (button : Z) (handled : bool)
| Lua_input_on_joypad_connected (joy : JoypadPtr)
| Lua_on_joypad_removed (joy : JoypadPtr) (handled : bool)
| Lua_notify_input (event : InputEvent) (handled : bool)
| Game_notify_input (event : InputEvent) (handled : bool)
| CommandsDispatcher_notify_input (event : InputEvent)
| Mutex_lock
| Mutex_unlock
| lua_commands_push_back (command : string)
| lua_commands_clear
| Lua_do_string_with_easy_env (command chunk_name : string) (success : bool)
| Game_update
| Game_start
| Lua_update
| Lua_exit
| Lua_initialize
| System_update (timestep : Z)
| System_sleep (duration : Z)
| System_get_real_time_ns (now : Z)
| System_get_real_time_ms (now : Z)
| Surface_clear
| Video_clear_screen_surface
| Game_draw
| Lua_main_on_draw
| Video_render
| Lua_video_on_draw
| Video_finish.

Definition Trace : Type := list Effect.

(** What a script run by a collaborator asks of the main loop through its
    public setters: [set_exiting()], [set_suspended(b)], [set_game(g)]. *)
Record Requests := {
  request_exiting : bool;
  request_suspended : option bool;
  request_game : option (option GamePtr)
}.

Definition no_request : Requests :=
  {| request_exiting := false; request_suspended := None;
     request_game := None |}.

(** The collaborators.  Each answer may depend on everything that was done
    so far. *)
Class Collaborators := {
  (* Video *)
  Video_output_to_quest_coordinates : Trace -> Point -> Point;
  Video_get_output_size : Trace -> Size;
  Video_get_quest_size : Trace -> Size;
  Video_get_window_size : Trace -> Size;
  (** [Video::get_geometry_mode()] is [DYNAMIC_ABSOLUTE] or
      [DYNAMIC_QUEST_SIZE]. *)
  Video_geometry_mode_is_dynamic : Trace -> bool;
  Video_get_display_period_ns : Trace -> Z;
  (* System *)
  System_real_time_ns : Trace -> Z;
  System_real_time_ms : Trace -> Z;
  (* SDL *)
  SDL_GetMouseState : Trace -> Z;
  SDL_JoystickInstanceID : Trace -> Z -> Z;
  (* Joypad *)
  make_shared_Joypad : Trace -> JoypadPtr;
  Joypad_get_name : JoypadPtr -> string;
  Joypad_computeAxisVal : Z -> Float.t;
  (* LuaContext *)
  on_joypad_axis_moved : Trace -> JoypadPtr -> Z -> Float.t -> bool;
  on_joypad_button_released : Trace -> JoypadPtr -> Z -> bool;
  on_joypad_button_pressed : Trace -> JoypadPtr -> Z -> bool;
  on_joypad_removed : Trace -> JoypadPtr -> bool;
  lua_notify_input : Trace -> InputEvent -> bool;
  do_string_with_easy_env : Trace -> string -> string -> bool;
  (* Game *)
  game_notify_input : Trace -> InputEvent -> bool;
  Controls_get_joypad : Trace -> option JoypadPtr;
  (* scripts calling back *)
  script_requests : Trace -> Requests
}.

(** Static members of [InputEvent]. *)
Record InputStatics := {
  sdl_queue : list SDL_Event;        (* SDL's event queue, oldest first *)
  initialized : bool;
  legacy_joypad_enabled : bool;
  repeat_keyboard : bool;
  keys_pressed : gset Z;
  joypads : gmap Z JoypadPtr;
  jindex2id : gmap Z Z;
  joypad_deadzone : Z;
  jbuttons_pressed : gset Z;
  quit_combo : gset Z
}.

(** Fields of [MainLoop]. *)
Record MainLoop := {
  root_surface : option Size;        (* the surface, known by its size *)
  game : option GamePtr;
  next_game : option GamePtr;
  exiting : bool;
  debug_lag : Z;
  lua_console_enabled : bool;
  suspend_unfocused : bool;
  suspended : bool;
  turbo : bool;
  lua_commands : list string;
  num_lua_commands_pushed : Z;
  num_lua_commands_done : Z
}.

Record World := {
  input : InputStatics;
  main_loop : MainLoop;
  trace : Trace
}.

(** Values the statics and the constructor give. *)
Definition InputEvent_statics : InputStatics :=
  {| sdl_queue := []; initialized := false; legacy_joypad_enabled := false;
     repeat_keyboard := false; keys_pressed := ∅; joypads := ∅;
     jindex2id := ∅; joypad_deadzone := 500; jbuttons_pressed := ∅;
     quit_combo := ∅ |}.

Definition MainLoop_constructed : MainLoop :=
  {| root_surface := None; game := None; next_game := None; exiting := false;
     debug_lag := 0; lua_console_enabled := true; suspend_unfocused := true;
     suspended := false; turbo := false; lua_commands := [];
     num_lua_commands_pushed := 0; num_lua_commands_done := 0 |}.

Definition initial_world : World :=
  {| input := InputEvent_statics; main_loop := MainLoop_constructed;
     trace := [] |}.

(** Field updates. *)
Definition with_sdl_queue (q : list SDL_Event) (s : InputStatics) :=
  {| sdl_queue := q; initialized := initialized s;
     legacy_joypad_enabled := legacy_joypad_enabled s;
     repeat_keyboard := repeat_keyboard s; keys_pressed := keys_pressed s;
     joypads := joypads s; jindex2id := jindex2id s;
     joypad_deadzone := joypad_deadzone s;
     jbuttons_pressed := jbuttons_pressed s; quit_combo := quit_combo s |}.

Definition with_keys_pressed (k : gset Z) (s : InputStatics) :=
  {| sdl_queue := sdl_queue s; initialized := initialized s;
     legacy_joypad_enabled := legacy_joypad_enabled s;
     repeat_keyboard := repeat_keyboard s; keys_pressed := k;
     joypads := joypads s; jindex2id := jindex2id s;
     joypad_deadzone := joypad_deadzone s;
     jbuttons_pressed := jbuttons_pressed s; quit_combo := quit_combo s |}.

Definition with_jbuttons_pressed (b : gset Z) (s : InputStatics) :=
  {| sdl_queue := sdl_queue s; initialized := initialized s;
     legacy_joypad_enabled := legacy_joypad_enabled s;
     repeat_keyboard := repeat_keyboard s; keys_pressed := keys_pressed s;
     joypads := joypads s; jindex2id := jindex2id s;
     joypad_deadzone := joypad_deadzone s;
     jbuttons_pressed := b; quit_combo := quit_combo s |}.

Definition with_joypads (j : gmap Z JoypadPtr) (i : gmap Z Z)
    (s : InputStatics) :=
  {| sdl_queue := sdl_queue s; initialized := initialized s;
     legacy_joypad_enabled := legacy_joypad_enabled s;
     repeat_keyboard := repeat_keyboard s; keys_pressed := keys_pressed s;
     joypads := j; jindex2id := i;
     joypad_deadzone := joypad_deadzone s;
     jbuttons_pressed := jbuttons_pressed s; quit_combo := quit_combo s |}.

Definition with_quit_combo (c : gset Z) (s : InputStatics) :=
  {| sdl_queue := sdl_queue s; initialized := initialized s;
     legacy_joypad_enabled := legacy_joypad_enabled s;
     repeat_keyboard := repeat_keyboard s; keys_pressed := keys_pressed s;
     joypads := joypads s; jindex2id := jindex2id s;
     joypad_deadzone := joypad_deadzone s;
     jbuttons_pressed := jbuttons_pressed s; quit_combo := c |}.

Definition with_root_surface (r : option Size) (m : MainLoop) :=
  {| root_surface := r; game := game m; next_game := next_game m;
     exiting := exiting m; debug_lag := debug_lag m;
     lua_console_enabled := lua_console_enabled m;
     suspend_unfocused := suspend_unfocused m; suspended := suspended m;
     turbo := turbo m; lua_commands := lua_commands m;
     num_lua_commands_pushed := num_lua_commands_pushed m;
     num_lua_commands_done := num_lua_commands_done m |}.

Definition with_game (g : option GamePtr) (m : MainLoop) :=
  {| root_surface := root_surface m; game := g; next_game := next_game m;
     exiting := exiting m; debug_lag := debug_lag m;
     lua_console_enabled := lua_console_enabled m;
     suspend_unfocused := suspend_unfocused m; suspended := suspended m;
     turbo := turbo m; lua_commands := lua_commands m;
     num_lua_commands_pushed := num_lua_commands_pushed m;
     num_lua_commands_done := num_lua_commands_done m |}.

Definition with_next_game (g : option GamePtr) (m : MainLoop) :=
  {| root_surface := root_surface m; game := game m; next_game := g;
     exiting := exiting m; debug_lag := debug_lag m;
     lua_console_enabled := lua_console_enabled m;
     suspend_unfocused := suspend_unfocused m; suspended := suspended m;
     turbo := turbo m; lua_commands := lua_commands m;
     num_lua_commands_pushed := num_lua_commands_pushed m;
     num_lua_commands_done := num_lua_commands_done m |}.

Definition with_exiting (b : bool) (m : MainLoop) :=
  {| root_surface := root_surface m; game := game m; next_game := next_game m;
     exiting := b; debug_lag := debug_lag m;
     lua_console_enabled := lua_console_enabled m;
     suspend_unfocused := suspend_unfocused m; suspended := suspended m;
     turbo := turbo m; lua_commands := lua_commands m;
     num_lua_commands_pushed := num_lua_commands_pushed m;
     num_lua_commands_done := num_lua_commands_done m |}.

Definition with_suspended (b : bool) (m : MainLoop) :=
  {| root_surface := root_surface m; game := game m; next_game := next_game m;
     exiting := exiting m; debug_lag := debug_lag m;
     lua_console_enabled := lua_console_enabled m;
     suspend_unfocused := suspend_unfocused m; suspended := b;
     turbo := turbo m; lua_commands := lua_commands m;
     num_lua_commands_pushed := num_lua_commands_pushed m;
     num_lua_commands_done := num_lua_commands_done m |}.

Definition with_turbo (b : bool) (m : MainLoop) :=
  {| root_surface := root_surface m; game := game m; next_game := next_game m;
     exiting := exiting m; debug_lag := debug_lag m;
     lua_console_enabled := lua_console_enabled m;
     suspend_unfocused := suspend_unfocused m; suspended := suspended m;
     turbo := b; lua_commands := lua_commands m;
     num_lua_commands_pushed := num_lua_commands_pushed m;
     num_lua_commands_done := num_lua_commands_done m |}.

Definition with_lua_commands (l : list string) (m : MainLoop) :=
  {| root_surface := root_surface m; game := game m; next_game := next_game m;
     exiting := exiting m; debug_lag := debug_lag m;
     lua_console_enabled := lua_console_enabled m;
     suspend_unfocused := suspend_unfocused m; suspended := suspended m;
     turbo := turbo m; lua_commands := l;
     num_lua_commands_pushed := num_lua_commands_pushed m;
     num_lua_commands_done := num_lua_commands_done m |}.

Definition with_num_lua_commands_pushed (n : Z) (m : MainLoop) :=
  {| root_surface := root_surface m; game := game m; next_game := next_game m;
     exiting := exiting m; debug_lag := debug_lag m;
     lua_console_enabled := lua_console_enabled m;
     suspend_unfocused := suspend_unfocused m; suspended := suspended m;
     turbo := turbo m; lua_commands := lua_commands m;
     num_lua_commands_pushed := n;
     num_lua_commands_done := num_lua_commands_done m |}.

Definition with_num_lua_commands_done (n : Z) (m : MainLoop) :=
  {| root_surface := root_surface m; game := game m; next_game := next_game m;
     exiting := exiting m; debug_lag := debug_lag m;
     lua_console_enabled := lua_console_enabled m;
     suspend_unfocused := suspend_unfocused m; suspended := suspended m;
     turbo := turbo m; lua_commands := lua_commands m;
     num_lua_commands_pushed := num_lua_commands_pushed m;
     num_lua_commands_done := n |}.

Definition with_input (f : InputStatics -> InputStatics) (w : World) :=
  {| input := f (input w); main_loop := main_loop w; trace := trace w |}.

Definition with_main_loop (f : MainLoop -> MainLoop) (w : World) :=
  {| input := input w; main_loop := f (main_loop w); trace := trace w |}.

Definition with_trace (f : Trace -> Trace) (w : World) :=
  {| input := input w; main_loop := main_loop w; trace := f (trace w) |}.

(** ** Computations over the world

    A computation returns, or unwinds with a C++ exception that nothing in
    the two files catches. *)

Inductive Outcome (A : Type) : Type :=
| Return (a : A) (w : World)
| Throw (what : string) (w : World).
Arguments Return {A} a w.
Arguments Throw {A} what w.

Definition M (A : Type) : Type := World -> Outcome A.

Definition ret {A} (a : A) : M A := fun w => Return a w.

Definition bind {A B} (m : M A) (k : A -> M B) : M B :=
  fun w =>
    match m w with
    | Return a w' => k a w'
    | Throw what w' => Throw what w'
    end.

Declare Scope M_scope.
Delimit Scope M_scope with M.
Notation "x <- c1 ;; c2" := (bind c1 (fun x => c2))
  (at level 100, c1 at next level, right associativity) : M_scope.
Notation "c1 ;; c2" := (bind c1 (fun _ => c2))
  (at level 100, right associativity) : M_scope.
Local Open Scope M_scope.

Definition world_of {A} (o : Outcome A) : World :=
  match o with
  | Return _ w => w
  | Throw _ w => w
  end.

Definition throw {A} (what : string) : M A := fun w => Throw what w.
Definition get_world : M World := fun w => Return w w.
Definition get_input : M InputStatics := fun w => Return (input w) w.
Definition get_main_loop : M MainLoop := fun w => Return (main_loop w) w.
Definition history : M Trace := fun w => Return (trace w) w.
Definition modify_input (f : InputStatics -> InputStatics) : M unit :=
  fun w => Return tt (with_input f w).
Definition modify_main_loop (f : MainLoop -> MainLoop) : M unit :=
  fun w => Return tt (with_main_loop f w).
Definition emit (e : Effect) : M unit :=
  fun w => Return tt (with_trace (fun h => h ++ [e]) w).
Definition when (b : bool) (m : M unit) : M unit := if b then m else ret tt.

(** [std::set::insert(x).second] and [std::set::erase(x)]. *)
Definition set_insert (x : Z) (s : gset Z) : gset Z * bool :=
  ({[x]} ∪ s, negb (bool_decide (x ∈ s))).

Definition set_erase (x : Z) (s : gset Z) : gset Z * Z :=
  (s ∖ {[x]}, if bool_decide (x ∈ s) then 1 else 0).

(** Iteration over a [std::map]: by increasing key. *)
Definition key_le {V} (p q : Z * V) : Prop := fst p <= fst q.

#[global] Instance key_le_dec {V} : RelDecision (@key_le V).
Proof. intros p q. unfold key_le. apply _. Defined.

Definition in_key_order {V} (m : gmap Z V) : list (Z * V) :=
  merge_sort key_le (map_to_list m).

Definition newline : string := String (Ascii.ascii_of_nat 10) EmptyString.

(** ** InputEvent.cpp *)

Section InputEvent_cpp.

Context {headers : Headers} {collaborators : Collaborators}.

(** Comparison of two [KeyboardKey] values, by their integer value. *)
Definition KeyboardKey_eqb (k1 k2 : KeyboardKey.Enum) : bool :=
  keycode k1 =? keycode k2.

(** [const KeyboardKey InputEvent::directional_keys[]]. *)
Definition directional_keys : list KeyboardKey.Enum :=
  [KeyboardKey.RIGHT; KeyboardKey.UP; KeyboardKey.LEFT; KeyboardKey.DOWN;
   KeyboardKey.NONE].

(** *** The raw queue *)

Definition SDL_PollEvent : M (option SDL_Event) :=
  s <- get_input ;;
  match sdl_queue s with
  | [] => ret None
  | e :: q => modify_input (with_sdl_queue q) ;; ret (Some e)
  end.

Definition SDL_PushEvent (e : SDL_Event) : M unit :=
  modify_input (fun s => with_sdl_queue (sdl_queue s ++ [e]) s).

(** [InputEvent::simulate_window_closing].  Only [event.type] is set in
    the source; the other bytes are taken to be zero. *)
Definition simulate_window_closing : M unit :=
  SDL_PushEvent (SDL.blank SDL_QUIT).

Definition simulate_key_pressed (key : KeyboardKey.Enum) : M unit :=
  SDL_PushEvent (SDL.key_event SDL_KEYDOWN (keycode key)).

Definition simulate_key_released (key : KeyboardKey.Enum) : M unit :=
  SDL_PushEvent (SDL.key_event SDL_KEYUP (keycode key)).

(** *** [InputEvent::get_event] *)

(** The body of the [switch]: the event as it leaves it. *)
Definition get_event_switch (internal_event : SDL_Event) : M SDL_Event :=
  let ty := type internal_event in
  if ty =? SDL_KEYDOWN then
    let key := key_keysym_sym internal_event in
    s <- get_input ;;
    let '(keys, inserted) := set_insert key (keys_pressed s) in
    modify_input (with_keys_pressed keys) ;;
    if negb inserted then
      (* Already known as pressed: mark repeated. *)
      ret (SDL.set_key_repeat 1 internal_event)
    else ret internal_event
  else if ty =? SDL_KEYUP then
    let key := key_keysym_sym internal_event in
    s <- get_input ;;
    let '(keys, erased) := set_erase key (keys_pressed s) in
    modify_input (with_keys_pressed keys) ;;
    if erased =? 0 then
      (* Already known as not pressed: mark repeated. *)
      ret (SDL.set_key_repeat 1 internal_event)
    else ret internal_event
  else if ty =? SDL_JOYBUTTONDOWN then
    s <- get_input ;;
    let buttons :=
      fst (set_insert (jbutton_button internal_event) (jbuttons_pressed s)) in
    modify_input (with_jbuttons_pressed buttons) ;;
    when (bool_decide (buttons = quit_combo s)) simulate_window_closing ;;
    ret internal_event
  else if ty =? SDL_JOYBUTTONUP then
    s <- get_input ;;
    let buttons :=
      fst (set_erase (jbutton_button internal_event) (jbuttons_pressed s)) in
    modify_input (with_jbuttons_pressed buttons) ;;
    ret internal_event
  else if ty =? SDL_MOUSEBUTTONDOWN then
    emit (SDL_CaptureMouse true) ;;
    ret internal_event
  else if ty =? SDL_MOUSEBUTTONUP then
    h <- history ;;
    let buttons := SDL_GetMouseState h in
    when (buttons =? 0) (emit (SDL_CaptureMouse false)) ;;
    ret internal_event
  else ret internal_event.

(** Returns [None] for [nullptr]. *)
Definition get_event : M (option InputEvent) :=
  polled <- SDL_PollEvent ;;
  match polled with
  | Some internal_event =>
      internal_event <- get_event_switch internal_event ;;
      ret (Some {| internal_event := internal_event |})
  | None => ret None
  end.

(** *** Event type *)

Definition is_valid (e : InputEvent) : bool :=
  type (internal_event e) =? SDL_LASTEVENT.

Definition is_keyboard_event (s : InputStatics) (e : InputEvent) : bool :=
  ((type (internal_event e) =? SDL_KEYDOWN)
   || (type (internal_event e) =? SDL_KEYUP))
  && ((key_repeat (internal_event e) =? 0) || repeat_keyboard s).

Definition is_joypad_event (e : InputEvent) : bool :=
  (type (internal_event e) =? SDL_CONTROLLERAXISMOTION)
  || (type (internal_event e) =? SDL_CONTROLLERBUTTONUP)
  || (type (internal_event e) =? SDL_CONTROLLERBUTTONDOWN).

Definition is_joypad_removed (e : InputEvent) : bool :=
  type (internal_event e) =? SDL_CONTROLLERDEVICEREMOVED.

Definition is_joypad_added (e : InputEvent) : bool :=
  type (internal_event e) =? SDL_CONTROLLERDEVICEADDED.



Definition is_window_event (e : InputEvent) : bool :=
  type (internal_event e) =? SDL_QUIT.

Definition is_controller_event (e : InputEvent) : bool :=
  (SDL_CONTROLLERAXISMOTION <=? type (internal_event e))
  && (type (internal_event e) <=? SDL_CONTROLLERDEVICEREMAPPED).

(** *** Keyboard *)

(** [get_keyboard_key]: [NONE] unless this is a keyboard event whose key
    code is in the name table. *)
Definition get_keyboard_key (s : InputStatics) (e : InputEvent)
  : KeyboardKey.Enum :=
  if negb (is_keyboard_event s e) then KeyboardKey.NONE
  else
    let sdl_symbol := key_keysym_sym (internal_event e) in
    match List.find (fun entry => keycode (fst entry) =? sdl_symbol)
            KeyboardKey.names with
    | None => KeyboardKey.NONE
    | Some entry => fst entry
    end.

Definition is_keyboard_key_pressed (s : InputStatics) (e : InputEvent)
  : bool :=
  (type (internal_event e) =? SDL_KEYDOWN)
  && ((key_repeat (internal_event e) =? 0) || repeat_keyboard s).

(** [is_keyboard_key_pressed(KeyboardKey key)]. *)
Definition is_keyboard_key_pressed_key (s : InputStatics) (e : InputEvent)
    (key : KeyboardKey.Enum) : bool :=
  is_keyboard_key_pressed s e
  && KeyboardKey_eqb (get_keyboard_key s e) key.

(** [is_keyboard_key_pressed(const KeyboardKey* keys)]: the array is read
    up to its [NONE] terminator. *)
Fixpoint is_keyboard_key_pressed_keys (s : InputStatics) (e : InputEvent)
    (keys : list KeyboardKey.Enum) : bool :=
  match keys with
  | [] => false
  | key :: keys' =>
      if negb (KeyboardKey_eqb key KeyboardKey.NONE) then
        if is_keyboard_key_pressed_key s e key then true
        else is_keyboard_key_pressed_keys s e keys'
      else false
  end.

Definition is_keyboard_direction_key_pressed (s : InputStatics)
    (e : InputEvent) : bool :=
  is_keyboard_key_pressed_keys s e directional_keys.

Definition is_keyboard_non_direction_key_pressed (s : InputStatics)
    (e : InputEvent) : bool :=
  is_keyboard_key_pressed s e
  && negb (is_keyboard_direction_key_pressed s e).

Definition is_keyboard_key_released (s : InputStatics) (e : InputEvent)
  : bool :=
  (type (internal_event e) =? SDL_KEYUP)
  && ((key_repeat (internal_event e) =? 0) || repeat_keyboard s).

(** *** Joypad *)

Definition is_legacy_joypad_enabled (s : InputStatics) : bool :=
  legacy_joypad_enabled s.

(** [InputEvent::other_joypad]: the first joypad, in the order of the
    [std::map], that is not the given one. *)
Definition other_joypad (s : InputStatics) (joypad : option JoypadPtr)
  : option JoypadPtr :=
  match List.find (fun p => negb (bool_decide (Some (snd p) = joypad)))
          (in_key_order (joypads s)) with
  | Some p => Some (snd p)
  | None => None
  end.

Definition joypad_id_from_index (s : InputStatics) (index : Z) : Z :=
  match jindex2id s !! index with
  | Some id => id
  | None => -1
  end.

Definition is_joypad_button_pressed (e : InputEvent) : bool :=
  type (internal_event e) =? SDL_CONTROLLERBUTTONDOWN.

Definition is_joypad_button_released (e : InputEvent) : bool :=
  type (internal_event e) =? SDL_CONTROLLERBUTTONUP.


Definition get_joypad (s : InputStatics) (e : InputEvent)
  : option JoypadPtr :=
  if negb (is_controller_event e) then None
  else
    let ty := type (internal_event e) in
    let id :=
      if (ty =? SDL_CONTROLLERAXISMOTION)
         || (ty =? SDL_CONTROLLERBUTTONDOWN)
         || (ty =? SDL_CONTROLLERBUTTONUP)
      then cbutton_which (internal_event e)
      else if ty =? SDL_CONTROLLERDEVICEADDED
      then joypad_id_from_index s (cdevice_which (internal_event e))
      else if (ty =? SDL_CONTROLLERDEVICEREMAPPED)
              || (ty =? SDL_CONTROLLERDEVICEREMOVED)
      then cdevice_which (internal_event e)
      else 0 in
    joypads s !! id.

Definition is_joypad_axis_moved (e : InputEvent) : bool :=
  type (internal_event e) =? SDL_CONTROLLERAXISMOTION.

Definition get_joypad_axis (e : InputEvent) : Z :=
  if negb (is_joypad_axis_moved e) then JoyPadAxis_INVALID
  else caxis_axis (internal_event e).

(** [double InputEvent::get_joypad_axis_state() const]. *)
Definition get_joypad_axis_state (s : InputStatics) (e : InputEvent)
  : Float.t :=
  if negb (is_joypad_axis_moved e) then Float.Double.of_int 0
  else
    let value := caxis_value (internal_event e) in
    if Z.abs value <? joypad_deadzone s then Float.zero
    else if value >? 0
    then Float.Double.div (Float.Double.of_int value)
           (Float.Double.of_int 32767)
    else Float.Double.div (Float.Double.of_int value)
           (Float.Double.of_int 32768).

Definition is_joypad_axis_centered (s : InputStatics) (e : InputEvent)
  : bool :=
  is_joypad_axis_moved e
  && Float.eqb (get_joypad_axis_state s e) (Float.Double.of_int 0).

(** Hat events are deprecated: the test on the event type is commented out
    in the source. *)
Definition is_joypad_hat_moved (e : InputEvent) : bool := false.

Definition get_joypad_hat (e : InputEvent) : Z :=
  if negb (is_joypad_hat_moved e) then -1
  else jhat_hat (internal_event e).

Definition get_joypad_hat_direction (e : InputEvent) : Z :=
  if negb (is_joypad_hat_moved e) then -1
  else
    let value := jhat_value (internal_event e) in
    if value =? SDL_HAT_RIGHT then 0
    else if value =? SDL_HAT_RIGHTUP then 1
    else if value =? SDL_HAT_UP then 2
    else if value =? SDL_HAT_LEFTUP then 3
    else if value =? SDL_HAT_LEFT then 4
    else if value =? SDL_HAT_LEFTDOWN then 5
    else if value =? SDL_HAT_DOWN then 6
    else if value =? SDL_HAT_RIGHTDOWN then 7
    else -1.

Definition is_joypad_hat_centered (e : InputEvent) : bool :=
  is_joypad_hat_moved e && (get_joypad_hat_direction e =? -1).

(** *** Mouse *)

Definition is_mouse_button_pressed (e : InputEvent) : bool :=
  type (internal_event e) =? SDL_MOUSEBUTTONDOWN.

Definition is_mouse_button_released (e : InputEvent) : bool :=
  type (internal_event e) =? SDL_MOUSEBUTTONUP.



(** *** Touch finger *)

Definition is_finger_pressed (e : InputEvent) : bool :=
  type (internal_event e) =? SDL_FINGERDOWN.

Definition is_finger_released (e : InputEvent) : bool :=
  type (internal_event e) =? SDL_FINGERUP.

Definition is_finger_moved (e : InputEvent) : bool :=
  type (internal_event e) =? SDL_FINGERMOTION.





(** *** Functions common to keyboard and joypad events *)

Definition get_direction (s : InputStatics) (e : InputEvent) : Z :=
  let result := -1 in
  if is_keyboard_direction_key_pressed s e then
    let key := get_keyboard_key s e in
    if KeyboardKey_eqb key KeyboardKey.RIGHT then 0
    else if KeyboardKey_eqb key KeyboardKey.UP then 2
    else if KeyboardKey_eqb key KeyboardKey.LEFT then 4
    else if KeyboardKey_eqb key KeyboardKey.DOWN then 6
    else result
  else if is_joypad_axis_moved e && negb (is_joypad_axis_centered s e) then
    let axis := get_joypad_axis e in
    if (axis =? JoyPadAxis_LEFT_X) || (axis =? JoyPadAxis_RIGHT_X) then
      (* we assume the axis is horizontal *)
      if Float.ltb (Float.Double.of_int 0) (get_joypad_axis_state s e)
      then 0 else 4
    else
      (* we assume the axis is vertical *)
      if Float.ltb (Float.Double.of_int 0) (get_joypad_axis_state s e)
      then 6 else 2
  else if is_joypad_hat_moved e then get_joypad_hat_direction e
  else result.

Definition is_direction_pressed (s : InputStatics) (e : InputEvent) : bool :=
  is_keyboard_direction_key_pressed s e
  || (is_joypad_axis_moved e && negb (is_joypad_axis_centered s e))
  || (is_joypad_hat_moved e && negb (is_joypad_hat_centered e)).

(** *** Window events *)

Definition is_window_closing (e : InputEvent) : bool :=
  type (internal_event e) =? SDL_QUIT.

Definition is_window_resizing (e : InputEvent) : bool :=
  (type (internal_event e) =? SDL_WINDOWEVENT)
  && (window_event (internal_event e) =? SDL_WINDOWEVENT_RESIZED).

Definition is_window_focus_lost (e : InputEvent) : bool :=
  (type (internal_event e) =? SDL_WINDOWEVENT)
  && (window_event (internal_event e) =? SDL_WINDOWEVENT_FOCUS_LOST).

Definition is_window_focus_gained (e : InputEvent) : bool :=
  (type (internal_event e) =? SDL_WINDOWEVENT)
  && (window_event (internal_event e) =? SDL_WINDOWEVENT_FOCUS_GAINED).

Definition get_window_size (e : InputEvent) : Size :=
  {| width := window_data1 (internal_event e);
     height := window_data2 (internal_event e) |}.

End InputEvent_cpp.

(** ** MainLoop.cpp: state accessors, and scripts calling back *)

Section Callbacks.

Context {headers : Headers} {collaborators : Collaborators}.

Definition is_suspended : M bool :=
  m <- get_main_loop ;; ret (suspended m).

Definition set_suspended (suspended' : bool) : M unit :=
  m <- get_main_loop ;;
  when (negb (Bool.eqb suspended' (suspended m)))
    (modify_main_loop (with_suspended suspended')).

Definition is_exiting : M bool :=
  m <- get_main_loop ;; ret (exiting m).

Definition set_exiting : M unit :=
  (* Stop the program. *)
  modify_main_loop (with_exiting true).

Definition is_resetting : M bool :=
  m <- get_main_loop ;;
  ret (bool_decide (game m <> None) && bool_decide (next_game m = None)).

Definition get_game : M (option GamePtr) :=
  m <- get_main_loop ;; ret (game m).

Definition set_game (game' : option GamePtr) : M unit :=
  modify_main_loop (with_next_game game').

(** A collaborator that runs scripts has just returned: what the scripts
    asked of the main loop meanwhile. *)
Definition scripts : M unit :=
  h <- history ;;
  let r := script_requests h in
  when (request_exiting r) set_exiting ;;
  match request_suspended r with
  | Some b => set_suspended b
  | None => ret tt
  end ;;
  match request_game r with
  | Some g => set_game g
  | None => ret tt
  end.

(** *** [InputEvent::notify_joypad] *)

(** [joypads.at(id)]. *)
Definition joypads_at (id : Z) : M JoypadPtr :=
  s <- get_input ;;
  match joypads s !! id with
  | Some joy => ret joy
  | None => throw "std::out_of_range"
  end.

Definition notify_joypad (e : InputEvent) : M bool :=
  let ev := internal_event e in
  let ty := type ev in
  if ty =? SDL_CONTROLLERAXISMOTION then
    joy <- joypads_at (caxis_which ev) ;;
    h <- history ;;
    let val := Joypad_computeAxisVal (caxis_value ev) in
    let handled := on_joypad_axis_moved h joy (caxis_axis ev) val in
    emit (Lua_on_joypad_axis_moved joy (caxis_axis ev) val handled) ;;
    scripts ;;
    ret handled
  else if ty =? SDL_CONTROLLERBUTTONUP then
    joy <- joypads_at (cbutton_which ev) ;;
    h <- history ;;
    let handled := on_joypad_button_released h joy (cbutton_button ev) in
    emit (Lua_on_joypad_button_released joy (cbutton_button ev) handled) ;;
    scripts ;;
    ret handled
  else if ty =? SDL_CONTROLLERBUTTONDOWN then
    joy <- joypads_at (cbutton_which ev) ;;
    h <- history ;;
    let handled := on_joypad_button_pressed h joy (cbutton_button ev) in
    emit (Lua_on_joypad_button_pressed joy (cbutton_button ev) handled) ;;
    scripts ;;
    ret handled
  else if ty =? SDL_CONTROLLERDEVICEADDED then
    let i := cdevice_which ev in
    s <- get_input ;;
    let id := joypad_id_from_index s i in
    if bool_decide (joypads s !! id <> None) then
      ret false (* Consider joypads where already added *)
    else
      emit (SDL_GameControllerOpen i) ;;
      emit (SDL_JoystickOpen i) ;;
      h <- history ;;
      let id := SDL_JoystickInstanceID h i in
      let made := make_shared_Joypad h in
      (* [emplace] keeps an element already stored under [id]. *)
      let joy := default made (joypads s !! id) in
      modify_input
        (with_joypads (<[id := joy]> (joypads s)) (<[i := id]> (jindex2id s))) ;;
      emit (Lua_input_on_joypad_connected joy) ;;
      scripts ;;
      ret true (* Connected event always considered handled *)
  else if ty =? SDL_CONTROLLERDEVICEREMOVED then
    joy <- joypads_at (cbutton_which ev) ;;
    emit (Joypad_reset joy) ;;
    h <- history ;;
    let handled := on_joypad_removed h joy in
    emit (Lua_on_joypad_removed joy handled) ;;
    scripts ;;
    s <- get_input ;;
    modify_input (with_joypads (delete (caxis_which ev) (joypads s)) ∅) ;;
    ret handled
  else
    (* In case we missed smth, event is not handled *)
    ret false.

End Callbacks.

(** ** System.h *)

(** [static constexpr uint64_t fixed_timestep_ns = 10000000]: timestep
    added to the simulated time at each update. *)
Definition fixed_timestep_ns : Z := 10000000.

(** ** MainLoop.cpp *)

Definition Size_eqb (a b : Size) : bool :=
  (width a =? width b) && (height a =? height b).

(** Local variables of [fixed_run] that live across frames. *)
Record FixedRun := {
  last_frame_date : Z;     (* uint64_t *)
  lag : Z;                 (* int64_t: lose time of the simulation to catch up *)
  time_dropped : Z         (* int64_t: time that won't be caught up *)
}.

(** Local variables of [dynamic_run] that live across frames. *)
Record DynamicRun := {
  dynamic_last_frame_date : Z;   (* uint64_t *)
  delta_buffer : Z               (* int64_t *)
}.

(** The values that the debug line of [dynamic_run] would print. *)
Record DynamicFrame := {
  perfect_frame_duration : Z;
  last_frame_duration : Z;
  smoothed_duration : Z;
  delta_buffer_after : Z;
  spill : Z
}.

(** [auto delta_buffer_spill = 0.01f]. *)
Definition delta_buffer_spill : Float.t :=
  SFdiv Float.Single.prec Float.Single.emax
    (Float.Single.of_int 1) (Float.Single.of_int 100).

Section MainLoop_cpp.

Context {headers : Headers} {collaborators : Collaborators}.

Definition quoted (s : string) : string :=
  (KeyboardKey.double_quote ++ s ++ KeyboardKey.double_quote)%string.

(** [int MainLoop::push_lua_command(const std::string& command)]. *)
Definition push_lua_command (command : string) : M Z :=
  emit Mutex_lock ;;
  emit (lua_commands_push_back command) ;;
  modify_main_loop (fun m => with_lua_commands (lua_commands m ++ [command]) m) ;;
  m <- get_main_loop ;;
  let id := num_lua_commands_pushed m in
  modify_main_loop (with_num_lua_commands_pushed (Int.i32 (id + 1))) ;;
  emit Mutex_unlock ;;
  ret id.

(** [System::get_real_time_ns()] and [System::get_real_time_ms()]. *)
Definition get_real_time_ns : M Z :=
  h <- history ;;
  let now := Int.u64 (System_real_time_ns h) in
  emit (System_get_real_time_ns now) ;;
  ret now.

Definition get_real_time_ms : M Z :=
  h <- history ;;
  let now := Int.u32 (System_real_time_ms h) in
  emit (System_get_real_time_ms now) ;;
  ret now.

(** [System::sleep(uint32_t duration)]. *)
Definition sleep (duration : Z) : M unit :=
  emit (System_sleep (Int.u32 duration)).

Definition make_root_surface : M unit :=
  h <- history ;;
  let s := Video_get_quest_size h in
  let s := if Video_geometry_mode_is_dynamic h
           then Video_get_window_size h else s in
  m <- get_main_loop ;;
  let stale :=
    match root_surface m with
    | None => true
    | Some size => negb (Size_eqb size s)
    end in
  when stale
    (emit (Surface_create s) ;;
     modify_main_loop (with_root_surface (Some s))).

(** [void MainLoop::step(uint64_t timestep_ns)]. *)
Definition step (timestep_ns : Z) : M unit :=
  m <- get_main_loop ;;
  when (bool_decide (game m <> None)) (emit Game_update ;; scripts) ;;
  emit Lua_update ;; scripts ;;
  emit (System_update timestep_ns) ;;
  (* Go to another game? *)
  m <- get_main_loop ;;
  when (negb (bool_decide (next_game m = game m)))
    (modify_main_loop (with_game (next_game m)) ;;
     if bool_decide (next_game m <> None) then
       emit Game_start ;; scripts
     else
       emit Lua_exit ;; emit Lua_initialize ;; scripts ;;
       emit Music_stop_playing).

(** [void MainLoop::notify_input(const InputEvent& event)], in two parts.
    First the [if ... else if] chain on the kind of the event, which leaves
    [handled] set for controller events only.  [PANDORA] is not defined:
    pressing a key does nothing there. *)
Definition notify_input_chain (event : InputEvent) : M bool :=
  m <- get_main_loop ;;
  s <- get_input ;;
    (if is_window_closing event then
       set_exiting ;; ret false
     else if is_window_resizing event then
       (* Let video module resize it's geometry *)
       emit (Video_on_window_resized (get_window_size event)) ;;
       (* Notify game if any *)
       make_root_surface ;;
       when (bool_decide (game m <> None))
         (emit (Game_notify_window_size_changed (get_window_size event)) ;;
          scripts) ;;
       ret false
     else if suspend_unfocused m && is_window_focus_lost event then
       suspended_now <- is_suspended ;;
       when (negb suspended_now)
         (emit (Logger_info "Simulation suspended") ;;
          set_suspended true ;;
          emit Sound_pause_all ;;
          emit Music_pause_playing) ;;
       ret false
     else if suspend_unfocused m && is_window_focus_gained event then
       suspended_now <- is_suspended ;;
       when suspended_now
         (emit (Logger_info "Simulation resumed") ;;
          set_suspended false ;;
          emit Music_resume_playing ;;
          emit Sound_resume_all) ;;
       ret false
     else if is_keyboard_key_pressed s event then
       (* A key was pressed. *)
       ret false
     else if is_controller_event event then
       (* First check if main joypad disconnected *)
       h <- history ;;
       when (is_legacy_joypad_enabled s
             && is_joypad_removed event
             && bool_decide (game m <> None)
             && bool_decide (Controls_get_joypad h = get_joypad s event))
         ((* Main controls joypad is removed, try to fallback on another *)
          let new_joy := other_joypad s (get_joypad s event) in
          match new_joy with
          | Some joy =>
              emit (Logger_info
                      ("Using joystick: " ++ quoted (Joypad_get_name joy))%string)
          | None => ret tt
          end ;;
          emit (Controls_set_joypad new_joy)) ;;
       handled <- notify_joypad event ;;
       h <- history ;;
       s <- get_input ;;
       m <- get_main_loop ;;
       when (is_legacy_joypad_enabled s
             && is_joypad_added event
             && bool_decide (game m <> None)
             && bool_decide (Controls_get_joypad h = None))
         ((* A joypad was connected and main commands did not had one *)
          let new_joy := get_joypad s event in
          match new_joy with
          | Some joy =>
              emit (Logger_info
                      ("Using joystick: " ++ quoted (Joypad_get_name joy))%string)
          | None => ret tt
          end ;;
          emit (Controls_set_joypad new_joy)) ;;
       ret handled
     else ret false).

(** Then: send the event to Lua and to the current screen. *)
Definition notify_input_forward (event : InputEvent) (handled : bool)
  : M unit :=
  handled <-
    (if negb handled then
       h <- history ;;
       let handled := lua_notify_input h event in
       emit (Lua_notify_input event handled) ;;
       scripts ;;
       ret handled
     else ret handled) ;;
  m <- get_main_loop ;;
  handled <-
    (if negb handled && bool_decide (game m <> None) then
       h <- history ;;
       let handled := game_notify_input h event in
       emit (Game_notify_input event handled) ;;
       scripts ;;
       ret handled
     else ret handled) ;;
  when (negb handled)
    (emit (CommandsDispatcher_notify_input event) ;; scripts).

Definition notify_input (event : InputEvent) : M unit :=
  handled <- notify_input_chain event ;;
  notify_input_forward event handled.

(** The [for] loop of [check_input] over the pending events.  The loop
    ends when [get_event] returns [nullptr]; [fuel] bounds the number of
    events taken. *)
Fixpoint check_sdl_events (fuel : nat) : M unit :=
  match fuel with
  | O => ret tt
  | S fuel' =>
      event <- get_event ;;
      match event with
      | Some event => notify_input event ;; check_sdl_events fuel'
      | None => ret tt
      end
  end.

(** Every pending event is taken once, and so is the [SDL_QUIT] that each
    [SDL_JOYBUTTONDOWN] may add. *)
Definition pending_bound (q : list SDL_Event) : nat :=
  S (length q
     + length (List.filter (fun e => type e =? SDL_JOYBUTTONDOWN) q)).

(** The range-based [for] over [lua_commands]. *)
Fixpoint run_lua_commands (commands : list string) : M unit :=
  match commands with
  | [] => ret tt
  | command :: commands' =>
      (* To make sure that the command delimiter starts on a new line. *)
      emit (cout newline) ;;
      m <- get_main_loop ;;
      emit (Logger_info
              ("====== Begin Lua command #"
               ++ pretty (num_lua_commands_done m) ++ " ======")%string) ;;
      h <- history ;;
      let success := do_string_with_easy_env h command "Lua command" in
      emit (Lua_do_string_with_easy_env command "Lua command" success) ;;
      scripts ;;
      m <- get_main_loop ;;
      emit (cout newline) ;;
      emit (Logger_info
              ("====== End Lua command #"
               ++ pretty (num_lua_commands_done m)
               ++ (if success then ": success ======" else ": error ======"))%string) ;;
      modify_main_loop
        (with_num_lua_commands_done (Int.i32 (num_lua_commands_done m + 1))) ;;
      run_lua_commands commands'
  end.

(** [void MainLoop::check_input()]. *)
Definition check_input : M unit :=
  (* Check SDL events. *)
  s <- get_input ;;
  check_sdl_events (pending_bound (sdl_queue s)) ;;
  (* Check Lua requests. *)
  m <- get_main_loop ;;
  when (lua_console_enabled m
        && negb (bool_decide (lua_commands m = [])))
    (emit Mutex_lock ;;
     run_lua_commands (lua_commands m) ;;
     emit lua_commands_clear ;;
     modify_main_loop (with_lua_commands []) ;;
     emit Mutex_unlock).

(** [void MainLoop::draw()]. *)
Definition draw : M unit :=
  emit Surface_clear ;;
  emit Video_clear_screen_surface ;;
  m <- get_main_loop ;;
  when (bool_decide (game m <> None)) (emit Game_draw ;; scripts) ;;
  emit Lua_main_on_draw ;; scripts ;;
  emit Video_render ;;
  emit Lua_video_on_draw ;; scripts ;;
  emit Video_finish.

End MainLoop_cpp.

Section Scheduling.

Context {headers : Headers} {collaborators : Collaborators}.

(** *** [MainLoop::dynamic_run] *)

(** The body of the block guarded by [!is_exiting() && !is_suspended()],
    up to the call of [step]. *)
Definition dynamic_measure (st : DynamicRun) : M (DynamicRun * DynamicFrame) :=
  (* Measure the time of the last iteration. *)
  now <- get_real_time_ns ;;
  let last_frame_duration :=
    Int.i64 (Int.u64 (now - dynamic_last_frame_date st)) in
  let used_last_frame_duration := last_frame_duration in
  let last_frame_date := now in
  h <- history ;;
  let perfect_frame_duration := Int.i64 (Video_get_display_period_ns h) in
  let used_last_frame_duration :=
    if last_frame_duration >? Int.i64 (perfect_frame_duration * 5)
    then perfect_frame_duration (* pretend everything is fine *)
    else used_last_frame_duration in
  (* Compute how much we spill from delta_buffer *)
  let spill :=
    Float.to_int64
      (Float.Single.mul (Float.Single.of_int (delta_buffer st))
         delta_buffer_spill) in
  (* Transfer time to smoothed duration *)
  let smoothed_duration := Int.i64 (perfect_frame_duration + spill) in
  (* Put current frame error in buffer *)
  let delta_buffer :=
    Int.i64 (delta_buffer st
             + Int.i64 (used_last_frame_duration - smoothed_duration)) in
  ret ({| dynamic_last_frame_date := last_frame_date;
          delta_buffer := delta_buffer |},
       {| perfect_frame_duration := perfect_frame_duration;
          last_frame_duration := last_frame_duration;
          smoothed_duration := smoothed_duration;
          delta_buffer_after := delta_buffer;
          spill := spill |}).

(** One iteration of the [while] loop.  The report is [None] when the
    iteration only sleeps. *)
Definition dynamic_frame (st : DynamicRun)
  : M (DynamicRun * option DynamicFrame) :=
  (* 1. Detect and handle input events. *)
  check_input ;;
  exiting_now <- is_exiting ;;
  suspended_now <- is_suspended ;;
  if negb exiting_now && negb suspended_now then
    measured <- dynamic_measure st ;;
    (* 2. Update the world once *)
    step (Int.u64 (smoothed_duration (snd measured))) ;;
    (* 3. Draw *)
    draw ;;
    ret (fst measured, Some (snd measured))
  else
    sleep (fixed_timestep_ns / 1000000) ;;
    ret (st, None).

(** The first [frames] iterations of [while (!is_exiting())]. *)
Fixpoint dynamic_frames (frames : nat) (st : DynamicRun)
  : M (DynamicRun * list DynamicFrame) :=
  match frames with
  | O => ret (st, [])
  | S frames' =>
      exiting_now <- is_exiting ;;
      if exiting_now then ret (st, [])
      else
        r <- dynamic_frame st ;;
        rest <- dynamic_frames frames' (fst r) ;;
        ret (fst rest,
             match snd r with
             | Some f => f :: snd rest
             | None => snd rest
             end)
  end.

Definition dynamic_run (frames : nat) : M (DynamicRun * list DynamicFrame) :=
  last_frame_date <- get_real_time_ns ;;
  dynamic_frames frames
    {| dynamic_last_frame_date := last_frame_date; delta_buffer := 0 |}.

(** *** [MainLoop::fixed_run] *)

(** Measure the time of the last iteration, and drop a huge lag. *)
Definition fixed_measure (st : FixedRun) : M FixedRun :=
  real_time <- get_real_time_ns ;;
  let now := Int.u64 (real_time - time_dropped st) in
  let last_frame_duration := Int.u64 (now - last_frame_date st) in
  let last_frame_date := now in
  let lag := Int.i64 (lag st + last_frame_duration) in
  (* At this point, lag represents how much late the simulated time with
     compared to the real time. *)
  if lag >=? 200000000 then
    (* Huge lag: don't try to catch up.  Let's fake the real time instead. *)
    let time_dropped :=
      Int.i64 (time_dropped st + (lag - fixed_timestep_ns)) in
    let lag := Int.i64 fixed_timestep_ns in
    real_time <- get_real_time_ns ;;
    let last_frame_date := Int.u64 (real_time - time_dropped) in
    ret {| last_frame_date := last_frame_date; lag := lag;
           time_dropped := time_dropped |}
  else
    ret {| last_frame_date := last_frame_date; lag := lag;
           time_dropped := time_dropped st |}.

(** The test of the catch-up [while] loop. *)
Definition catch_up_condition (lag num_updates : Z) : M bool :=
  exiting_now <- is_exiting ;;
  suspended_now <- is_suspended ;;
  ret ((lag >=? Int.i64 fixed_timestep_ns)
       && (num_updates <? 10) (* To draw sometimes anyway on very slow systems. *)
       && negb exiting_now && negb suspended_now).

(** The catch-up loop, returning the final [lag] and [num_updates].
    [num_updates] grows at each turn and stays below 10: [fuel] counts the
    turns that remain. *)
Fixpoint catch_up (fuel : nat) (lag num_updates : Z) : M (Z * Z) :=
  match fuel with
  | O => ret (lag, num_updates)
  | S fuel' =>
      continue <- catch_up_condition lag num_updates ;;
      if continue then
        step fixed_timestep_ns ;;
        catch_up fuel' (Int.i64 (lag - fixed_timestep_ns)) (num_updates + 1)
      else ret (lag, num_updates)
  end.

(** 2. Update the world once, or several times (skipping some draws) to
    catch up if the system is slow. *)
Definition fixed_update (lag : Z) : M (Z * Z) :=
  let num_updates := 0 in
  m <- get_main_loop ;;
  suspended_now <- is_suspended ;;
  if turbo m && negb suspended_now then
    (* Turbo mode: always update at least once. *)
    step fixed_timestep_ns ;;
    let lag := Int.i64 (lag - fixed_timestep_ns) in
    let num_updates := num_updates + 1 in
    catch_up (Z.to_nat (10 - num_updates)) lag num_updates
  else
    catch_up (Z.to_nat (10 - num_updates)) lag num_updates.

(** 4. Sleep if we have time, to save CPU and GPU cycles. *)
Definition fixed_sleep (st : FixedRun) : M unit :=
  m <- get_main_loop ;;
  suspended_now <- is_suspended ;;
  when ((debug_lag m >? 0) && negb (turbo m) && negb suspended_now)
    ((* Extra sleep time for debugging, useful to simulate slower systems. *)
     sleep (debug_lag m ÷ 1000000)) ;;
  real_time_ms <- get_real_time_ms ;;
  let last_frame_duration :=
    Int.u64 (Int.i64 (real_time_ms - time_dropped st) - last_frame_date st) in
  when ((last_frame_duration <? fixed_timestep_ns) && negb (turbo m))
    (sleep ((fixed_timestep_ns - last_frame_duration) / 1000000)).

(** One iteration of the [while] loop, returning [num_updates] too. *)
Definition fixed_frame (st : FixedRun) : M (FixedRun * Z) :=
  st <- fixed_measure st ;;
  (* 1. Detect and handle input events. *)
  check_input ;;
  updated <- fixed_update (lag st) ;;
  let st := {| last_frame_date := last_frame_date st; lag := fst updated;
               time_dropped := time_dropped st |} in
  let num_updates := snd updated in
  (* 3. Redraw the screen. *)
  suspended_now <- is_suspended ;;
  when ((num_updates >? 0) && negb suspended_now) draw ;;
  fixed_sleep st ;;
  ret (st, num_updates).

(** The first [frames] iterations of [while (!is_exiting())]. *)
Fixpoint fixed_frames (frames : nat) (st : FixedRun) : M FixedRun :=
  match frames with
  | O => ret st
  | S frames' =>
      exiting_now <- is_exiting ;;
      if exiting_now then ret st
      else
        r <- fixed_frame st ;;
        fixed_frames frames' (fst r)
  end.

Definition fixed_run (frames : nat) : M FixedRun :=
  last_frame_date <- get_real_time_ns ;;
  fixed_frames frames
    {| last_frame_date := last_frame_date; lag := 0; time_dropped := 0 |}.

End Scheduling.

(** ** A test bench

    Concrete headers and collaborators for the closed examples: the key
    codes of SDL 2, and collaborators whose answers are fixed in advance. *)

Definition SDL2_keycode (key : KeyboardKey.Enum) : Z :=
  match key with
  | KeyboardKey.NONE => 0 | KeyboardKey.BACKSPACE => 8
  | KeyboardKey.TABULATION => 9 | KeyboardKey.CLEAR => 1073741980
  | KeyboardKey.RETURN => 13 | KeyboardKey.PAUSE => 1073741896
  | KeyboardKey.ESCAPE => 27 | KeyboardKey.SPACE => 32
  | KeyboardKey.EXCLAMATION_MARK => 33 | KeyboardKey.DOULE_QUOTE => 34
  | KeyboardKey.HASH => 35 | KeyboardKey.DOLLAR => 36
  | KeyboardKey.AMPERSAND => 38 | KeyboardKey.SINGLE_QUOTE => 39
  | KeyboardKey.LEFT_PARENTHESIS => 40 | KeyboardKey.RIGHT_PARENTHESIS => 41
  | KeyboardKey.ASTERISK => 42 | KeyboardKey.PLUS => 43
  | KeyboardKey.COMMA => 44 | KeyboardKey.MINUS => 45
  | KeyboardKey.PERIOD => 46 | KeyboardKey.SLASH => 47
  | KeyboardKey.NUMBER_0 => 48 | KeyboardKey.NUMBER_1 => 49
  | KeyboardKey.NUMBER_2 => 50 | KeyboardKey.NUMBER_3 => 51
  | KeyboardKey.NUMBER_4 => 52 | KeyboardKey.NUMBER_5 => 53
  | KeyboardKey.NUMBER_6 => 54 | KeyboardKey.NUMBER_7 => 55
  | KeyboardKey.NUMBER_8 => 56 | KeyboardKey.NUMBER_9 => 57
  | KeyboardKey.COLON => 58 | KeyboardKey.SEMICOLON => 59
  | KeyboardKey.LESS => 60 | KeyboardKey.EQUALS => 61
  | KeyboardKey.GREATER => 62 | KeyboardKey.QUESTION_MARK => 63
  | KeyboardKey.AT => 64 | KeyboardKey.LEFT_BRACKET => 91
  | KeyboardKey.BACKSLASH => 92 | KeyboardKey.RIGHT_BRACKET => 93
  | KeyboardKey.CARET => 94 | KeyboardKey.UNDERSCORE => 95
  | KeyboardKey.BACKQUOTE => 96 | KeyboardKey.a => 97 | KeyboardKey.b => 98
  | KeyboardKey.c => 99 | KeyboardKey.d => 100 | KeyboardKey.e => 101
  | KeyboardKey.f => 102 | KeyboardKey.g => 103 | KeyboardKey.h => 104
  | KeyboardKey.i => 105 | KeyboardKey.j => 106 | KeyboardKey.k => 107
  | KeyboardKey.l => 108 | KeyboardKey.m => 109 | KeyboardKey.n => 110
  | KeyboardKey.o => 111 | KeyboardKey.p => 112 | KeyboardKey.q => 113
  | KeyboardKey.r => 114 | KeyboardKey.s => 115 | KeyboardKey.t => 116
  | KeyboardKey.u => 117 | KeyboardKey.v => 118 | KeyboardKey.w => 119
  | KeyboardKey.x => 120 | KeyboardKey.y => 121 | KeyboardKey.z => 122
  | KeyboardKey.KEY_DELETE => 127 | KeyboardKey.KP0 => 1073741922
  | KeyboardKey.KP1 => 1073741913 | KeyboardKey.KP2 => 1073741914
  | KeyboardKey.KP3 => 1073741915 | KeyboardKey.KP4 => 1073741916
  | KeyboardKey.KP5 => 1073741917 | KeyboardKey.KP6 => 1073741918
  | KeyboardKey.KP7 => 1073741919 | KeyboardKey.KP8 => 1073741920
  | KeyboardKey.KP9 => 1073741921 | KeyboardKey.KP_PERIOD => 1073741923
  | KeyboardKey.KP_DIVIDE => 1073741908
  | KeyboardKey.KP_MULTIPLY => 1073741909
  | KeyboardKey.KP_MINUS => 1073741910 | KeyboardKey.KP_PLUS => 1073741911
  | KeyboardKey.KP_ENTER => 1073741912 | KeyboardKey.KP_EQUALS => 1073741927
  | KeyboardKey.UP => 1073741906 | KeyboardKey.DOWN => 1073741905
  | KeyboardKey.RIGHT => 1073741903 | KeyboardKey.LEFT => 1073741904
  | KeyboardKey.INSERT => 1073741897 | KeyboardKey.HOME => 1073741898
  | KeyboardKey.END => 1073741901 | KeyboardKey.PAGE_UP => 1073741899
  | KeyboardKey.PAGE_DOWN => 1073741902 | KeyboardKey.F1 => 1073741882
  | KeyboardKey.F2 => 1073741883 | KeyboardKey.F3 => 1073741884
  | KeyboardKey.F4 => 1073741885 | KeyboardKey.F5 => 1073741886
  | KeyboardKey.F6 => 1073741887 | KeyboardKey.F7 => 1073741888
  | KeyboardKey.F8 => 1073741889 | KeyboardKey.F9 => 1073741890
  | KeyboardKey.F10 => 1073741891 | KeyboardKey.F11 => 1073741892
  | KeyboardKey.F12 => 1073741893 | KeyboardKey.F13 => 1073741928
  | KeyboardKey.F14 => 1073741929 | KeyboardKey.F15 => 1073741930
  | KeyboardKey.NUMLOCK => 1073741907 | KeyboardKey.CAPSLOCK => 1073741881
  | KeyboardKey.SCROLLOCK => 1073741895
  | KeyboardKey.RIGHT_SHIFT => 1073742053
  | KeyboardKey.LEFT_SHIFT => 1073742049
  | KeyboardKey.RIGHT_CONTROL => 1073742052
  | KeyboardKey.LEFT_CONTROL => 1073742048
  | KeyboardKey.RIGHT_ALT => 1073742054 | KeyboardKey.LEFT_ALT => 1073742050
  | KeyboardKey.RIGHT_META => 1073742055
  | KeyboardKey.LEFT_META => 1073742051
  end.

Definition SDL2_headers : Headers :=
  {| keycode := SDL2_keycode;
     MouseButton_NONE := 0;
     JoyPadButton_INVALID := -1;
     JoyPadAxis_INVALID := -1;
     JoyPadAxis_LEFT_X := 0;
     JoyPadAxis_RIGHT_X := 2 |}.

(** Number of readings of the nanosecond clock so far. *)
Definition clock_reads (h : Trace) : Z :=
  Z.of_nat
    (length
       (List.filter
          (fun e => match e with System_get_real_time_ns _ => true | _ => false end)
          h)).

(** Collaborators of the bench: the clock is a function of the number of
    earlier readings, the display has a fixed period, Lua and the game
    answer [lua_handles] and [game_handles] to every input event, commands
    succeed, and scripts ask [requests]. *)
Definition bench (clock_ns : Z -> Z) (display_period_ns : Z)
    (lua_handles game_handles : bool) (requests : Trace -> Requests)
  : Collaborators :=
  {| Video_output_to_quest_coordinates := fun _ p => p;
     Video_get_output_size := fun _ => {| width := 640; height := 480 |};
     Video_get_quest_size := fun _ => {| width := 320; height := 240 |};
     Video_get_window_size := fun _ => {| width := 640; height := 480 |};
     Video_geometry_mode_is_dynamic := fun _ => false;
     Video_get_display_period_ns := fun _ => display_period_ns;
     System_real_time_ns := fun h => clock_ns (clock_reads h);
     System_real_time_ms := fun h => clock_ns (clock_reads h) / 1000000;
     SDL_GetMouseState := fun _ => 0;
     SDL_JoystickInstanceID := fun _ index => index;
     make_shared_Joypad := fun h => Z.of_nat (length h);
     Joypad_get_name := fun _ => "pad";
     Joypad_computeAxisVal := fun _ => Float.zero;
     on_joypad_axis_moved := fun _ _ _ _ => false;
     on_joypad_button_released := fun _ _ _ => false;
     on_joypad_button_pressed := fun _ _ _ => false;
     on_joypad_removed := fun _ _ => false;
     lua_notify_input := fun _ _ => lua_handles;
     do_string_with_easy_env := fun _ _ _ => true;
     game_notify_input := fun _ _ => game_handles;
     Controls_get_joypad := fun _ => None;
     script_requests := requests |}.

(** A display at 60 Hz, a clock that stands still, nothing handled, quiet
    scripts. *)
Definition quiet_bench : Collaborators :=
  bench (fun _ => 0) 16666666 false false (fun _ => no_request).

(** ** Reading the queue to its end *)

Section Polling.

Context {collaborators : Collaborators}.

(** [get_event] called until it returns [nullptr], as [check_input] does,
    and the events it returned.  [fuel] bounds the number of calls. *)
Fixpoint get_events (fuel : nat) : M (list InputEvent) :=
  match fuel with
  | O => ret []
  | S fuel' =>
      event <- get_event ;;
      match event with
      | Some event => rest <- get_events fuel' ;; ret (event :: rest)
      | None => ret []
      end
  end.

End Polling.

(** What one raw event does to the pressed keys, to the pressed joypad
    buttons and to the rest of the queue. *)
Definition keys_after (ev : SDL_Event) (keys : gset Z) : gset Z :=
  if type ev =? SDL_KEYDOWN then {[key_keysym_sym ev]} ∪ keys
  else if type ev =? SDL_KEYUP then keys ∖ {[key_keysym_sym ev]}
  else keys.

Definition jbuttons_after (ev : SDL_Event) (buttons : gset Z) : gset Z :=
  if type ev =? SDL_JOYBUTTONDOWN then {[jbutton_button ev]} ∪ buttons
  else if type ev =? SDL_JOYBUTTONUP then buttons ∖ {[jbutton_button ev]}
  else buttons.

Definition queue_after (ev : SDL_Event) (buttons combo : gset Z)
    (q : list SDL_Event) : list SDL_Event :=
  if (type ev =? SDL_JOYBUTTONDOWN)
     && bool_decide ({[jbutton_button ev]} ∪ buttons = combo)
  then q ++ [SDL.blank SDL_QUIT]
  else q.

(** Whether [get_event] overwrites the repeat flag of a raw event. *)
Definition repeat_forced (ev : SDL_Event) (keys : gset Z) : bool :=
  ((type ev =? SDL_KEYDOWN) && bool_decide (key_keysym_sym ev ∈ keys))
  || ((type ev =? SDL_KEYUP) && negb (bool_decide (key_keysym_sym ev ∈ keys))).

(** The pressed keys after a sequence of raw events. *)
Definition track_keys (raw : list SDL_Event) (keys : gset Z) : gset Z :=
  fold_left (fun keys ev => keys_after ev keys) raw keys.

(** The specification's words: the keys currently down.  What the raw
    events last said about a key, if they said anything. *)
Definition last_key_event (key : Z) (raw : list SDL_Event) : option bool :=
  fold_left
    (fun last ev =>
       if (type ev =? SDL_KEYDOWN) && (key_keysym_sym ev =? key) then Some true
       else if (type ev =? SDL_KEYUP) && (key_keysym_sym ev =? key)
            then Some false
            else last)
    raw None.

(** A key is down after the raw events [raw] when its last event is a
    press, or when it was down before and no event mentions it. *)
Definition currently_down (before : gset Z) (raw : list SDL_Event) (key : Z)
  : Prop :=
  match last_key_event key raw with
  | Some down => down = true
  | None => key ∈ before
  end.

#[global] Instance currently_down_dec before raw key :
  Decision (currently_down before raw key).
Proof. unfold currently_down. destruct (last_key_event key raw); apply _. Defined.

(** A world of the bench: the given raw queue, pressed keys, pressed
    buttons and quit combo; everything else as constructed. *)
Definition bench_world (q : list SDL_Event) (keys buttons combo : gset Z)
  : World :=
  {| input :=
       with_sdl_queue q
         (with_keys_pressed keys
            (with_jbuttons_pressed buttons
               (with_quit_combo combo InputEvent_statics)));
     main_loop := MainLoop_constructed;
     trace := [] |}.

(** ** Vocabulary of the properties *)

(** What [scripts] does to the main loop, as a function of the requests. *)
Definition requested (r : Requests) (m : MainLoop) : MainLoop :=
  let m := if request_exiting r then with_exiting true m else m in
  let m :=
    match request_suspended r with
    | Some b => if negb (Bool.eqb b (suspended m)) then with_suspended b m else m
    | None => m
    end in
  match request_game r with
  | Some g => with_next_game g m
  | None => m
  end.

(** The history [h'] extends [h] by effects that satisfy [P]. *)
Definition adds (P : Effect -> Prop) (h h' : Trace) : Prop :=
  exists new, h' = h ++ new /\ Forall P new.

(** The world [w'] comes after [w]: the history grew by effects in [P],
    the main loop moved along [K] and the statics of [InputEvent] along
    [J]. *)
Definition evolves (P : Effect -> Prop) (K : relation MainLoop)
    (J : relation InputStatics) (w w' : World) : Prop :=
  adds P (trace w) (trace w')
  /\ K (main_loop w) (main_loop w')
  /\ J (input w) (input w').

(** [m] always returns, and takes a world to one related by [R]. *)
Definition sure {A} (R : relation World) (m : M A) : Prop :=
  forall w, exists a w', m w = Return a w' /\ R w w'.

(** [m] takes a world to one related by [R], whether it returns or
    throws. *)
Definition respects {A} (R : relation World) (m : M A) : Prop :=
  forall w, R w (world_of (m w)).

(** Run from [w], [m] returns a value and a world that satisfy [Q]. *)
Definition post {A} (m : M A) (w : World) (Q : A -> World -> Prop) : Prop :=
  exists a w', m w = Return a w' /\ Q a w'.

(** Relations between two states of an object. *)
Definition same {S T} (f : S -> T) : relation S := fun x y => f y = f x.
Definition any {S} : relation S := fun _ _ => True.
Definition stays_exiting : relation MainLoop :=
  fun m m' => exiting m = true -> exiting m' = true.


(** Effects of the second part of [notify_input], given what Lua and the
    game answer. *)
Definition forwarded (event : InputEvent) (handled has_game lua_handled
    game_handled : bool) : list Effect :=
  if handled then []
  else
    Lua_notify_input event lua_handled
    :: (if lua_handled then []
        else if has_game
             then Game_notify_input event game_handled
                  :: (if game_handled then []
                      else [CommandsDispatcher_notify_input event])
             else [CommandsDispatcher_notify_input event]).


Section Surface.

Context {collaborators : Collaborators}.


End Surface.

(** The commands that a history shows executed, in order. *)
Definition executed (h : Trace) : list string :=
  flat_map
    (fun e =>
       match e with
       | Lua_do_string_with_easy_env command _ _ => [command]
       | _ => []
       end)
    h.

(** Effects of handling input events: no use of the mutex, no change of
    the list of commands, no command. *)
Definition input_effect (e : Effect) : Prop :=
  match e with
  | Mutex_lock | Mutex_unlock | lua_commands_push_back _ | lua_commands_clear
  | Lua_do_string_with_easy_env _ _ _ => False
  | _ => True
  end.

(** Effects of running a command. *)
Definition command_effect (e : Effect) : Prop :=
  match e with
  | cout _ | Logger_info _ | Lua_do_string_with_easy_env _ _ _ => True
  | _ => False
  end.

(** The part of the main loop that belongs to the console. *)
Definition console (m : MainLoop) : list string * Z * bool :=
  (lua_commands m, num_lua_commands_done m, lua_console_enabled m).

(** What is left of a history after the first release of the mutex. *)
Fixpoint after_unlock (h : Trace) : Trace :=
  match h with
  | [] => []
  | Mutex_unlock :: rest => rest
  | _ :: rest => after_unlock rest
  end.

(** The done-counter after [n] more commands. *)
Definition count_up (n : nat) (done : Z) : Z :=
  Nat.iter n (fun d => Int.i32 (d + 1)) done.

(** A main loop with a batch of commands pending. *)
Definition bench_console (commands : list string) : World :=
  with_main_loop (with_lua_commands commands) initial_world.

(** The simulation steps that a history shows: the timestep of each. *)
Definition updates (h : Trace) : list Z :=
  flat_map
    (fun e =>
       match e with
       | System_update timestep => [timestep]
       | _ => []
       end)
    h.

(** The flags that steer the scheduling. *)
Definition flags (m : MainLoop) : bool * bool * bool :=
  (exiting m, suspended m, turbo m).

Section Scheduling_vocabulary.

Context {collaborators : Collaborators}.

(** Scripts that never ask to exit nor to suspend or resume. *)
Definition calm : Prop :=
  forall h,
    request_exiting (script_requests h) = false
    /\ request_suspended (script_requests h) = None.

(** Number of turns of the catch-up loop entered with [lag] and
    [num_updates], while the loop is neither exiting nor suspended. *)
Definition catch_up_turns (lag num_updates : Z) : Z :=
  Z.max 0 (Z.min (10 - num_updates) (lag / fixed_timestep_ns)).

(** The lag at the head of a frame, once the duration of the last frame is
    added to it. *)
Definition accumulated_lag (st : FixedRun) (w : World) : Z :=
  let real_time := Int.u64 (System_real_time_ns (trace w)) in
  let now := Int.u64 (real_time - time_dropped st) in
  Int.i64 (lag st + Int.u64 (now - last_frame_date st)).

End Scheduling_vocabulary.

(** A frame whose measured duration is the display period. *)
Definition nominal (f : DynamicFrame) : Prop :=
  last_frame_duration f = perfect_frame_duration f.

(** A frame that does not touch the timing. *)
Definition steady (f : DynamicFrame) : Prop :=
  spill f = 0
  /\ smoothed_duration f = perfect_frame_duration f
  /\ delta_buffer_after f = 0.

#[global] Instance nominal_dec f : Decision (nominal f).
Proof. unfold nominal. apply _. Defined.

#[global] Instance steady_dec f : Decision (steady f).
Proof. unfold steady. apply _. Defined.

(** ** The clock in a history *)

(** The readings of [System::get_real_time_ns()] that a history shows, in
    order. *)
Definition real_times (h : Trace) : list Z :=
  flat_map
    (fun e =>
       match e with
       | System_get_real_time_ns now => [now]
       | _ => []
       end)
    h.

(** The histories at which [new], which follows [before], shows a reading of
    [System::get_real_time_ns()]: each one ends with the reading. *)
Fixpoint reading_points (before new : Trace) : list Trace :=
  match new with
  | [] => []
  | e :: rest =>
      match e with
      | System_get_real_time_ns _ =>
          (before ++ [e]) :: reading_points (before ++ [e]) rest
      | _ => reading_points (before ++ [e]) rest
      end
  end.

(** The durations of the frames that end at the given readings, the first one
    having begun at [last_frame_date]: [int64_t last_frame_duration = now -
    last_frame_date], a difference of two [uint64_t]. *)
Fixpoint durations (last_frame_date : Z) (readings : list Z) : list Z :=
  match readings with
  | [] => []
  | now :: rest =>
      Int.i64 (Int.u64 (now - last_frame_date)) :: durations now rest
  end.

(** Effects other than a reading of the clock. *)
Definition clock_free (e : Effect) : Prop :=
  match e with
  | System_get_real_time_ns _ => False
  | _ => True
  end.

(** Effects other than a reading of the clock and a step of the
    simulation. *)
Definition untimed_effect (e : Effect) : Prop :=
  match e with
  | System_get_real_time_ns _ | System_update _ => False
  | _ => True
  end.

(** A bench whose clock advances by one display period between two
    readings. *)
Definition tick_bench : Collaborators :=
  bench (fun reads => 16666666 * reads) 16666666 false false
    (fun _ => no_request).

(** A fixed-timestep frame entered with a lag of one second. *)
Definition one_second_late : FixedRun :=
  {| last_frame_date := 0; lag := 1000000000; time_dropped := 0 |}.

(** ** InputEvent.cpp: pressing and releasing *)

Section InputEvent_more.

Context {headers : Headers} {collaborators : Collaborators}.

(** [is_keyboard_key_released(KeyboardKey key)]. *)
Definition is_keyboard_key_released_key (s : InputStatics) (e : InputEvent)
    (key : KeyboardKey.Enum) : bool :=
  is_keyboard_key_released s e
  && KeyboardKey_eqb (get_keyboard_key s e) key.

(** [bool InputEvent::is_pressed() const]. *)
Definition is_pressed (s : InputStatics) (e : InputEvent) : bool :=
  is_keyboard_key_pressed s e
  || is_direction_pressed s e
  || is_joypad_button_pressed e
  || is_mouse_button_pressed e.

Definition is_non_direction_pressed (s : InputStatics) (e : InputEvent)
  : bool :=
  is_pressed s e && negb (is_direction_pressed s e).

Definition is_released (s : InputStatics) (e : InputEvent) : bool :=
  is_keyboard_key_released s e
  || is_joypad_button_released e
  || (is_joypad_axis_moved e && is_joypad_axis_centered s e)
  || (is_joypad_hat_moved e && is_joypad_hat_centered e)
  || is_mouse_button_released e.

End InputEvent_more.

(** ** Names that a table gives twice *)

(** The positions [i < j] of a table that hold the same name. *)
Fixpoint same_name_from {K} (i j : nat) (name : string)
    (table : list (K * string)) : list (nat * nat) :=
  match table with
  | [] => []
  | entry :: rest =>
      (if String.eqb name (snd entry) then [(i, j)] else [])
      ++ same_name_from i (S j) name rest
  end.

Fixpoint same_names_from {K} (i : nat) (table : list (K * string))
  : list (nat * nat) :=
  match table with
  | [] => []
  | entry :: rest =>
      same_name_from i (S i) (snd entry) rest ++ same_names_from (S i) rest
  end.

Definition same_names {K} (table : list (K * string)) : list (nat * nat) :=
  same_names_from 0 table.

(** ** Joypads *)

(** Controller events that [notify_joypad] looks up with [joypads.at]. *)
Definition names_a_joypad (ev : SDL_Event) : bool :=
  (type ev =? SDL_CONTROLLERAXISMOTION)
  || (type ev =? SDL_CONTROLLERBUTTONUP)
  || (type ev =? SDL_CONTROLLERBUTTONDOWN)
  || (type ev =? SDL_CONTROLLERDEVICEREMOVED).

(** Effects of falling back on another joypad. *)
Definition fallback_effect (e : Effect) : Prop :=
  match e with
  | Logger_info _ | Controls_set_joypad _ => True
  | _ => False
  end.

Section Fallback_vocabulary.

Context {collaborators : Collaborators}.

(** What [notify_input] logs when the controls take a joypad. *)
Definition using_joystick (new_joy : option JoypadPtr) : list Effect :=
  match new_joy with
  | Some joy =>
      [Logger_info ("Using joystick: " ++ quoted (Joypad_get_name joy))]
  | None => []
  end.

End Fallback_vocabulary.

(** ** Further vocabulary of the main loop *)

(** What the main loop does when the window loses the focus, and when it
    gains it. *)
Definition suspension : list Effect :=
  [Logger_info "Simulation suspended"; Sound_pause_all; Music_pause_playing].

Definition resumption : list Effect :=
  [Logger_info "Simulation resumed"; Music_resume_playing; Sound_resume_all].

Section Game_vocabulary.

Context {collaborators : Collaborators}.

(** Scripts that never call [set_game]. *)
Definition keeps_the_game : Prop :=
  forall h, request_game (script_requests h) = None.

End Game_vocabulary.

(** What a step adds to the history when it goes to another game. *)
Definition game_change (current next : option GamePtr) : list Effect :=
  if bool_decide (next = current) then []
  else match next with
       | Some _ => [Game_start]
       | None => [Lua_exit; Lua_initialize; Music_stop_playing]
       end.

(** Effects of waiting: reading the clock in milliseconds, and sleeping. *)
Definition waiting_effect (e : Effect) : Prop :=
  match e with
  | System_get_real_time_ms _ | System_sleep _ => True
  | _ => False
  end.

(** The sleep that [debug_lag] adds at the end of a frame. *)
Definition debug_sleep (m : MainLoop) : list Effect :=
  if (debug_lag m >? 0) && negb (turbo m) && negb (suspended m)
  then [System_sleep (Int.u32 (debug_lag m ÷ 1000000))] else [].

(** ** MainLoop.cpp: starting a quest *)

(** Macros of the build ([config.h] is not among the sources at hand). *)
Class Config := {
  SOLARUS_MAJOR_VERSION : Z;
  SOLARUS_MINOR_VERSION : Z;
  SOLARUS_VERSION : string;
  SOLARUS_DEFAULT_QUEST : string
}.

Section Startup.

Context {config : Config}.

(** [void check_version_compatibility(const std::pair<int, int>&)], of the
    anonymous namespace of [MainLoop.cpp]. *)
Definition check_version_compatibility (quest_version : Z * Z)
  : Debug.Checked unit :=
  let quest_major_version := fst quest_version in
  let quest_minor_version := snd quest_version in
  Debug.and_then
    (if fst quest_version =? 0
     then Debug.Died "No Solarus version is specified in your quest.dat file!"
     else Debug.Ok tt)
    (fun _ =>
       (* The third digit of the version (patch) is ignored because
          compatibility is not broken by patches. *)
       let compatible :=
         if negb (quest_major_version =? SOLARUS_MAJOR_VERSION) then
           (* Assume that changes of major versions break compatibility. *)
           false
         else if quest_minor_version >? SOLARUS_MINOR_VERSION then
           (* The quest is too recent for this engine. *)
           false
         else if (quest_minor_version <? SOLARUS_MINOR_VERSION)
                 && (quest_major_version =? 1)
                 && (quest_minor_version <? 5)
         then false
         else true in
       if negb compatible then
         Debug.Died
           ("This quest is made for Solarus " ++ pretty quest_major_version
            ++ "." ++ pretty quest_minor_version
            ++ ".x but you are running Solarus " ++ SOLARUS_VERSION)%string
       else Debug.Ok tt).

(** [std::string get_quest_path(const Arguments& args)], given what
    [args.get_arguments()] returns. *)
Definition get_quest_path (options : list string) : string :=
  match last options with
  | Some back =>
      match back with
      | String c _ =>
          if negb (Ascii.eqb c "-")
          then back (* The last parameter is not an option: it is the quest path. *)
          else SOLARUS_DEFAULT_QUEST
      | EmptyString => SOLARUS_DEFAULT_QUEST
      end
  | None => SOLARUS_DEFAULT_QUEST
  end.

End Startup.

(** ** MainLoop.cpp: the Lua console on the standard input *)

(** [std::isspace] in the "C" locale: space, and the characters from
    ['\t'] to ['\r']. *)
Definition isspace (c : ascii) : bool :=
  let n := Z.of_nat (nat_of_ascii c) in
  (n =? 32) || ((9 <=? n) && (n <=? 13)).

(** [line.at(line.size() - 1)] of a line that is not empty, and
    [line.erase(line.size() - 1)]. *)
Definition string_back (line : string) : option ascii :=
  last (list_ascii_of_string line).

Definition string_pop_back (line : string) : string :=
  string_of_list_ascii (removelast (list_ascii_of_string line)).

(** [while (!line.empty() && std::isspace(line.at(line.size() - 1)))
      line.erase(line.size() - 1);]
    Each turn shortens the line: [fuel] is its length. *)
Fixpoint erase_trailing_spaces (fuel : nat) (line : string) : string :=
  match fuel with
  | O => line
  | S fuel' =>
      match string_back line with
      | Some c =>
          if isspace c
          then erase_trailing_spaces fuel' (string_pop_back line)
          else line
      | None => line
      end
  end.

Section Lua_console.

Context {headers : Headers} {collaborators : Collaborators}.

(** What the thread of [initialize_lua_console] does with a line that
    [std::getline] gave it. *)
Definition stdin_line (line : string) : M unit :=
  let line := erase_trailing_spaces (String.length line) line in
  when (negb (String.eqb line "")) (push_lua_command line ;; ret tt).

(** The thread, over the lines that [std::getline(std::cin, line)] gives
    one after the other.  Once the input has ended [std::getline] fails, and
    the loop turns without doing anything until the main loop exits. *)
Fixpoint stdin_thread (lines : list string) : M unit :=
  match lines with
  | [] => ret tt
  | line :: rest =>
      exiting_now <- is_exiting ;;
      if exiting_now then ret tt
      else stdin_line line ;; stdin_thread rest
  end.

End Lua_console.

(** The line without its trailing white space. *)
Definition trimmed (line : string) : string :=
  erase_trailing_spaces (String.length line) line.

(** The commands that the console thread queues for these lines. *)
Definition queued (lines : list string) : list string :=
  flat_map
    (fun line => if String.eqb (trimmed line) "" then [] else [trimmed line])
    lines.

(** A string of white space. *)
Definition all_spaces (s : string) : Prop :=
  Forall (fun c => isspace c = true) (list_ascii_of_string s).

(** ** quest_runner.cpp *)

Module QuestRunner.

(** What [Settings] holds: [QVariant::toBool] of the three flags, with the
    defaults the code passes, and [QVariant::toSize] of ["quest_size"]. *)
Record Settings := {
  no_audio : bool;
  force_software_rendering : bool;
  suspend_unfocused : bool;
  quest_size : Size
}.

(** [QSize::isValid()]: both dimensions are at least 0. *)
Definition QSize_isValid (size : Size) : bool :=
  (0 <=? width size) && (0 <=? height size).

(** [QStringList QuestRunner::create_arguments(quest_path, map_id) const]. *)
Definition create_arguments (settings : Settings) (quest_path map_id : string)
  : list string :=
  let arguments := [] in
  (* -run quest_path *)
  let arguments := arguments ++ ["-run"] in
  let arguments :=
    if negb (String.eqb map_id "")
    then arguments ++ [("-map=" ++ map_id)%string] else arguments in
  (* no-audio *)
  let arguments :=
    if no_audio settings then arguments ++ ["-no-audio"] else arguments in
  (* force-software-rendering *)
  let arguments :=
    if force_software_rendering settings
    then arguments ++ ["-force-software-rendering"] else arguments in
  (* suspend-unfocused *)
  let arguments :=
    if negb (suspend_unfocused settings)
    then arguments ++ ["-suspend-unfocused=no"] else arguments in
  (* quest-size *)
  let size := quest_size settings in
  let arguments :=
    if QSize_isValid size then
      let size_str :=
        (pretty (width size) ++ "x" ++ pretty (height size))%string in
      arguments ++ [("-quest-size=" ++ size_str)%string]
    else arguments in
  (* Path of the quest. *)
  arguments ++ [quest_path].

(** [QProcess::state()]. *)
Inductive ProcessState := NotRunning | Starting | Running.

(** The fields of [QuestRunner] that the commands use, and what was written
    so far to the standard input of the quest process. *)
Record t := {
  process_state : ProcessState;
  process_stdin : string;
  last_command_id : Z
}.

(** [QuestRunner::QuestRunner]. *)
Definition constructed : t :=
  {| process_state := NotRunning; process_stdin := ""; last_command_id := -1 |}.

Definition is_started (q : t) : bool :=
  match process_state q with NotRunning => false | _ => true end.

Definition is_running (q : t) : bool :=
  match process_state q with Running => true | _ => false end.

(** [process.write(data)]: the process takes the first [bytes_written]
    bytes, a number that is not the caller's to choose, or signals an error
    with -1. *)
Definition write (bytes_written : Z) (data : string) (q : t) : t :=
  {| process_state := process_state q;
     process_stdin :=
       (process_stdin q
        ++ String.substring 0 (Z.to_nat bytes_written) data)%string;
     last_command_id := last_command_id q |}.

(** [int QuestRunner::execute_command(const QString& command)], the command
    given by its UTF-8 bytes. *)
Definition execute_command (bytes_written : Z) (command : string) (q : t)
  : Z * t :=
  if negb (is_running q) then (-1, q)
  else if String.eqb command "" then (-1, q)
  else
    let command_utf8 := (command ++ newline)%string in
    let q := write bytes_written command_utf8 q in
    if negb (bytes_written =? Z.of_nat (String.length command_utf8))
    then (-1, q)
    else
      let id := Int.i32 (last_command_id q + 1) in
      (id,
       {| process_state := process_state q; process_stdin := process_stdin q;
          last_command_id := id |}).

(** The timer of the constructor: [if (is_started()) process.write("\n")]. *)
Definition timeout (bytes_written : Z) (q : t) : t :=
  if is_started q then write bytes_written newline q else q.

(** What the launcher does, in order: commands to execute and ticks of the
    timer, each with what [process.write] answers then. *)
Inductive Call :=
| Execute (command : string) (bytes_written : Z)
| Timeout (bytes_written : Z).

(** The ids that the commands got, and the launcher afterwards. *)
Fixpoint run (calls : list Call) (q : t) : list Z * t :=
  match calls with
  | [] => ([], q)
  | Execute command bytes_written :: rest =>
      let (id, q) := execute_command bytes_written command q in
      let (ids, q) := run rest q in
      (id :: ids, q)
  | Timeout bytes_written :: rest => run rest (timeout bytes_written q)
  end.

End QuestRunner.

(** ** The launcher and the console together *)

(** The lines that [std::getline] gives for the characters [input], when
    the input stops there: a line ends at a newline, which is dropped, and
    the characters after the last newline are a last line if there are
    any. *)
Fixpoint getlines_from (line input : string) : list string :=
  match input with
  | EmptyString => if String.eqb line "" then [] else [line]
  | String c rest =>
      if Ascii.eqb c (Ascii.ascii_of_nat 10)
      then line :: getlines_from "" rest
      else getlines_from (line ++ String c "") rest
  end.

Definition getlines : string -> list string := getlines_from "".

(** What the console shows of a history: the messages logged and the
    commands run, in order. *)
Definition console_transcript (h : Trace) : list (string + string) :=
  flat_map
    (fun e =>
       match e with
       | Logger_info message => [inl message]
       | Lua_do_string_with_easy_env command _ _ => [inr command]
       | _ => []
       end)
    h.

(** What the console shows of commands numbered from [id] on. *)
Fixpoint transcript_of (id : Z) (commands : list string)
    (successes : list bool) : list (string + string) :=
  match commands, successes with
  | command :: commands', success :: successes' =>
      [inl ("====== Begin Lua command #" ++ pretty id ++ " ======")%string;
       inr command;
       inl ("====== End Lua command #" ++ pretty id
            ++ (if success then ": success ======" else ": error ======"))%string]
      ++ transcript_of (id + 1) commands' successes'
  | _, _ => []
  end.

(** A command that reaches the console as one line that is not blank. *)
Definition one_line (command : string) : Prop :=
  Forall (fun c => c <> Ascii.ascii_of_nat 10) (list_ascii_of_string command)
  /\ erase_trailing_spaces (String.length command) command <> "".

(** A call whose write is complete, of a command that is one line. *)
Definition goes_through (call : QuestRunner.Call) : Prop :=
  match call with
  | QuestRunner.Execute command bytes_written =>
      one_line command
      /\ bytes_written = Z.of_nat (String.length command) + 1
  | QuestRunner.Timeout bytes_written => bytes_written = 1
  end.

Definition commands_of (calls : list QuestRunner.Call) : list string :=
  flat_map
    (fun call =>
       match call with
       | QuestRunner.Execute command _ => [command]
       | QuestRunner.Timeout _ => []
       end)
    calls.

(** What the calls write, and the lines that this makes. *)
Definition written_by (call : QuestRunner.Call) : string :=
  match call with
  | QuestRunner.Execute command _ => (command ++ newline)%string
  | QuestRunner.Timeout _ => newline
  end.

Definition line_of (call : QuestRunner.Call) : string :=
  match call with
  | QuestRunner.Execute command _ => command
  | QuestRunner.Timeout _ => ""
  end.

(** ** ScopedLuaRef.cpp

    A [ScopedLuaRef] owns a reference of the Lua registry.  The objects are
    kept by address, since an assignment may be given the object it assigns
    to; the registry is common to them. *)

Module ScopedLuaRef.

Definition LUA_REFNIL : Z := -1.
Definition LUA_NOREF : Z := -2.

(** A Lua value other than [nil], and a [lua_State*] other than
    [nullptr]. *)
Definition Value : Type := Z.
Definition lua_State : Type := Z.

(** The auxiliary library of Lua chooses the key of a new reference, given
    the integer keys of the registry that hold a value: those that [luaL_ref]
    gave and [luaL_unref] did not release. *)
Class Auxlib := { luaL_ref_key : gmap Z Value -> Z }.

(** The fields of a [ScopedLuaRef]. *)
Record t := { l : option lua_State; ref : Z }.

Record Lua := { registry : gmap Z Value; objects : gmap Z t }.

Definition with_object (this : Z) (o : t) (s : Lua) : Lua :=
  {| registry := registry s; objects := <[this := o]> (objects s) |}.

Definition with_registry (r : gmap Z Value) (s : Lua) : Lua :=
  {| registry := r; objects := objects s |}.

(** [lua_rawgeti(l, LUA_REGISTRYINDEX, n)]: the value pushed, [None] for
    [nil]. *)
Definition lua_rawgeti (r : gmap Z Value) (n : Z) : option Value := r !! n.

(** [luaL_unref(l, LUA_REGISTRYINDEX, n)]. *)
Definition luaL_unref (n : Z) (r : gmap Z Value) : gmap Z Value :=
  if (n =? LUA_NOREF) || (n =? LUA_REFNIL) then r else delete n r.

Section Registry.

Context {auxlib : Auxlib}.

(** [luaL_ref(l, LUA_REGISTRYINDEX)] with [top] on the stack. *)
Definition luaL_ref (top : option Value) (r : gmap Z Value) : Z * gmap Z Value :=
  match top with
  | None => (LUA_REFNIL, r)
  | Some v => let key := luaL_ref_key r in (key, <[key := v]> r)
  end.

(** The storage of a new object: an address that holds no object. *)
Definition allocate (this : Z) (o : t) (s : Lua) : option Lua :=
  match objects s !! this with
  | Some _ => None
  | None => Some (with_object this o s)
  end.

(** [ScopedLuaRef::ScopedLuaRef()]. *)
Definition construct_empty (this : Z) (s : Lua) : option Lua :=
  allocate this {| l := None; ref := LUA_REFNIL |} s.

(** [ScopedLuaRef::ScopedLuaRef(lua_State* l, int ref)]. *)
Definition construct (b : Debug.Build) (this : Z) (l' : option lua_State)
    (ref' : Z) (s : Lua) : Debug.Checked (option Lua) :=
  Debug.and_then
    (Debug.SOLARUS_ASSERT b (bool_decide (l' <> None)) "Missing Lua state")
    (fun _ => Debug.Ok (allocate this {| l := l'; ref := ref' |} s)).

Definition get_lua_state (o : t) : option lua_State := l o.

Definition is_empty (o : t) : bool :=
  bool_decide (l o = None) || (ref o =? LUA_REFNIL) || (ref o =? LUA_NOREF).

Definition get (o : t) : Z := ref o.

(** [void ScopedLuaRef::clear()]. *)
Definition clear (this : Z) (s : Lua) : option Lua :=
  o ← objects s !! this;
  let r :=
    match l o with
    | Some _ => luaL_unref (ref o) (registry s)
    | None => registry s
    end in
  Some (with_object this {| l := None; ref := LUA_REFNIL |}
          (with_registry r s)).

(** [ScopedLuaRef& ScopedLuaRef::operator=(const ScopedLuaRef& other)].
    [other] is read after [clear()]. *)
Definition assign (this other : Z) (s : Lua) : option Lua :=
  s ← clear this s;
  o ← objects s !! other;
  cleared ← objects s !! this;
  let s := with_object this {| l := l o; ref := ref cleared |} s in
  match l o with
  | Some _ =>
      if (ref o =? LUA_REFNIL) || (ref o =? LUA_NOREF) then
        Some (with_object this {| l := l o; ref := ref o |} s)
      else
        (* Get the value and make another ref of it. *)
        let (key, r) :=
          luaL_ref (lua_rawgeti (registry s) (ref o)) (registry s) in
        Some (with_object this {| l := l o; ref := key |} (with_registry r s))
  | None => Some s
  end.

(** [ScopedLuaRef& ScopedLuaRef::operator=(ScopedLuaRef&& other)]. *)
Definition move_assign (this other : Z) (s : Lua) : option Lua :=
  s ← clear this s;
  o ← objects s !! other;
  let s := with_object this {| l := l o; ref := ref o |} s in
  (* Don't unref from the other one. *)
  Some (with_object other {| l := None; ref := LUA_REFNIL |} s).

(** [ScopedLuaRef::ScopedLuaRef(const ScopedLuaRef& other)]. *)
Definition copy_construct (this other : Z) (s : Lua) : option Lua :=
  o ← objects s !! other;
  s ← allocate this {| l := l o; ref := LUA_REFNIL |} s;
  assign this other s.

(** [ScopedLuaRef::ScopedLuaRef(ScopedLuaRef&& other)]. *)
Definition move_construct (this other : Z) (s : Lua) : option Lua :=
  o ← objects s !! other;
  s ← allocate this {| l := l o; ref := ref o |} s;
  (* Don't unref from the other one. *)
  Some (with_object other {| l := None; ref := LUA_REFNIL |} s).

(** [ScopedLuaRef::~ScopedLuaRef()], and the end of the object. *)
Definition destroy (this : Z) (s : Lua) : option Lua :=
  s ← clear this s;
  Some {| registry := registry s; objects := delete this (objects s) |}.

(** A value is referenced, and the reference given to a new object:
    [ScopedLuaRef(l, luaL_ref(l, LUA_REGISTRYINDEX))]. *)
Definition reference (b : Debug.Build) (this : Z) (l' : lua_State)
    (v : Value) (s : Lua) : option Lua :=
  let (key, r) := luaL_ref (Some v) (registry s) in
  match construct b this (Some l') key (with_registry r s) with
  | Debug.Ok s' => s'
  | Debug.Died _ => None
  end.

(** What a program does with its references. *)
Inductive Op :=
| Reference (this : Z) (l' : lua_State) (v : Value)
| Construct_empty (this : Z)
| Copy_construct (this other : Z)
| Move_construct (this other : Z)
| Assign (this other : Z)
| Move_assign (this other : Z)
| Clear (this : Z)
| Destroy (this : Z).

Definition run (b : Debug.Build) (op : Op) : Lua -> option Lua :=
  match op with
  | Reference this l' v => reference b this l' v
  | Construct_empty this => construct_empty this
  | Copy_construct this other => copy_construct this other
  | Move_construct this other => move_construct this other
  | Assign this other => assign this other
  | Move_assign this other => move_assign this other
  | Clear this => clear this
  | Destroy this => destroy this
  end.

Fixpoint run_all (b : Debug.Build) (ops : list Op) (s : Lua) : option Lua :=
  match ops with
  | [] => Some s
  | op :: ops' => s ← run b op s; run_all b ops' s
  end.

(** [luaL_ref] gives a key that is not in use. *)
Definition fresh_keys : Prop :=
  forall r,
    r !! luaL_ref_key r = None
    /\ luaL_ref_key r <> LUA_REFNIL /\ luaL_ref_key r <> LUA_NOREF.

End Registry.

(** The registry and the objects agree: an object that is not empty holds
    a key of the registry, no two objects hold the same key, and every key
    of the registry is held. *)
Definition sound (s : Lua) : Prop :=
  (forall p o,
     objects s !! p = Some o -> is_empty o = false ->
     is_Some (registry s !! ref o))
  /\ (forall p q o o',
        objects s !! p = Some o -> objects s !! q = Some o' ->
        is_empty o = false -> is_empty o' = false -> ref o = ref o' ->
        p = q)
  /\ (forall key,
        is_Some (registry s !! key) ->
        exists p o,
          objects s !! p = Some o /\ is_empty o = false /\ ref o = key).

(** No object, and an empty registry. *)
Definition nothing : Lua := {| registry := ∅; objects := ∅ |}.

(** The highest key in use, and an auxiliary library that gives the next
    one. *)
Definition highest_key (r : gmap Z Value) : Z :=
  foldr Z.max 0 (map fst (map_to_list r)).

Definition counting : Auxlib :=
  {| luaL_ref_key := fun r => highest_key r + 1 |}.

(** Object 1 holds value 100 of state 7 under key 1. *)
Definition one_reference : Lua :=
  {| registry := {[1 := 100]};
     objects := {[1 := {| l := Some 7; ref := 1 |}]} |}.

End ScopedLuaRef.

(** ** Further benches *)

(** A controller device event, as SDL sends it. *)
Definition cdevice_event (ty which : Z) : SDL_Event :=
  {| type := ty; key_repeat := 0; key_keysym_sym := 0; key_keysym_mod := 0;
     text_text := ""; button_button := 0; button_x := 0; button_y := 0;
     jbutton_button := 0; jhat_hat := 0; jhat_value := 0;
     controller_which := which; caxis_axis := 0; caxis_value := 0;
     cbutton_button := 0; tfinger_fingerId := 0;
     tfinger_x := Float.zero; tfinger_y := Float.zero;
     tfinger_pressure := Float.zero;
     window_event := 0; window_data1 := 0; window_data2 := 0 |}.

(** A game is running, with legacy joypads enabled and two joypads plugged
    in: joypad 30 under id 3 and joypad 50 under id 5. *)
Definition two_joypads : World :=
  {| input :=
       {| sdl_queue := []; initialized := true; legacy_joypad_enabled := true;
          repeat_keyboard := false; keys_pressed := ∅;
          joypads := {[3 := 30; 5 := 50]}; jindex2id := {[0 := 3; 1 := 5]};
          joypad_deadzone := 500; jbuttons_pressed := ∅; quit_combo := ∅ |};
     main_loop := with_game (Some 1) (with_next_game (Some 1) MainLoop_constructed);
     trace := [] |}.

(** The quiet bench, with controls that use the given joypad. *)
Definition controls_bench (joy : option JoypadPtr) : Collaborators :=
  {| Video_output_to_quest_coordinates :=
       @Video_output_to_quest_coordinates quiet_bench;
     Video_get_output_size := @Video_get_output_size quiet_bench;
     Video_get_quest_size := @Video_get_quest_size quiet_bench;
     Video_get_window_size := @Video_get_window_size quiet_bench;
     Video_geometry_mode_is_dynamic :=
       @Video_geometry_mode_is_dynamic quiet_bench;
     Video_get_display_period_ns := @Video_get_display_period_ns quiet_bench;
     System_real_time_ns := @System_real_time_ns quiet_bench;
     System_real_time_ms := @System_real_time_ms quiet_bench;
     SDL_GetMouseState := @SDL_GetMouseState quiet_bench;
     SDL_JoystickInstanceID := @SDL_JoystickInstanceID quiet_bench;
     make_shared_Joypad := @make_shared_Joypad quiet_bench;
     Joypad_get_name := @Joypad_get_name quiet_bench;
     Joypad_computeAxisVal := @Joypad_computeAxisVal quiet_bench;
     on_joypad_axis_moved := @on_joypad_axis_moved quiet_bench;
     on_joypad_button_released := @on_joypad_button_released quiet_bench;
     on_joypad_button_pressed := @on_joypad_button_pressed quiet_bench;
     on_joypad_removed := @on_joypad_removed quiet_bench;
     lua_notify_input := @lua_notify_input quiet_bench;
     do_string_with_easy_env := @do_string_with_easy_env quiet_bench;
     game_notify_input := @game_notify_input quiet_bench;
     Controls_get_joypad := fun _ => joy;
     script_requests := @script_requests quiet_bench |}.

(** A bench whose clock stands at 5.003 s. *)
Definition late_bench : Collaborators :=
  bench (fun _ => 5003000000) 16666666 false false (fun _ => no_request).

(** A frame of [fixed_run] that began at 5 s. *)
Definition begun_at_five_seconds : FixedRun :=
  {| last_frame_date := 5000000000; lag := 0; time_dropped := 0 |}.

(** A launcher whose quest process runs, and what a user may send: two
    commands, the second with trailing spaces, and a tick of the timer in
    between. *)
Definition running_launcher : QuestRunner.t :=
  {| QuestRunner.process_state := QuestRunner.Running;
     QuestRunner.process_stdin :=
       QuestRunner.process_stdin QuestRunner.constructed;
     QuestRunner.last_command_id :=
       QuestRunner.last_command_id QuestRunner.constructed |}.

Definition typed_commands : list QuestRunner.Call :=
  [QuestRunner.Execute "print(1)" 9; QuestRunner.Timeout 1;
   QuestRunner.Execute "x = 2  " 8].

(** * Properties *)

(** ** Machine integers *)

Module IntFacts.
Import Int.

Lemma i64_id z : INT64_MIN <= z <= INT64_MAX -> i64 z = z.
Proof.
  unfold i64, wrap_signed, INT64_MIN, INT64_MAX. intros Hz.
  rewrite Z.mod_small; lia.
Qed.

Lemma u64_id z : 0 <= z < 2 ^ 64 -> u64 z = z.
Proof. unfold u64, wrap_unsigned. intros Hz. now apply Z.mod_small. Qed.

Lemma i32_id z : INT_MIN <= z <= INT_MAX -> i32 z = z.
Proof.
  unfold i32, wrap_signed, INT_MIN, INT_MAX. intros Hz.
  rewrite Z.mod_small; lia.
Qed.

Lemma i64_range z : INT64_MIN <= i64 z <= INT64_MAX.
Proof.
  unfold i64, wrap_signed, INT64_MIN, INT64_MAX.
  pose proof (Z.mod_pos_bound (z + 2 ^ (64 - 1)) (2 ^ 64) ltac:(lia)). lia.
Qed.

(** Unsigned and signed views of the same 64 bits. *)
Lemma i64_u64 z : i64 (u64 z) = i64 z.
Proof.
  unfold i64, u64, wrap_signed, wrap_unsigned. f_equal.
  rewrite Zplus_mod_idemp_l. reflexivity.
Qed.

Lemma u64_i64 z : u64 (i64 z) = u64 z.
Proof.
  unfold i64, u64, wrap_signed, wrap_unsigned.
  rewrite Zminus_mod_idemp_l. f_equal. lia.
Qed.

End IntFacts.

(** ** Input events *)

Section InputEvent_properties.

Context {headers : Headers} {collaborators : Collaborators}.

Lemma is_keyboard_key_pressed_keys_type s e keys :
  is_keyboard_key_pressed_keys s e keys = true ->
  type (internal_event e) = SDL_KEYDOWN.
Proof.
  induction keys as [|key keys IH]; simpl; [discriminate|].
  destruct (negb (KeyboardKey_eqb key KeyboardKey.NONE)); [|discriminate].
  destruct (is_keyboard_key_pressed_key s e key) eqn:Hkey; [|exact IH].
  intros _. unfold is_keyboard_key_pressed_key, is_keyboard_key_pressed in Hkey.
  apply andb_true_iff in Hkey as [Hkey _].
  apply andb_true_iff in Hkey as [Hkey _].
  now apply Z.eqb_eq in Hkey.
Qed.

(** C10.  Hat events are deprecated: [is_joypad_hat_moved] is false for every
    event, so [get_joypad_hat] and [get_joypad_hat_direction] are -1,
    [is_joypad_hat_centered] is false, and [get_direction] never takes its
    hat branch: it is -1 whenever neither a direction key is pressed nor an
    axis is off centre, in particular for every raw hat motion event. *)
Theorem hat_events_are_deprecated (s : InputStatics) (e : InputEvent) :
  is_joypad_hat_moved e = false
  /\ get_joypad_hat e = -1
  /\ get_joypad_hat_direction e = -1
  /\ is_joypad_hat_centered e = false
  /\ (is_keyboard_direction_key_pressed s e = false ->
      is_joypad_axis_moved e && negb (is_joypad_axis_centered s e) = false ->
      get_direction s e = -1)
  /\ (type (internal_event e) = SDL_JOYHATMOTION -> get_direction s e = -1).
Proof.
  repeat split; try reflexivity.
  - intros Hkey Haxis. unfold get_direction. now rewrite Hkey, Haxis.
  - intros Hty. unfold get_direction.
    destruct (is_keyboard_direction_key_pressed s e) eqn:Hkey.
    + apply is_keyboard_key_pressed_keys_type in Hkey.
      rewrite Hty in Hkey. discriminate.
    + unfold is_joypad_axis_moved. rewrite Hty. reflexivity.
Qed.

End InputEvent_properties.

(** A hat pushed up gives no direction. *)
Lemma hat_events_are_deprecated_witness :
  get_direction (headers := SDL2_headers) InputEvent_statics
    {| internal_event := SDL.jhat_event 0 SDL_HAT_UP |} = -1.
Proof.
  apply (hat_events_are_deprecated (headers := SDL2_headers)).
  reflexivity.
Defined.

Section Accessor_properties.

Context {headers : Headers} {collaborators : Collaborators}.


End Accessor_properties.



Section Axis_properties.

(** C3.  For a joypad axis event of raw value [v]: the state is 0.0 when
    [|v|] is below the deadzone; otherwise it is the double [v / 32767] when
    [v] is positive and [v / 32768] when it is negative.  With the default
    deadzone of 500, raw 0 and raw 499 give 0.0, raw 500 gives a state above
    0, raw 32767 gives exactly 1.0 and raw -32768 exactly -1.0. *)
Theorem joypad_axis_state_law (s : InputStatics) (e : InputEvent) :
  let v := caxis_value (internal_event e) in
  is_joypad_axis_moved e = true ->
  (Z.abs v < joypad_deadzone s -> get_joypad_axis_state s e = Float.zero)
  /\ (joypad_deadzone s <= Z.abs v -> 0 < v ->
      get_joypad_axis_state s e
      = Float.Double.div (Float.Double.of_int v) (Float.Double.of_int 32767))
  /\ (joypad_deadzone s <= Z.abs v -> v < 0 ->
      get_joypad_axis_state s e
      = Float.Double.div (Float.Double.of_int v) (Float.Double.of_int 32768))
  /\ (joypad_deadzone s = 500 ->
      (v = 0 -> get_joypad_axis_state s e = Float.zero)
      /\ (v = 499 -> get_joypad_axis_state s e = Float.zero)
      /\ (v = 500 ->
          Float.ltb Float.zero (get_joypad_axis_state s e) = true)
      /\ (v = 32767 -> get_joypad_axis_state s e = Float.Double.one)
      /\ (v = -32768 -> get_joypad_axis_state s e = Float.Double.minus_one)).
Proof.
  intros v Hmoved. unfold get_joypad_axis_state. rewrite Hmoved. simpl.
  fold v. split; [|split; [|split]].
  - intros Hdead. apply Z.ltb_lt in Hdead. now rewrite Hdead.
  - intros Hdead Hpos. apply Z.ltb_ge in Hdead. rewrite Hdead.
    apply Z.gtb_lt in Hpos. now rewrite Hpos.
  - intros Hdead Hneg. apply Z.ltb_ge in Hdead. rewrite Hdead.
    destruct (v >? 0) eqn:Hpos; [apply Z.gtb_lt in Hpos; lia | reflexivity].
  - intros ->. repeat apply conj; intros ->; vm_compute; reflexivity.
Qed.

End Axis_properties.

(** The stick pushed fully to the right, with the default deadzone. *)
Lemma joypad_axis_state_law_witness :
  get_joypad_axis_state InputEvent_statics
    {| internal_event := SDL.caxis_event 0 0 32767 |}
  = Float.Double.one.
Proof.
  apply (joypad_axis_state_law InputEvent_statics
           {| internal_event := SDL.caxis_event 0 0 32767 |});
    reflexivity.
Defined.

(** ** The pressed keys and buttons *)

Section Pressed_sets.

Context {collaborators : Collaborators}.

Ltac by_event_type ev c :=
  let E := fresh "Htype" in
  destruct (Z.eqb_spec (type ev) c) as [E|E]; [rewrite ?E|].

Lemma get_event_some w ev q :
  sdl_queue (input w) = ev :: q ->
  exists e' w',
    get_event w = Return (Some e') w'
    /\ internal_event e'
       = (if repeat_forced ev (keys_pressed (input w))
          then SDL.set_key_repeat 1 ev else ev)
    /\ keys_pressed (input w') = keys_after ev (keys_pressed (input w))
    /\ jbuttons_pressed (input w') = jbuttons_after ev (jbuttons_pressed (input w))
    /\ sdl_queue (input w')
       = queue_after ev (jbuttons_pressed (input w)) (quit_combo (input w)) q
    /\ quit_combo (input w') = quit_combo (input w)
    /\ main_loop w' = main_loop w.
Proof.
  intros Hq. unfold get_event, SDL_PollEvent, bind, get_input. rewrite Hq.
  unfold get_event_switch, keys_after, jbuttons_after, queue_after,
    repeat_forced.
  cbn -[Z.eqb].
  by_event_type ev SDL_KEYDOWN.
  { cbn. destruct (bool_decide _); cbn; eauto 10. }
  by_event_type ev SDL_KEYUP.
  { cbn. destruct (bool_decide _); cbn; eauto 10. }
  by_event_type ev SDL_JOYBUTTONDOWN.
  { cbn. destruct (bool_decide _); cbn; eauto 10. }
  by_event_type ev SDL_JOYBUTTONUP.
  { cbn. eauto 10. }
  by_event_type ev SDL_MOUSEBUTTONDOWN.
  { cbn. eauto 10. }
  by_event_type ev SDL_MOUSEBUTTONUP.
  { cbn. destruct (_ =? 0); cbn; eauto 10. }
  cbn. eauto 10.
Qed.

Lemma get_event_none w :
  sdl_queue (input w) = [] -> get_event w = Return None w.
Proof.
  intros Hq. unfold get_event, SDL_PollEvent, bind, get_input.
  now rewrite Hq.
Qed.

Lemma pending_bound_after ev buttons combo q :
  (S (pending_bound (queue_after ev buttons combo q))
   <= pending_bound (ev :: q))%nat.
Proof.
  unfold pending_bound, queue_after. cbn [List.filter length].
  destruct (type ev =? SDL_JOYBUTTONDOWN); cbn [andb].
  - destruct (bool_decide _).
    + rewrite List.filter_app, !length_app. cbn. lia.
    + cbn [length]. lia.
  - lia.
Qed.

Lemma track_keys_app raw raw' keys :
  track_keys (raw ++ raw') keys = track_keys raw' (track_keys raw keys).
Proof. apply fold_left_app. Qed.

Lemma track_keys_after ev buttons combo q keys :
  track_keys (queue_after ev buttons combo q) keys = track_keys q keys.
Proof.
  unfold queue_after. destruct (_ && _); [|reflexivity].
  rewrite track_keys_app. reflexivity.
Qed.

Lemma has_quit_after ev buttons combo q :
  (exists x, x ∈ q /\ type x = SDL_QUIT) ->
  exists x, x ∈ queue_after ev buttons combo q /\ type x = SDL_QUIT.
Proof.
  intros (x & Hx & Hty). exists x. split; [|exact Hty].
  unfold queue_after. destruct (_ && _); [|exact Hx].
  apply elem_of_app. now left.
Qed.

(** Polling to the end empties the queue, leaves in the pressed keys what
    the raw events leave there, and returns every window closing event. *)
Lemma get_events_drains fuel : forall w,
  (pending_bound (sdl_queue (input w)) <= fuel)%nat ->
  exists events w',
    get_events fuel w = Return events w'
    /\ sdl_queue (input w') = []
    /\ keys_pressed (input w')
       = track_keys (sdl_queue (input w)) (keys_pressed (input w))
    /\ ((exists x, x ∈ sdl_queue (input w) /\ type x = SDL_QUIT) ->
        exists e, e ∈ events /\ is_window_closing e = true).
Proof.
  induction fuel as [|fuel IH]; intros w Hfuel.
  - unfold pending_bound in Hfuel. lia.
  - destruct (sdl_queue (input w)) as [|ev q] eqn:Hq.
    + exists [], w. cbn. unfold bind. rewrite (get_event_none w Hq).
      repeat split; try assumption.
      intros (x & Hx & _). now apply elem_of_nil in Hx.
    + destruct (get_event_some w ev q Hq)
        as (e' & w1 & Hget & He' & Hkeys & _ & Hqueue & _ & _).
      destruct (IH w1) as (events & w' & Hrest & Hempty & Hkeys' & Hquit).
      { rewrite Hqueue.
        pose proof (pending_bound_after ev (jbuttons_pressed (input w))
                      (quit_combo (input w)) q). lia. }
      exists (e' :: events), w'. cbn. unfold bind. rewrite Hget, Hrest.
      repeat split; try assumption.
      * rewrite Hkeys', Hqueue, Hkeys, track_keys_after. reflexivity.
      * intros (x & Hx & Hty). apply elem_of_cons in Hx as [->|Hx].
        -- exists e'. split; [apply elem_of_cons; now left|].
           unfold is_window_closing. rewrite He'.
           destruct (repeat_forced _ _); cbn; now apply Z.eqb_eq.
        -- destruct Hquit as (e & He & Hclosing).
           { rewrite Hqueue. apply has_quit_after. eauto. }
           exists e. split; [apply elem_of_cons; now right | exact Hclosing].
Qed.

Lemma elem_of_set_insert (x y : Z) (s : gset Z) :
  y ∈ ({[x]} ∪ s : gset Z) <-> x = y \/ y ∈ s.
Proof. rewrite elem_of_union, elem_of_singleton. intuition congruence. Qed.

Lemma elem_of_set_erase (x y : Z) (s : gset Z) :
  y ∈ s ∖ {[x]} <-> y ∈ s /\ x <> y.
Proof.
  rewrite elem_of_difference, elem_of_singleton. intuition congruence.
Qed.

Lemma set_insert_present (key : Z) (keys : gset Z) :
  key ∈ keys -> {[key]} ∪ keys = keys.
Proof.
  intros H. apply set_eq. intros x. rewrite elem_of_set_insert.
  intuition congruence.
Qed.

Lemma set_erase_absent (key : Z) (keys : gset Z) :
  key ∉ keys -> keys ∖ {[key]} = keys.
Proof.
  intros H. apply set_eq. intros x. rewrite elem_of_set_erase.
  intuition congruence.
Qed.

Lemma track_keys_currently_down raw : forall keys key,
  key ∈ track_keys raw keys <-> currently_down keys raw key.
Proof.
  induction raw as [|ev raw IH] using rev_ind; intros keys key.
  - reflexivity.
  - unfold currently_down, last_key_event in *.
    rewrite track_keys_app, fold_left_app. cbn.
    specialize (IH keys key). unfold keys_after.
    destruct (Z.eqb_spec (type ev) SDL_KEYDOWN) as [Hdown|Hdown].
    + rewrite elem_of_set_insert.
      destruct (Z.eqb_spec (key_keysym_sym ev) key) as [Hkey|Hkey]; cbn.
      * intuition.
      * rewrite Hdown. cbn. rewrite <- IH. intuition.
    + destruct (Z.eqb_spec (type ev) SDL_KEYUP) as [Hup|Hup]; cbn.
      * rewrite elem_of_set_erase.
        destruct (Z.eqb_spec (key_keysym_sym ev) key) as [Hkey|Hkey]; cbn.
        -- intuition discriminate.
        -- rewrite <- IH. intuition.
      * exact IH.
Qed.

(** C4.  A key-down for a key already in the pressed set leaves the set as
    it is and forces the repeat flag of the event produced; a key-down for an
    absent key inserts it; a key-up for a key that is not in the set leaves
    the set as it is and forces the repeat flag; a key-up for a present key
    erases it.  So, once the pending raw events are all processed, the
    pressed set holds exactly the keys currently down. *)
Theorem pressed_keys_follow_raw_events (w : World) :
  (forall ev q,
     sdl_queue (input w) = ev :: q ->
     let key := key_keysym_sym ev in
     let keys := keys_pressed (input w) in
     exists e' w',
       get_event w = Return (Some e') w'
       /\ (type ev = SDL_KEYDOWN -> key ∈ keys ->
           keys_pressed (input w') = keys
           /\ internal_event e' = SDL.set_key_repeat 1 ev
           /\ key_repeat (internal_event e') = 1)
       /\ (type ev = SDL_KEYDOWN -> key ∉ keys ->
           keys_pressed (input w') = {[key]} ∪ keys
           /\ internal_event e' = ev)
       /\ (type ev = SDL_KEYUP -> key ∉ keys ->
           keys_pressed (input w') = keys
           /\ internal_event e' = SDL.set_key_repeat 1 ev
           /\ key_repeat (internal_event e') = 1)
       /\ (type ev = SDL_KEYUP -> key ∈ keys ->
           keys_pressed (input w') = keys ∖ {[key]}
           /\ internal_event e' = ev))
  /\ (exists events w',
        get_events (pending_bound (sdl_queue (input w))) w = Return events w'
        /\ sdl_queue (input w') = []
        /\ forall key,
             key ∈ keys_pressed (input w')
             <-> currently_down (keys_pressed (input w))
                   (sdl_queue (input w)) key).
Proof.
  split.
  - intros ev q Hq key keys.
    destruct (get_event_some w ev q Hq)
      as (e' & w' & Hget & He' & Hkeys & _).
    exists e', w'. split; [exact Hget|].
    unfold repeat_forced in He'. unfold keys_after in Hkeys.
    fold key keys in He', Hkeys.
    repeat apply conj; intros Hty Hkey; rewrite Hty in He', Hkeys;
      cbn in He', Hkeys.
    + rewrite (bool_decide_eq_true_2 _ Hkey) in He'. cbn in He'.
      rewrite He', Hkeys. repeat split. now apply set_insert_present.
    + rewrite (bool_decide_eq_false_2 _ Hkey) in He'. cbn in He'.
      now rewrite He', Hkeys.
    + rewrite (bool_decide_eq_false_2 _ Hkey) in He'. cbn in He'.
      rewrite He', Hkeys. repeat split. now apply set_erase_absent.
    + rewrite (bool_decide_eq_true_2 _ Hkey) in He'. cbn in He'.
      now rewrite He', Hkeys.
  - destruct (get_events_drains (pending_bound (sdl_queue (input w))) w)
      as (events & w' & Hget & Hempty & Hkeys & _); [reflexivity|].
    exists events, w'. repeat split; try assumption.
    + rewrite Hkeys. apply track_keys_currently_down.
    + rewrite Hkeys. apply track_keys_currently_down.
Qed.

(** C5.  A joypad-button-down inserts the button in the pressed set and is
    itself the event returned; exactly when the set then equals the quit
    combo, a window closing event is pushed at the back of the raw queue,
    and polling on returns it; otherwise nothing is pushed.  A
    joypad-button-up erases the button. *)
Theorem quit_combo_pushes_window_closing (w : World) (ev : SDL_Event)
    (q : list SDL_Event) :
  sdl_queue (input w) = ev :: q ->
  let button := jbutton_button ev in
  let pressed := jbuttons_pressed (input w) in
  let combo := quit_combo (input w) in
  (type ev = SDL_JOYBUTTONDOWN ->
   exists w',
     get_event w = Return (Some {| internal_event := ev |}) w'
     /\ is_window_closing {| internal_event := ev |} = false
     /\ jbuttons_pressed (input w') = {[button]} ∪ pressed
     /\ ({[button]} ∪ pressed = combo ->
         sdl_queue (input w') = q ++ [SDL.blank SDL_QUIT]
         /\ exists events w'',
              get_events (pending_bound (sdl_queue (input w'))) w'
              = Return events w''
              /\ exists e, e ∈ events /\ is_window_closing e = true)
     /\ ({[button]} ∪ pressed <> combo -> sdl_queue (input w') = q))
  /\ (type ev = SDL_JOYBUTTONUP ->
      exists w',
        get_event w = Return (Some {| internal_event := ev |}) w'
        /\ jbuttons_pressed (input w') = pressed ∖ {[button]}
        /\ sdl_queue (input w') = q).
Proof.
  intros Hq button pressed combo.
  destruct (get_event_some w ev q Hq)
    as (e' & w' & Hget & He' & _ & Hbuttons & Hqueue & _).
  unfold repeat_forced in He'.
  unfold jbuttons_after in Hbuttons. unfold queue_after in Hqueue.
  fold button pressed combo in Hbuttons, Hqueue.
  split; intros Hty; rewrite Hty in He', Hbuttons, Hqueue;
    cbn in He', Hbuttons, Hqueue; destruct e' as [ev']; cbn in He'; subst ev';
    exists w'; (split; [exact Hget|]).
  - split; [unfold is_window_closing; cbn; now rewrite Hty|].
    split; [exact Hbuttons|]. split.
    + intros Hcombo. rewrite (bool_decide_eq_true_2 _ Hcombo) in Hqueue.
      split; [exact Hqueue|].
      destruct (get_events_drains (pending_bound (sdl_queue (input w'))) w')
        as (events & w'' & Hrest & _ & _ & Hquit); [reflexivity|].
      exists events, w''. split; [exact Hrest|]. apply Hquit.
      exists (SDL.blank SDL_QUIT). split; [|reflexivity].
      rewrite Hqueue. apply elem_of_app. right. apply list_elem_of_singleton.
      reflexivity.
    + intros Hcombo. now rewrite (bool_decide_eq_false_2 _ Hcombo) in Hqueue.
  - split; [exact Hbuttons | exact Hqueue].
Qed.

End Pressed_sets.

(** Key 97 was down; the queue holds a second press of 97, its release, a
    press of 98 and a stray release of 99.  At the end 98 is down, 97 and 99
    are not. *)
Lemma pressed_keys_follow_raw_events_witness :
  let raw := [SDL.key_event SDL_KEYDOWN 97; SDL.key_event SDL_KEYUP 97;
              SDL.key_event SDL_KEYDOWN 98; SDL.key_event SDL_KEYUP 99] in
  let w := bench_world raw {[97]} ∅ ∅ in
  exists events w',
    get_events (collaborators := quiet_bench) (pending_bound raw) w
    = Return events w'
    /\ 98 ∈ keys_pressed (input w')
    /\ (97 ∉ keys_pressed (input w'))
    /\ (99 ∉ keys_pressed (input w')).
Proof.
  intros raw w.
  destruct (pressed_keys_follow_raw_events (collaborators := quiet_bench) w)
    as [_ (events & w' & Hget & _ & Hkeys)].
  exists events, w'. split; [exact Hget|].
  rewrite !Hkeys. unfold currently_down. cbn.
  split; [reflexivity|]. split; [discriminate|]. discriminate.
Defined.

(** Button 4 is held and the quit combo is 4+6: pressing 6 returns the
    button event and leaves a window closing event in the queue. *)
Lemma quit_combo_pushes_window_closing_witness :
  let ev := SDL.jbutton_event SDL_JOYBUTTONDOWN 6 in
  let w := bench_world [ev] ∅ {[4]} ({[6]} ∪ {[4]}) in
  exists w',
    get_event (collaborators := quiet_bench) w
    = Return (Some {| internal_event := ev |}) w'
    /\ sdl_queue (input w') = [SDL.blank SDL_QUIT].
Proof.
  intros ev w.
  destruct (quit_combo_pushes_window_closing (collaborators := quiet_bench)
              w ev [] eq_refl) as [Hdown _].
  destruct (Hdown eq_refl) as (w' & Hget & _ & _ & Hcombo & _).
  exists w'. split; [exact Hget|].
  destruct (Hcombo eq_refl) as [Hqueue _]. exact Hqueue.
Defined.

(** ** Reasoning about computations *)

#[global] Instance same_preorder {S T} (f : S -> T) : PreOrder (same f).
Proof. split; [intros x; reflexivity | intros x y z Hxy Hyz; unfold same in *; congruence]. Qed.
#[global] Instance any_preorder {S} : PreOrder (@any S).
Proof. split; [intros x; exact I | intros x y z _ _; exact I]. Qed.
#[global] Instance stays_exiting_preorder : PreOrder stays_exiting.
Proof. split; [intros x H; exact H | intros x y z Hxy Hyz H; auto]. Qed.

Lemma adds_refl P h : adds P h h.
Proof. exists []. split; [now rewrite app_nil_r | constructor]. Qed.

Lemma adds_trans P h1 h2 h3 : adds P h1 h2 -> adds P h2 h3 -> adds P h1 h3.
Proof.
  intros (n1 & -> & H1) (n2 & -> & H2). exists (n1 ++ n2).
  split; [now rewrite app_assoc | now apply Forall_app].
Qed.

Lemma adds_one (P : Effect -> Prop) h e : P e -> adds P h (h ++ [e]).
Proof. intros He. exists [e]. split; [reflexivity | now repeat constructor]. Qed.

#[global] Instance evolves_preorder P K J `{!PreOrder K, !PreOrder J} :
  PreOrder (evolves P K J).
Proof.
  split.
  - intros w. repeat split; [apply adds_refl | reflexivity | reflexivity].
  - intros w1 w2 w3 (Ht & Hk & Hj) (Ht' & Hk' & Hj'). repeat split.
    + eapply adds_trans; eassumption.
    + etransitivity; eassumption.
    + etransitivity; eassumption.
Qed.

Lemma post_ret {A} (a : A) w (Q : A -> World -> Prop) : Q a w -> post (ret a) w Q.
Proof. intros H. now exists a, w. Qed.
Lemma post_bind {A B} (m : M A) (k : A -> M B) w (Q : B -> World -> Prop) :
  post m w (fun a w' => post (k a) w' Q) -> post (bind m k) w Q.
Proof.
  intros (a & w1 & Hrun & b & w2 & Hrun' & HQ). exists b, w2.
  unfold bind. now rewrite Hrun, Hrun'.
Qed.
Lemma post_weaken {A} (m : M A) w (Q Q' : A -> World -> Prop) :
  post m w Q -> (forall a w', Q a w' -> Q' a w') -> post m w Q'.
Proof. intros (a & w' & Hrun & HQ) Himp. exists a, w'. auto. Qed.
Lemma post_sure {A} (R : relation World) (m : M A) w :
  sure R m -> post m w (fun _ w' => R w w').
Proof. intros Hm. destruct (Hm w) as (a & w' & Hrun & HR). now exists a, w'. Qed.
Section Evolution.

Context {R : relation World} `{!PreOrder R}.

Lemma sure_ret {A} (a : A) : sure R (ret a).
Proof. intros w. exists a, w. split; reflexivity. Qed.

Lemma sure_bind {A B} (m : M A) (k : A -> M B) :
  sure R m -> (forall a, sure R (k a)) -> sure R (bind m k).
Proof.
  intros Hm Hk w. destruct (Hm w) as (a & w1 & Hrun & Hr).
  destruct (Hk a w1) as (b & w2 & Hrun' & Hr').
  exists b, w2. unfold bind. rewrite Hrun, Hrun'.
  split; [reflexivity | etransitivity; eassumption].
Qed.

Lemma sure_get_main_loop : sure R get_main_loop.
Proof. intros w. exists (main_loop w), w. split; reflexivity. Qed.

Lemma sure_get_input : sure R get_input.
Proof. intros w. exists (input w), w. split; reflexivity. Qed.

Lemma sure_history : sure R history.
Proof. intros w. exists (trace w), w. split; reflexivity. Qed.

Lemma sure_when b m : sure R m -> sure R (when b m).
Proof. intros Hm. destruct b; [exact Hm | apply sure_ret]. Qed.

Lemma respects_sure {A} (m : M A) : sure R m -> respects R m.
Proof. intros Hm w. destruct (Hm w) as (a & w' & -> & Hr). exact Hr. Qed.

Lemma respects_bind {A B} (m : M A) (k : A -> M B) :
  respects R m -> (forall a, respects R (k a)) -> respects R (bind m k).
Proof.
  intros Hm Hk w. specialize (Hm w). unfold bind.
  destruct (m w) as [a w1|what w1]; cbn in *; [|exact Hm].
  etransitivity; [exact Hm | apply Hk].
Qed.

Lemma respects_throw {A} what : respects R (@throw A what).
Proof. intros w. reflexivity. Qed.

End Evolution.

Section Evolves.

Context {collaborators : Collaborators}.
Context {P : Effect -> Prop} {K : relation MainLoop} {J : relation InputStatics}.
Context `{!PreOrder K, !PreOrder J}.

Lemma sure_emit e : P e -> sure (evolves P K J) (emit e).
Proof.
  intros He w. eexists tt, _. split; [reflexivity|].
  repeat split; cbn; [now apply adds_one | reflexivity | reflexivity].
Qed.

Lemma sure_modify_main_loop f :
  (forall m, K m (f m)) -> sure (evolves P K J) (modify_main_loop f).
Proof.
  intros Hf w. eexists tt, _. split; [reflexivity|].
  repeat split; cbn; [apply adds_refl | apply Hf | reflexivity].
Qed.

Lemma sure_modify_input f :
  (forall s, J s (f s)) -> sure (evolves P K J) (modify_input f).
Proof.
  intros Hf w. eexists tt, _. split; [reflexivity|].
  repeat split; cbn; [apply adds_refl | reflexivity | apply Hf].
Qed.

Lemma scripts_eq w :
  scripts w
  = Return tt (with_main_loop (requested (script_requests (trace w))) w).
Proof.
  destruct w as [s m h]. unfold scripts, requested, bind, history, when,
    set_exiting, set_suspended, set_game, modify_main_loop, get_main_loop,
    with_main_loop, ret.
  cbn. destruct (script_requests h) as [ex su ga]. cbn.
  destruct ex, su as [[]|], ga, (suspended m) eqn:Hs; cbn; rewrite ?Hs; cbn;
    reflexivity.
Qed.

Lemma sure_scripts :
  (forall h m, K m (requested (script_requests h) m)) ->
  sure (evolves P K J) scripts.
Proof.
  intros Hk w. eexists tt, _. split; [apply scripts_eq|].
  repeat split; cbn; [apply adds_refl | apply Hk | reflexivity].
Qed.

End Evolves.

Section Post_primitives.

Context {collaborators : Collaborators}.

Lemma post_emit e w (Q : unit -> World -> Prop) :
  Q tt (with_trace (fun h => h ++ [e]) w) -> post (emit e) w Q.
Proof. intros H. now eexists tt, _. Qed.
Lemma post_history w (Q : Trace -> World -> Prop) :
  Q (trace w) w -> post history w Q.
Proof. intros H. now eexists _, _. Qed.
Lemma post_get_main_loop w (Q : MainLoop -> World -> Prop) :
  Q (main_loop w) w -> post get_main_loop w Q.
Proof. intros H. now eexists _, _. Qed.
Lemma post_get_input w (Q : InputStatics -> World -> Prop) :
  Q (input w) w -> post get_input w Q.
Proof. intros H. now eexists _, _. Qed.
Lemma post_modify_main_loop f w (Q : unit -> World -> Prop) :
  Q tt (with_main_loop f w) -> post (modify_main_loop f) w Q.
Proof. intros H. now eexists tt, _. Qed.
Lemma post_modify_input f w (Q : unit -> World -> Prop) :
  Q tt (with_input f w) -> post (modify_input f) w Q.
Proof. intros H. now eexists tt, _. Qed.
Lemma post_scripts w (Q : unit -> World -> Prop) :
  Q tt (with_main_loop (requested (script_requests (trace w))) w) ->
  post scripts w Q.
Proof. intros H. eexists tt, _. split; [apply scripts_eq | exact H]. Qed.

End Post_primitives.

Ltac post_step :=
  lazymatch goal with
  | |- post (bind _ _) _ _ => apply post_bind
  | |- post (ret _) _ _ => apply post_ret
  | |- post (emit _) _ _ => apply post_emit
  | |- post history _ _ => apply post_history
  | |- post get_main_loop _ _ => apply post_get_main_loop
  | |- post get_input _ _ => apply post_get_input
  | |- post (modify_main_loop _) _ _ => apply post_modify_main_loop
  | |- post (modify_input _) _ _ => apply post_modify_input
  | |- post scripts _ _ => apply post_scripts
  | |- post (when ?b _) _ _ => unfold when
  end.

Ltac post_simpl :=
  cbn [trace main_loop input with_trace with_main_loop with_input
       negb andb orb].

Ltac post_run := post_simpl; repeat (post_step; post_simpl).

Ltac head_of m :=
  lazymatch m with
  | ?f _ => head_of f
  | _ => m
  end.

Ltac sure_step :=
  lazymatch goal with
  | |- sure _ (bind _ _) => apply sure_bind; [|intros ?]
  | |- sure _ (ret _) => apply sure_ret
  | |- sure _ get_main_loop => apply sure_get_main_loop
  | |- sure _ get_input => apply sure_get_input
  | |- sure _ history => apply sure_history
  | |- sure _ (when _ _) => apply sure_when
  | |- sure _ (emit _) => apply sure_emit; try exact I
  | |- sure _ (modify_main_loop _) => apply sure_modify_main_loop
  | |- sure _ (modify_input _) => apply sure_modify_input
  | |- sure _ scripts => apply sure_scripts
  | |- sure _ (if ?b then _ else _) => destruct b
  | |- sure _ (match ?x with _ => _ end) => destruct x
  | |- sure _ ?m => let h := head_of m in unfold h
  end.

Ltac respects_step :=
  lazymatch goal with
  | |- respects _ (bind _ _) => apply respects_bind; [|intros ?]
  | |- respects _ (throw _) => apply respects_throw
  | |- respects _ (if ?b then _ else _) => destruct b
  | |- respects _ (match ?x with _ => _ end) => destruct x
  | |- respects _ (joypads_at _) => unfold joypads_at
  | |- respects _ (notify_joypad _) => unfold notify_joypad
  | |- respects _ _ => apply respects_sure
  end.

Ltac evolve := repeat first [respects_step | sure_step].

(** ** Dispatch of an input event *)

Section Dispatch.

Context {headers : Headers} {collaborators : Collaborators}.

Lemma requested_game r m : game (requested r m) = game m.
Proof.
  unfold requested. destruct r as [[] [b|] [g|]]; cbn;
    try destruct (negb _); reflexivity.
Qed.

Lemma requested_exiting r m :
  exiting m = true -> exiting (requested r m) = true.
Proof.
  unfold requested. destruct r as [[] [b|] [g|]]; cbn;
    try destruct (negb _); cbn; auto.
Qed.






Lemma requested_root_surface r m :
  root_surface (requested r m) = root_surface m.
Proof.
  unfold requested. destruct r as [[] [b|] [g|]]; cbn;
    try destruct (negb _); reflexivity.
Qed.

Lemma forward_trace event handled w :
  post (notify_input_forward event handled) w
    (fun _ w' =>
       exists lua_handled game_handled,
         trace w'
         = trace w ++ forwarded event handled
                        (bool_decide (game (main_loop w) <> None))
                        lua_handled game_handled
         /\ root_surface (main_loop w') = root_surface (main_loop w)
         /\ (exiting (main_loop w) = true -> exiting (main_loop w') = true)).
Proof.
  unfold notify_input_forward, forwarded.
  destruct handled; cbn [negb].
  - post_run. exists false, false. rewrite app_nil_r. auto.
  - post_run. rewrite requested_game.
    destruct (lua_notify_input (trace w) event) eqn:Hlua; cbn [negb andb].
    + post_run. exists true, false.
      rewrite requested_root_surface. split; [reflexivity|].
      split; [reflexivity|]. apply requested_exiting.
    + destruct (bool_decide (game (main_loop w) <> None)) eqn:Hgame.
      * post_run.
        match goal with |- context [game_notify_input ?h event] =>
          destruct (game_notify_input h event) eqn:Hg end; cbn [negb].
        -- post_run. exists false, true.
           rewrite !requested_root_surface, <- !app_assoc.
           split; [reflexivity|]. split; [reflexivity|].
           intros Hex. now do 2 apply requested_exiting.
        -- post_run. exists false, false.
           rewrite !requested_root_surface, <- !app_assoc.
           split; [reflexivity|]. split; [reflexivity|].
           intros Hex. now do 3 apply requested_exiting.
      * post_run. exists false, false.
        rewrite !requested_root_surface, <- !app_assoc.
        split; [reflexivity|]. split; [reflexivity|].
        intros Hex. now do 2 apply requested_exiting.
Qed.







End Dispatch.

(** ** The Lua console *)

Section Console.

Context {collaborators : Collaborators}.

Lemma i32_add_idem x y : Int.i32 (Int.i32 x + y) = Int.i32 (x + y).
Proof.
  unfold Int.i32, Int.wrap_signed. f_equal.
  replace ((x + 2 ^ (32 - 1)) mod 2 ^ 32 - 2 ^ (32 - 1) + y + 2 ^ (32 - 1))
    with ((x + 2 ^ (32 - 1)) mod 2 ^ 32 + y) by lia.
  rewrite Zplus_mod_idemp_l. f_equal. lia.
Qed.

Lemma requested_console r m : console (requested r m) = console m.
Proof.
  unfold requested, console. destruct r as [[] [b|] [g|]]; cbn;
    try destruct (negb _); reflexivity.
Qed.

Ltac console_side :=
  try exact I;
  try (intros; exact I);
  try (intros; apply requested_console);
  try (intros; reflexivity).

Lemma get_event_input_only :
  sure (evolves input_effect (same console) any) get_event.
Proof.
  unfold get_event, SDL_PollEvent, get_event_switch, simulate_window_closing,
    SDL_PushEvent.
  evolve; console_side.
Qed.

Lemma notify_input_input_only event :
  respects (evolves input_effect (same console) any) (notify_input event).
Proof.
  unfold notify_input, notify_input_chain, notify_input_forward.
  evolve; console_side.
Qed.

Lemma check_sdl_events_input_only fuel :
  respects (evolves input_effect (same console) any) (check_sdl_events fuel).
Proof.
  induction fuel as [|fuel IH]; cbn [check_sdl_events].
  - apply respects_sure, sure_ret.
  - apply respects_bind; [apply respects_sure, get_event_input_only|].
    intros [event|]; [|apply respects_sure, sure_ret].
    apply respects_bind; [apply notify_input_input_only | intros _; exact IH].
Qed.

Lemma count_up_S n done : count_up (S n) done = count_up n (Int.i32 (done + 1)).
Proof. unfold count_up. now rewrite Nat.iter_succ_r. Qed.

Lemma count_up_i32 n done :
  (0 < n)%nat -> count_up n done = Int.i32 (done + Z.of_nat n).
Proof.
  revert done. induction n as [|n IH]; intros done Hn; [lia|].
  rewrite count_up_S. destruct n as [|n].
  - reflexivity.
  - rewrite IH by lia. rewrite i32_add_idem. f_equal. lia.
Qed.

Lemma requested_lua_commands r m :
  lua_commands (requested r m) = lua_commands m.
Proof. pose proof (requested_console r m) as H. now injection H. Qed.

Lemma requested_num_lua_commands_done r m :
  num_lua_commands_done (requested r m) = num_lua_commands_done m.
Proof. pose proof (requested_console r m) as H. now injection H. Qed.

Lemma run_lua_commands_post commands : forall w,
  post (run_lua_commands commands) w
    (fun _ w' =>
       exists during,
         trace w' = trace w ++ during
         /\ Forall command_effect during
         /\ executed during = commands
         /\ input w' = input w
         /\ lua_commands (main_loop w') = lua_commands (main_loop w)
         /\ num_lua_commands_done (main_loop w')
            = count_up (length commands) (num_lua_commands_done (main_loop w))).
Proof.
  induction commands as [|command commands IH]; intros w;
    cbn [run_lua_commands].
  - post_run. exists []. rewrite app_nil_r. repeat split; auto.
  - post_run.
    eapply post_weaken; [apply IH|]. clear IH.
    intros [] w' (during & Htrace & Hall & Hexec & Hinput & Hcmds & Hdone).
    cbn [trace main_loop input with_trace with_main_loop lua_commands
         num_lua_commands_done with_num_lua_commands_done] in *.
    rewrite requested_lua_commands in Hcmds.
    rewrite requested_num_lua_commands_done in Hdone, Htrace.
    eexists. rewrite Htrace, <- !app_assoc. cbn [app].
    split; [reflexivity|].
    split; [repeat (constructor; [exact I|]); exact Hall|].
    split; [unfold executed in *; cbn [flat_map app]; now rewrite Hexec|].
    split; [exact Hinput|].
    split; [exact Hcmds|].
    cbn [length]. rewrite count_up_S. exact Hdone.
Qed.

Lemma push_lua_command_post command w :
  post (push_lua_command command) w
    (fun id w' =>
       id = num_lua_commands_pushed (main_loop w)
       /\ lua_commands (main_loop w') = lua_commands (main_loop w) ++ [command]
       /\ num_lua_commands_pushed (main_loop w')
          = Int.i32 (num_lua_commands_pushed (main_loop w) + 1)
       /\ num_lua_commands_done (main_loop w')
          = num_lua_commands_done (main_loop w)
       /\ lua_console_enabled (main_loop w')
          = lua_console_enabled (main_loop w)
       /\ input w' = input w
       /\ trace w'
          = trace w
            ++ [Mutex_lock; lua_commands_push_back command; Mutex_unlock]).
Proof.
  unfold push_lua_command. post_run. rewrite <- !app_assoc. repeat split.
Qed.

Lemma check_input_post w w1 :
  lua_console_enabled (main_loop w) = true ->
  lua_commands (main_loop w) <> [] ->
  check_sdl_events (pending_bound (sdl_queue (input w))) w = Return tt w1 ->
  exists w' events during,
    check_input w = Return tt w'
    /\ trace w1 = trace w ++ events
    /\ trace w'
       = trace w ++ events
         ++ Mutex_lock :: during ++ [lua_commands_clear; Mutex_unlock]
    /\ Forall input_effect events
    /\ Forall command_effect during
    /\ executed during = lua_commands (main_loop w)
    /\ lua_commands (main_loop w') = []
    /\ num_lua_commands_done (main_loop w')
       = Int.i32 (num_lua_commands_done (main_loop w)
                  + Z.of_nat (length (lua_commands (main_loop w)))).
Proof.
  intros Henabled Hpending Hpolled. unfold check_input.
  unfold bind at 1, get_input. unfold bind at 1.
  pose proof (check_sdl_events_input_only
                (pending_bound (sdl_queue (input w))) w) as Hsdl.
  rewrite Hpolled in Hsdl |- *. cbn [world_of] in Hsdl.
  destruct Hsdl as ((events & Hevents & Hinput) & Hconsole & _).
  unfold same, console in Hconsole.
  injection Hconsole as Hcmds Hdone Hen.
  unfold bind at 1, get_main_loop. rewrite Hen, Henabled, Hcmds.
  rewrite (bool_decide_eq_false_2 _ Hpending). cbn [negb andb when].
  assert (Hpost :
    post (emit Mutex_lock;; run_lua_commands (lua_commands (main_loop w));;
          emit lua_commands_clear;;
          modify_main_loop (with_lua_commands []);; emit Mutex_unlock) w1
      (fun _ w' =>
         exists during,
           trace w'
           = trace w1
             ++ Mutex_lock :: during ++ [lua_commands_clear; Mutex_unlock]
           /\ Forall command_effect during
           /\ executed during = lua_commands (main_loop w)
           /\ lua_commands (main_loop w') = []
           /\ num_lua_commands_done (main_loop w')
              = count_up (length (lua_commands (main_loop w)))
                  (num_lua_commands_done (main_loop w1)))).
  { post_run. eapply post_weaken; [apply run_lua_commands_post|].
    intros [] w2 (during & Htrace & Hall & Hexec & _ & _ & Hdone2).
    post_run. cbn [trace main_loop with_trace with_main_loop lua_commands
                   num_lua_commands_done with_lua_commands] in *.
    exists during. rewrite Htrace, <- !app_assoc. cbn [app].
    repeat split; assumption. }
  destruct Hpost as ([] & w' & Hrun & during & Htrace & Hall & Hexec
                     & Hcleared & Hcount).
  exists w', events, during. split; [exact Hrun|]. split; [exact Hevents|].
  rewrite Htrace, Hevents, <- app_assoc.
  repeat split; try assumption.
  rewrite Hcount, Hdone. apply count_up_i32.
  destruct (lua_commands (main_loop w)); [contradiction | cbn; lia].
Qed.

(** C7, as amended.  [push_lua_command] locks the mutex, appends the command
    to the list, and unlocks: the [push_back] is in the history between the
    lock and the unlock; it returns the value the pushed-counter had.  When
    the console is enabled and commands are pending, [check_input], once the
    input events are handled (without the mutex, and without a change of the
    list), locks the mutex, runs the pending commands in the order they were
    pushed while it holds the lock, counts each one in the done-counter,
    clears the list and only then unlocks: the [clear] is in the history
    after the last command and before the unlock, and nothing follows the
    unlock.  So "A", "B", "C" pushed before a tick run in that order in that
    tick and add exactly 3 to the done-counter. *)
Theorem lua_commands_run_in_order_under_the_lock :
  (forall command w,
     exists w',
       push_lua_command command w
       = Return (num_lua_commands_pushed (main_loop w)) w'
       /\ lua_commands (main_loop w') = lua_commands (main_loop w) ++ [command]
       /\ num_lua_commands_pushed (main_loop w')
          = Int.i32 (num_lua_commands_pushed (main_loop w) + 1)
       /\ trace w'
          = trace w
            ++ [Mutex_lock; lua_commands_push_back command; Mutex_unlock])
  /\ (forall w polled,
        lua_console_enabled (main_loop w) = true ->
        lua_commands (main_loop w) <> [] ->
        check_sdl_events (pending_bound (sdl_queue (input w))) w
        = Return tt polled ->
        exists w' events during,
          check_input w = Return tt w'
          /\ trace polled = trace w ++ events
          /\ trace w'
             = trace w ++ events
               ++ Mutex_lock :: during ++ [lua_commands_clear; Mutex_unlock]
          /\ Forall input_effect events
          /\ Forall command_effect during
          /\ executed during = lua_commands (main_loop w)
          /\ lua_commands (main_loop w') = []
          /\ num_lua_commands_done (main_loop w')
             = Int.i32 (num_lua_commands_done (main_loop w)
                        + Z.of_nat (length (lua_commands (main_loop w)))))
  /\ (forall w polled,
        lua_console_enabled (main_loop w) = true ->
        lua_commands (main_loop w) = [] ->
        Int.INT_MIN <= num_lua_commands_done (main_loop w) ->
        num_lua_commands_done (main_loop w) + 3 <= Int.INT_MAX ->
        (push_lua_command "A" ;; push_lua_command "B" ;;
         push_lua_command "C" ;;
         check_sdl_events (pending_bound (sdl_queue (input w)))) w
        = Return tt polled ->
        exists w' events during,
          (push_lua_command "A" ;; push_lua_command "B" ;;
           push_lua_command "C" ;; check_input) w = Return tt w'
          /\ trace w'
             = trace w
               ++ [Mutex_lock; lua_commands_push_back "A"; Mutex_unlock;
                   Mutex_lock; lua_commands_push_back "B"; Mutex_unlock;
                   Mutex_lock; lua_commands_push_back "C"; Mutex_unlock]
               ++ events
               ++ Mutex_lock :: during ++ [lua_commands_clear; Mutex_unlock]
          /\ Forall input_effect events
          /\ Forall command_effect during
          /\ executed during = ["A"; "B"; "C"]
          /\ executed events = []
          /\ lua_commands (main_loop w') = []
          /\ num_lua_commands_done (main_loop w')
             = num_lua_commands_done (main_loop w) + 3).
Proof.
  split; [|split].
  - intros command w.
    destruct (push_lua_command_post command w)
      as (id & w' & Hrun & -> & Hcmds & Hpushed & _ & _ & _ & Htrace).
    exists w'. repeat split; assumption.
  - apply check_input_post.
  - intros w polled Henabled Hnone Hmin Hmax.
    unfold bind at 1 4.
    destruct (push_lua_command_post "A" w)
      as (ida & wa & -> & _ & Hcmds & _ & Hdone & Hen & Hin & Htrace).
    unfold bind at 1 3.
    destruct (push_lua_command_post "B" wa)
      as (idb & wb & -> & _ & Hcmds' & _ & Hdone' & Hen' & Hin' & Htrace').
    unfold bind at 1 2.
    destruct (push_lua_command_post "C" wb)
      as (idc & wc & -> & _ & Hcmds'' & _ & Hdone'' & Hen'' & Hin'' & Htrace'').
    intros Hpolled.
    assert (Hpending : lua_commands (main_loop wc) = ["A"; "B"; "C"]).
    { rewrite Hcmds'', Hcmds', Hcmds, Hnone. reflexivity. }
    destruct (check_input_post wc polled)
      as (w' & events & during & Hrun & _ & Htr & Hev & Hall & Hexec
          & Hcleared & Hcount).
    { congruence. }
    { rewrite Hpending. discriminate. }
    { rewrite Hin'', Hin', Hin. exact Hpolled. }
    exists w', events, during.
    rewrite Hpending in Hexec, Hcount.
    split; [exact Hrun|]. split.
    { rewrite Htr, Htrace'', Htrace', Htrace, <- !app_assoc. reflexivity. }
    split; [exact Hev|]. split; [exact Hall|]. split; [exact Hexec|]. split.
    { clear - Hev. unfold executed.
      induction Hev as [|e events He _ IH]; cbn [flat_map]; [reflexivity|].
      rewrite IH, app_nil_r. destruct e; try reflexivity; contradiction. }
    split; [exact Hcleared|].
    rewrite Hcount, Hdone'', Hdone', Hdone. cbn [length Z.of_nat].
    apply IntFacts.i32_id. cbn. lia.
Qed.

End Console.

(** Three commands pushed on a fresh main loop, then one tick. *)
Lemma lua_commands_run_in_order_under_the_lock_witness :
  exists w',
    (push_lua_command "A" ;; push_lua_command "B" ;;
     push_lua_command "C" ;; check_input (collaborators := quiet_bench))
      initial_world
    = Return tt w'
    /\ num_lua_commands_done (main_loop w') = 3
    /\ lua_commands (main_loop w') = [].
Proof.
  destruct (lua_commands_run_in_order_under_the_lock
              (collaborators := quiet_bench)) as (_ & _ & Habc).
  pose (pushes :=
    (push_lua_command "A" ;; push_lua_command "B" ;; push_lua_command "C" ;;
     check_sdl_events (collaborators := quiet_bench)
       (pending_bound (sdl_queue (input initial_world))))).
  destruct (Habc initial_world (world_of (pushes initial_world)))
    as (w' & events & during & Hrun & _ & _ & _ & _ & _ & Hcleared & Hdone).
  - reflexivity.
  - reflexivity.
  - unfold Int.INT_MIN. simpl. lia.
  - unfold Int.INT_MAX. simpl. lia.
  - vm_compute. reflexivity.
  - exists w'. split; [exact Hrun|]. split; [exact Hdone | exact Hcleared].
Defined.

(** C7, counterexample.  With "A", "B", "C" pending, the tick runs the three
    commands between the lock and the unlock of the mutex, and clears the
    list before the unlock: the lock is not released before the commands
    are executed, and nothing is executed after its release. *)
Lemma commands_run_before_the_mutex_is_released :
  exists w',
    check_input (collaborators := quiet_bench) (bench_console ["A"; "B"; "C"])
    = Return tt w'
    /\ (exists during,
          trace w' = Mutex_lock :: during ++ [lua_commands_clear; Mutex_unlock]
          /\ executed during = ["A"; "B"; "C"])
    /\ executed (after_unlock (trace w')) = [].
Proof.
  eexists. split; [vm_compute; reflexivity|].
  split; [|reflexivity].
  match goal with
  | |- exists during, ?h = _ /\ _ => exists (removelast (removelast (tl h)))
  end.
  split; reflexivity.
Qed.


(** ** Scheduling *)

Section Scheduling_properties.

Context {collaborators : Collaborators}.

Lemma updates_app h h' : updates (h ++ h') = updates h ++ updates h'.
Proof. unfold updates. apply flat_map_app. Qed.

Lemma requested_flags h m :
  calm -> flags (requested (script_requests h) m) = flags m.
Proof.
  intros Hcalm. destruct (Hcalm h) as [Hex Hsu].
  unfold requested, flags. rewrite Hex, Hsu.
  destruct (request_game _); reflexivity.
Qed.

Lemma requested_turbo r m : turbo (requested r m) = turbo m.
Proof.
  unfold requested. destruct r as [[] [b|] [g|]]; cbn;
    try destruct (negb _); reflexivity.
Qed.

Lemma requested_debug_lag r m : debug_lag (requested r m) = debug_lag m.
Proof.
  unfold requested. destruct r as [[] [b|] [g|]]; cbn;
    try destruct (negb _); reflexivity.
Qed.

Ltac post_split :=
  post_run;
  repeat (lazymatch goal with
          | |- post (if ?b then _ else _) _ _ => destruct b eqn:?
          end; post_run).

Lemma flags_requested_twice h h' m :
  calm ->
  flags (requested (script_requests h') (requested (script_requests h) m))
  = flags m.
Proof. intros Hcalm. now rewrite !requested_flags. Qed.

Lemma flags_with_game g m : flags (with_game g m) = flags m.
Proof. reflexivity. Qed.

Lemma flags_with_root_surface r m : flags (with_root_surface r m) = flags m.
Proof. reflexivity. Qed.

Ltac flags_simpl :=
  repeat first [rewrite flags_with_game | rewrite flags_with_root_surface
               | rewrite requested_flags by assumption].

(** A step always returns; it shows in the history as one update. *)
Lemma step_post timestep w :
  post (step timestep) w
    (fun _ w' =>
       updates (trace w') = updates (trace w) ++ [timestep]
       /\ input w' = input w
       /\ (calm -> flags (main_loop w') = flags (main_loop w))).
Proof.
  unfold step. post_split.
  all: rewrite ?updates_app; cbn [updates flat_map app];
    rewrite ?app_nil_r, <- ?app_assoc; cbn [app].
  all: split; [reflexivity|]; split; [reflexivity|]; intros Hcalm.
  all: flags_simpl; reflexivity.
Qed.

(** Drawing always returns and makes no step. *)
Lemma draw_post w :
  post draw w
    (fun _ w' =>
       updates (trace w') = updates (trace w)
       /\ input w' = input w
       /\ (calm -> flags (main_loop w') = flags (main_loop w))).
Proof.
  unfold draw. post_split.
  all: rewrite ?updates_app; cbn [updates flat_map app];
    rewrite ?app_nil_r, <- ?app_assoc; cbn [app].
  all: split; [reflexivity|]; split; [reflexivity|]; intros Hcalm.
  all: flags_simpl; reflexivity.
Qed.

Lemma fixed_sleep_post st w :
  post (fixed_sleep st) w
    (fun _ w' =>
       updates (trace w') = updates (trace w)
       /\ input w' = input w
       /\ main_loop w' = main_loop w).
Proof.
  unfold fixed_sleep, sleep, is_suspended, get_real_time_ms. post_split.
  all: rewrite ?updates_app; cbn [updates flat_map app];
    rewrite ?app_nil_r, <- ?app_assoc; cbn [app].
  all: repeat split; reflexivity.
Qed.


Lemma i64_fixed_timestep : Int.i64 fixed_timestep_ns = fixed_timestep_ns.
Proof. reflexivity. Qed.

(** The catch-up loop while the main loop is neither exiting nor suspended
    and scripts are calm. *)
Lemma catch_up_post fuel : forall lag num_updates w,
  calm ->
  exiting (main_loop w) = false ->
  suspended (main_loop w) = false ->
  Int.INT64_MIN <= lag <= Int.INT64_MAX ->
  0 <= num_updates <= 10 ->
  fuel = Z.to_nat (10 - num_updates) ->
  post (catch_up fuel lag num_updates) w
    (fun r w' =>
       let turns := catch_up_turns lag num_updates in
       fst r = lag - turns * fixed_timestep_ns
       /\ snd r = num_updates + turns
       /\ updates (trace w')
          = updates (trace w) ++ repeat fixed_timestep_ns (Z.to_nat turns)
       /\ input w' = input w
       /\ flags (main_loop w') = flags (main_loop w)).
Proof.
  induction fuel as [|fuel IH];
    intros lag num_updates w Hcalm Hex Hsu Hlag Hnum Hfuel.
  - cbn [catch_up]. post_run.
    assert (num_updates = 10) as -> by lia.
    unfold catch_up_turns. rewrite Z.max_l.
    + cbn. rewrite app_nil_r. repeat split; lia.
    + pose proof (Z.le_min_l (10 - 10) (lag / fixed_timestep_ns)). lia.
  - cbn [catch_up]. unfold catch_up_condition, is_exiting, is_suspended.
    post_run. rewrite Hex, Hsu, i64_fixed_timestep. cbn [negb andb].
    rewrite !andb_true_r.
    assert (Hlt : (num_updates <? 10) = true) by (apply Z.ltb_lt; lia).
    rewrite Hlt, andb_true_r.
    destruct (Z.geb_spec lag fixed_timestep_ns) as [Hge|Hlow].
    + post_run. eapply post_weaken; [apply step_post|].
      intros [] w1 (Hup & Hin & Hflags). specialize (Hflags Hcalm).
      post_simpl.
      assert (Hwrap : Int.i64 (lag - fixed_timestep_ns) = lag - fixed_timestep_ns).
      { apply IntFacts.i64_id. unfold fixed_timestep_ns, Int.INT64_MIN, Int.INT64_MAX in *. lia. }
      rewrite Hwrap.
      eapply post_weaken.
      { apply IH; try assumption.
        - unfold flags in Hflags. injection Hflags as He _ _. congruence.
        - unfold flags in Hflags. injection Hflags as _ Hs _. congruence.
        - unfold fixed_timestep_ns, Int.INT64_MIN, Int.INT64_MAX in *. lia.
        - lia.
        - lia. }
      intros [lag' num'] w2 (Hlag' & Hnum' & Hup' & Hin' & Hflags').
      cbn [fst snd] in *. cbv zeta.
      assert (Hturns : catch_up_turns lag num_updates
                       = 1 + catch_up_turns (lag - fixed_timestep_ns) (num_updates + 1)).
      { unfold catch_up_turns.
        replace (lag / fixed_timestep_ns)
          with ((lag - fixed_timestep_ns) / fixed_timestep_ns + 1).
        2:{ replace lag with ((lag - fixed_timestep_ns) + 1 * fixed_timestep_ns) at 2 by lia.
            rewrite Z.div_add by (unfold fixed_timestep_ns; lia). reflexivity. }
        assert (0 <= (lag - fixed_timestep_ns) / fixed_timestep_ns).
        { apply Z.div_pos; unfold fixed_timestep_ns in *; lia. }
        lia. }
      assert (Hpos : 0 <= catch_up_turns (lag - fixed_timestep_ns) (num_updates + 1)).
      { unfold catch_up_turns. lia. }
      rewrite Hturns. repeat split.
      * lia.
      * lia.
      * rewrite Hup', Hup, <- app_assoc. f_equal.
        rewrite Z2Nat.inj_add by lia. reflexivity.
      * congruence.
      * congruence.
    + post_run.
      assert (Hturns : catch_up_turns lag num_updates = 0).
      { unfold catch_up_turns.
        assert (lag / fixed_timestep_ns <= 0).
        { destruct (Z.lt_ge_cases lag 0) as [Hneg|Hpos].
          - pose proof (Z.div_lt_upper_bound lag fixed_timestep_ns 0
                          ltac:(unfold fixed_timestep_ns; lia)
                          ltac:(lia)). lia.
          - rewrite Z.div_small by lia. lia. }
        lia. }
      rewrite Hturns. cbn. rewrite app_nil_r. repeat split; lia.
Qed.

Lemma fixed_measure_post st w :
  post (fixed_measure st) w
    (fun st1 w1 =>
       let real_time := Int.u64 (System_real_time_ns (trace w)) in
       let now := Int.u64 (real_time - time_dropped st) in
       let accumulated := accumulated_lag st w in
       input w1 = input w
       /\ main_loop w1 = main_loop w
       /\ updates (trace w1) = updates (trace w)
       /\ (accumulated < 200000000 ->
           st1 = {| last_frame_date := now; lag := accumulated;
                    time_dropped := time_dropped st |}
           /\ trace w1 = trace w ++ [System_get_real_time_ns real_time])
       /\ (200000000 <= accumulated ->
           let dropped :=
             Int.i64 (time_dropped st + (accumulated - fixed_timestep_ns)) in
           let real_time' :=
             Int.u64 (System_real_time_ns
                        (trace w ++ [System_get_real_time_ns real_time])) in
           st1 = {| last_frame_date := Int.u64 (real_time' - dropped);
                    lag := fixed_timestep_ns; time_dropped := dropped |}
           /\ trace w1 = trace w ++ [System_get_real_time_ns real_time;
                                     System_get_real_time_ns real_time'])).
Proof.
  unfold fixed_measure, get_real_time_ns, accumulated_lag. post_run.
  match goal with |- post (if ?c >=? _ then _ else _) _ _ =>
    set (accumulated := c) end.
  destruct (Z.geb_spec accumulated 200000000) as [Hhuge|Hsmall]; post_run.
  - rewrite !updates_app. cbn [updates flat_map app]. rewrite !app_nil_r.
    repeat split; try reflexivity; try lia.
    now rewrite <- app_assoc.
  - rewrite !updates_app. cbn [updates flat_map app]. rewrite !app_nil_r.
    repeat split; try reflexivity; lia.
Qed.

Lemma catch_up_stops fuel lag num_updates w :
  lag < fixed_timestep_ns \/ 10 <= num_updates
  \/ exiting (main_loop w) = true \/ suspended (main_loop w) = true ->
  catch_up fuel lag num_updates w = Return (lag, num_updates) w.
Proof.
  intros Hstop. destruct fuel as [|fuel]; [reflexivity|].
  cbn [catch_up]. unfold catch_up_condition, is_exiting, is_suspended, bind,
    get_main_loop, ret. cbn.
  replace ((lag >=? Int.i64 fixed_timestep_ns) && (num_updates <? 10)
           && negb (exiting (main_loop w)) && negb (suspended (main_loop w)))
    with false; [reflexivity|].
  symmetry. rewrite i64_fixed_timestep.
  destruct Hstop as [H|[H|[H|H]]].
  - destruct (Z.geb_spec lag fixed_timestep_ns); [lia | reflexivity].
  - destruct (Z.ltb_spec num_updates 10); [lia|]. now rewrite andb_false_r.
  - rewrite H. cbn. now rewrite andb_false_r.
  - rewrite H. cbn. now rewrite andb_false_r.
Qed.

(** The part of a frame that follows [check_input]. *)
Lemma fixed_frame_after_input st w st1 w1 w2 (Q : Z * Z -> World -> Prop) :
  fixed_measure st w = Return st1 w1 ->
  check_input w1 = Return tt w2 ->
  post (fixed_update (lag st1)) w2 Q ->
  post (fixed_frame st) w
    (fun r w' =>
       exists w3,
         Q (lag (fst r), snd r) w3
         /\ last_frame_date (fst r) = last_frame_date st1
         /\ time_dropped (fst r) = time_dropped st1
         /\ updates (trace w') = updates (trace w3)
         /\ input w' = input w3).
Proof.
  intros Hmeasure Hinput (r & w3 & Hupdate & HQ).
  unfold fixed_frame.
  apply post_bind. exists st1, w1. split; [exact Hmeasure|].
  apply post_bind. exists tt, w2. split; [exact Hinput|].
  apply post_bind. exists r, w3. split; [exact Hupdate|].
  unfold is_suspended. post_run.
  assert (Hdraw :
    post (when ((snd r >? 0) && negb (suspended (main_loop w3))) draw) w3
      (fun _ w4 => updates (trace w4) = updates (trace w3)
                   /\ input w4 = input w3)).
  { destruct (_ && _); cbn [when].
    - eapply post_weaken; [apply draw_post|]. now intros [] w4 (? & ? & _).
    - post_run. now split. }
  eapply post_weaken; [exact Hdraw|]. clear Hdraw.
  intros [] w4 (Hup & Hin). post_simpl. apply post_bind.
  eapply post_weaken; [apply fixed_sleep_post|].
  intros [] w5 (Hup' & Hin' & _). post_run.
  exists w3. cbn [fst snd lag last_frame_date time_dropped].
  destruct r as [lag' num']. cbn [fst snd] in *.
  repeat split; try assumption; congruence.
Qed.



Lemma post_return {A} (m : M A) w a w' (Q : A -> World -> Prop) :
  m w = Return a w' -> Q a w' -> post m w Q.
Proof. intros Hrun HQ. now exists a, w'. Qed.

(** With a lag of one timestep a frame makes one step at most, whatever
    the flags and the scripts. *)
Lemma fixed_update_one_timestep w :
  post (fixed_update fixed_timestep_ns) w
    (fun r w' =>
       0 <= snd r <= 1
       /\ fst r = fixed_timestep_ns - snd r * fixed_timestep_ns
       /\ updates (trace w')
          = updates (trace w) ++ repeat fixed_timestep_ns (Z.to_nat (snd r))).
Proof.
  unfold fixed_update, is_suspended. post_run.
  destruct (turbo (main_loop w) && negb (suspended (main_loop w))); post_run.
  - eapply post_weaken; [apply step_post|].
    intros [] w1 (Hup & _ & _). post_simpl.
    eapply post_return;
      [exact (catch_up_stops (Z.to_nat (10 - (0 + 1)))
                (Int.i64 (fixed_timestep_ns - fixed_timestep_ns)) (0 + 1) w1
                (or_introl eq_refl))|].
    cbn [fst snd]. repeat split; try lia; try reflexivity. exact Hup.
  - change (Z.to_nat (10 - 0)) with 10%nat. cbn [catch_up].
    apply post_bind. unfold catch_up_condition, is_exiting, is_suspended.
    post_run.
    destruct (_ && _ && _ && _); post_run.
    + eapply post_weaken; [apply step_post|].
      intros [] w1 (Hup & _ & _). post_simpl.
      eapply post_return;
      [exact (catch_up_stops 9
                (Int.i64 (fixed_timestep_ns - fixed_timestep_ns)) (0 + 1) w1
                (or_introl eq_refl))|].
      cbn [fst snd]. repeat split; try lia; try reflexivity. exact Hup.
    + cbn [fst snd]. rewrite app_nil_r. repeat split; try lia; reflexivity.
Qed.

(** C2.  When the lag accumulated at the head of a frame reaches 200 ms, the
    frame does not catch it up: [lag - fixed_timestep] is added to
    [time_dropped], [lag] becomes one [fixed_timestep], and
    [last_frame_date] is read again from the real time less the time
    dropped.  One step's worth of lag is left, and the frame makes one step at
    most. *)
Theorem huge_lag_is_dropped (st : FixedRun) (w : World) :
  let accumulated := accumulated_lag st w in
  200000000 <= accumulated ->
  exists st1 w1,
    fixed_measure st w = Return st1 w1
    /\ lag st1 = fixed_timestep_ns
    /\ time_dropped st1
       = Int.i64 (time_dropped st + (accumulated - fixed_timestep_ns))
    /\ (Int.INT64_MIN <= time_dropped st ->
        time_dropped st + (accumulated - fixed_timestep_ns) <= Int.INT64_MAX ->
        time_dropped st1
        = time_dropped st + (accumulated - fixed_timestep_ns))
    /\ (exists real_time real_time',
          trace w1 = trace w ++ [System_get_real_time_ns real_time;
                                 System_get_real_time_ns real_time']
          /\ last_frame_date st1 = Int.u64 (real_time' - time_dropped st1))
    /\ (forall w2,
          check_input w1 = Return tt w2 ->
          exists st' num_updates w',
            fixed_frame st w = Return (st', num_updates) w'
            /\ 0 <= num_updates <= 1
            /\ lag st' = fixed_timestep_ns - num_updates * fixed_timestep_ns
            /\ updates (trace w')
               = updates (trace w2)
                 ++ repeat fixed_timestep_ns (Z.to_nat num_updates)
            /\ time_dropped st' = time_dropped st1
            /\ last_frame_date st' = last_frame_date st1).
Proof.
  intros accumulated Hhuge.
  destruct (fixed_measure_post st w)
    as (st1 & w1 & Hmeasure & _ & _ & _ & _ & Hdrop).
  destruct (Hdrop Hhuge) as [Hst1 Htrace]. clear Hdrop.
  exists st1, w1. fold accumulated in Hst1.
  split; [exact Hmeasure|]. split; [now rewrite Hst1|].
  split; [now rewrite Hst1|]. split.
  { intros Hmin Hmax. rewrite Hst1. cbn [time_dropped].
    apply IntFacts.i64_id. unfold Int.INT64_MIN, Int.INT64_MAX, fixed_timestep_ns in *.
    lia. }
  split.
  { eexists _, _. split; [exact Htrace|]. now rewrite Hst1. }
  intros w2 Hinput.
  destruct (fixed_frame_after_input st w st1 w1 w2 _ Hmeasure Hinput
              ltac:(rewrite Hst1; apply fixed_update_one_timestep))
    as ([st' num_updates] & w' & Hframe & w3 & (Hnum & Hlag & Hup) & Hdate
        & Hdropped & Hup' & _).
  cbn [fst snd] in *.
  exists st', num_updates, w'. repeat split; try assumption; try lia.
  congruence.
Qed.



(** *** Dynamic timestep *)

Lemma delta_buffer_spill_value :
  delta_buffer_spill = S754_finite false 10737418 (-30).
Proof. reflexivity. Qed.

Lemma i64_idem z : Int.i64 (Int.i64 z) = Int.i64 z.
Proof. apply IntFacts.i64_id, IntFacts.i64_range. Qed.

(** The measures of a frame, as functions of the two readings. *)
Lemma dynamic_measure_post st w :
  post (dynamic_measure st) w
    (fun r w' =>
       input w' = input w
       /\ main_loop w' = main_loop w
       /\ delta_buffer_after (snd r) = delta_buffer (fst r)
       /\ (delta_buffer st = 0 ->
           last_frame_duration (snd r) = perfect_frame_duration (snd r) ->
           spill (snd r) = 0
           /\ smoothed_duration (snd r) = perfect_frame_duration (snd r)
           /\ delta_buffer (fst r) = 0)).
Proof.
  unfold dynamic_measure, get_real_time_ns. post_run.
  cbn [fst snd delta_buffer delta_buffer_after last_frame_duration
       perfect_frame_duration spill smoothed_duration].
  split; [reflexivity|]. split; [reflexivity|]. split; [reflexivity|].
  intros Hzero Hnominal. rewrite Hzero in *.
  change (Float.to_int64
            (Float.Single.mul (Float.Single.of_int 0) delta_buffer_spill))
    with 0 in *.
  rewrite Z.add_0_r, i64_idem in *.
  split; [reflexivity|]. split; [reflexivity|].
  rewrite Hnominal.
  match goal with |- context [if ?c then _ else _] => destruct c end;
    rewrite Z.sub_diag; reflexivity.
Qed.

Lemma bind_Return_inv {A B} (m : M A) (k : A -> M B) w b w' :
  bind m k w = Return b w' ->
  exists a w1, m w = Return a w1 /\ k a w1 = Return b w'.
Proof.
  unfold bind. destruct (m w) as [a w1|what w1]; [|discriminate].
  intros H. now exists a, w1.
Qed.

Lemma dynamic_frame_inv st w st1 o w1 :
  dynamic_frame st w = Return (st1, o) w1 ->
  (o = None /\ st1 = st)
  \/ (exists f w0 w0',
        o = Some f /\ dynamic_measure st w0 = Return (st1, f) w0').
Proof.
  unfold dynamic_frame. intros H.
  apply bind_Return_inv in H as ([] & wa & _ & H).
  apply bind_Return_inv in H as (ex & wb & _ & H).
  apply bind_Return_inv in H as (su & wc & _ & H).
  destruct (negb ex && negb su).
  - apply bind_Return_inv in H as ([st2 f] & wd & Hmeasure & H).
    apply bind_Return_inv in H as ([] & we & _ & H).
    apply bind_Return_inv in H as ([] & wf & _ & H).
    cbn in H. injection H as <- <- <-.
    right. now exists f, wc, wd.
  - apply bind_Return_inv in H as ([] & wd & _ & H).
    cbn in H. injection H as <- <- <-. now left.
Qed.

Lemma dynamic_frames_steady frames : forall st w st' fs w',
  delta_buffer st = 0 ->
  dynamic_frames frames st w = Return (st', fs) w' ->
  Forall nominal fs ->
  delta_buffer st' = 0 /\ Forall steady fs.
Proof.
  induction frames as [|frames IH]; intros st w st' fs w' Hzero Hrun Hnominal.
  - cbn in Hrun. injection Hrun as <- <- <-. now split.
  - cbn [dynamic_frames] in Hrun.
    apply bind_Return_inv in Hrun as (ex & wa & _ & Hrun).
    destruct ex.
    { cbn in Hrun. injection Hrun as <- <- <-. now split. }
    apply bind_Return_inv in Hrun as ([st1 o] & wb & Hframe & Hrun).
    apply bind_Return_inv in Hrun as ([st2 rest] & wc & Hrest & Hrun).
    cbn in Hrun. injection Hrun as <- <- <-.
    apply dynamic_frame_inv in Hframe
      as [[-> ->]|(f & w0 & w0' & -> & Hmeasure)].
    + cbn [fst snd] in *. eapply IH; eassumption.
    + cbn [fst snd] in *. apply Forall_cons in Hnominal as [Hf Hrest'].
      destruct (dynamic_measure_post st w0)
        as (r & w0'' & Hmeasure' & _ & _ & Hafter & Hsteady).
      rewrite Hmeasure in Hmeasure'. injection Hmeasure' as <- <-.
      cbn [fst snd] in *.
      destruct (Hsteady Hzero Hf) as (Hspill & Hsmooth & Hbuffer).
      destruct (IH st1 wb st2 rest wc Hbuffer Hrest Hrest') as [Hfinal Hall].
      split; [exact Hfinal|]. constructor; [|exact Hall].
      repeat split; try assumption. congruence.
Qed.

Lemma real_times_app h h' : real_times (h ++ h') = real_times h ++ real_times h'.
Proof. unfold real_times. apply flat_map_app. Qed.

Lemma reading_points_app new : forall before new',
  reading_points before (new ++ new')
  = reading_points before new ++ reading_points (before ++ new) new'.
Proof.
  induction new as [|e new IH]; intros before new'; cbn [app reading_points].
  - now rewrite app_nil_r.
  - rewrite !IH, <- !app_assoc. cbn [app]. destruct e; reflexivity.
Qed.

Lemma clock_free_quiet new :
  Forall clock_free new ->
  real_times new = [] /\ forall before, reading_points before new = [].
Proof.
  induction 1 as [|e new He _ [IH IH']].
  - split; reflexivity.
  - split.
    + unfold real_times in *. cbn [flat_map]. rewrite IH.
      destruct e; try reflexivity; contradiction.
    + intros before. cbn [reading_points]. rewrite IH'.
      destruct e; try reflexivity; contradiction.
Qed.

Lemma untimed_clock_free new : Forall untimed_effect new -> Forall clock_free new.
Proof.
  induction 1 as [|e new He _ IH]; constructor; [|exact IH].
  destruct e; try exact I; contradiction.
Qed.

Lemma untimed_updates new : Forall untimed_effect new -> updates new = [].
Proof.
  unfold updates. induction 1 as [|e new He _ IH]; [reflexivity|].
  cbn [flat_map]. rewrite IH. destruct e; try reflexivity; contradiction.
Qed.

Ltac untimed_side :=
  try exact I;
  try (intros; exact I);
  try (intros; reflexivity).

Lemma notify_input_untimed event :
  respects (evolves untimed_effect any any) (notify_input event).
Proof.
  unfold notify_input, notify_input_chain, notify_input_forward.
  evolve; untimed_side.
Qed.

Lemma get_event_untimed :
  sure (evolves untimed_effect any any) get_event.
Proof.
  unfold get_event, SDL_PollEvent, get_event_switch, simulate_window_closing,
    SDL_PushEvent.
  evolve; untimed_side.
Qed.

Lemma check_sdl_events_untimed fuel :
  respects (evolves untimed_effect any any) (check_sdl_events fuel).
Proof.
  induction fuel as [|fuel IH]; cbn [check_sdl_events].
  - apply respects_sure, sure_ret.
  - apply respects_bind; [apply respects_sure, get_event_untimed|].
    intros [event|]; [|apply respects_sure, sure_ret].
    apply respects_bind; [apply notify_input_untimed | intros _; exact IH].
Qed.

Lemma run_lua_commands_untimed commands :
  sure (evolves untimed_effect any any) (run_lua_commands commands).
Proof.
  induction commands as [|command commands IH]; cbn [run_lua_commands].
  - apply sure_ret.
  - repeat (apply sure_bind; [|intros ?]); try exact IH; evolve; untimed_side.
Qed.

Lemma check_input_untimed :
  respects (evolves untimed_effect any any) check_input.
Proof.
  unfold check_input.
  apply respects_bind; [apply respects_sure, sure_get_input|]. intros s.
  apply respects_bind; [apply check_sdl_events_untimed|]. intros _.
  apply respects_sure.
  apply sure_bind; [apply sure_get_main_loop|]. intros m.
  apply sure_when.
  apply sure_bind; [apply sure_emit; exact I|]. intros _.
  apply sure_bind; [apply run_lua_commands_untimed|]. intros _.
  evolve; untimed_side.
Qed.

(** What [check_input] adds to the history when it returns. *)
Lemma check_input_returns w polled :
  check_input w = Return tt polled ->
  exists events,
    trace polled = trace w ++ events /\ Forall untimed_effect events.
Proof.
  intros Hrun. pose proof (check_input_untimed w) as H.
  rewrite Hrun in H. cbn [world_of] in H. now destruct H as [H _].
Qed.

Lemma step_clock_free timestep :
  sure (evolves clock_free any any) (step timestep).
Proof. unfold step. evolve; untimed_side. Qed.

Lemma draw_untimed : sure (evolves untimed_effect any any) draw.
Proof. unfold draw. evolve; untimed_side. Qed.

(** What a step adds to the history: one update, and no reading of the
    clock. *)
Lemma step_adds timestep w :
  post (step timestep) w
    (fun _ w' =>
       exists new,
         trace w' = trace w ++ new
         /\ Forall clock_free new
         /\ updates new = [timestep]).
Proof.
  destruct (step_clock_free timestep w)
    as ([] & w1 & Hstep & (new & Hnew & Hfree) & _).
  destruct (step_post timestep w) as ([] & w1' & Hstep' & Hup & _).
  rewrite Hstep in Hstep'. injection Hstep' as <-.
  exists tt, w1. split; [exact Hstep|]. exists new.
  split; [exact Hnew|]. split; [exact Hfree|].
  rewrite Hnew, updates_app in Hup. now apply app_inv_head in Hup.
Qed.

(** What a step and the drawing that follows add to the history. *)
Lemma step_draw_adds timestep w ws w' :
  step timestep w = Return tt ws ->
  draw ws = Return tt w' ->
  exists later,
    trace w' = trace w ++ later
    /\ Forall clock_free later
    /\ updates later = [timestep].
Proof.
  intros Hstep Hdraw.
  destruct (step_adds timestep w) as ([] & ws' & Hstep' & new & Hnew & Hfree & Hup).
  rewrite Hstep in Hstep'. injection Hstep' as <-.
  destruct (draw_untimed ws) as ([] & w2 & Hdraw' & (new' & Hnew' & Hfree') & _).
  rewrite Hdraw in Hdraw'. injection Hdraw' as <-.
  exists (new ++ new'). split; [now rewrite Hnew', Hnew, app_assoc|].
  split; [apply Forall_app; split; [exact Hfree | now apply untimed_clock_free]|].
  now rewrite updates_app, (untimed_updates new' Hfree'), app_nil_r.
Qed.

(** The measures of a frame, as [dynamic_run] computes them from the reading
    of the clock and from the display period. *)
Lemma dynamic_measure_reads st w :
  post (dynamic_measure st) w
    (fun r w' =>
       let now := Int.u64 (System_real_time_ns (trace w)) in
       let f := snd r in
       let used_last_frame_duration :=
         if last_frame_duration f >? Int.i64 (perfect_frame_duration f * 5)
         then perfect_frame_duration f else last_frame_duration f in
       trace w' = trace w ++ [System_get_real_time_ns now]
       /\ input w' = input w
       /\ main_loop w' = main_loop w
       /\ dynamic_last_frame_date (fst r) = now
       /\ perfect_frame_duration f
          = Int.i64 (Video_get_display_period_ns (trace w'))
       /\ last_frame_duration f
          = Int.i64 (Int.u64 (now - dynamic_last_frame_date st))
       /\ spill f
          = Float.to_int64
              (Float.Single.mul (Float.Single.of_int (delta_buffer st))
                 delta_buffer_spill)
       /\ smoothed_duration f = Int.i64 (perfect_frame_duration f + spill f)
       /\ delta_buffer (fst r)
          = Int.i64 (delta_buffer st
                     + Int.i64 (used_last_frame_duration
                                - smoothed_duration f))
       /\ delta_buffer_after f = delta_buffer (fst r)).
Proof.
  unfold dynamic_measure, get_real_time_ns. post_run.
  cbn [fst snd delta_buffer delta_buffer_after last_frame_duration
       perfect_frame_duration spill smoothed_duration dynamic_last_frame_date].
  repeat split.
Qed.

(** A frame of [dynamic_run] that returned: the events were handled; then
    either the clock was read once, a step of the smoothed duration made and
    the screen drawn, or the loop slept. *)
Lemma dynamic_frame_returns st w st1 o w1 :
  dynamic_frame st w = Return (st1, o) w1 ->
  exists polled events,
    check_input w = Return tt polled
    /\ trace polled = trace w ++ events
    /\ Forall untimed_effect events
    /\ match o with
       | Some f =>
           exists measured later,
             dynamic_measure st polled = Return (st1, f) measured
             /\ trace w1 = trace measured ++ later
             /\ Forall clock_free later
             /\ updates later = [Int.u64 (smoothed_duration f)]
       | None =>
           st1 = st
           /\ trace w1
              = trace polled
                ++ [System_sleep (Int.u32 (fixed_timestep_ns / 1000000))]
       end.
Proof.
  unfold dynamic_frame. intros H.
  apply bind_Return_inv in H as ([] & polled & Hinput & H).
  destruct (check_input_returns w polled Hinput) as (events & Hevents & Hquiet).
  exists polled, events. split; [exact Hinput|]. split; [exact Hevents|].
  split; [exact Hquiet|].
  unfold is_exiting, is_suspended in H.
  apply bind_Return_inv in H as (ex & wb & Hex & H).
  apply bind_Return_inv in Hex as (m & wm & Hm & Hex).
  cbn in Hm, Hex. injection Hm as <- <-. injection Hex as <- <-.
  apply bind_Return_inv in H as (su & wc & Hsu & H).
  apply bind_Return_inv in Hsu as (m & wm & Hm & Hsu).
  cbn in Hm, Hsu. injection Hm as <- <-. injection Hsu as <- <-.
  destruct (negb (exiting (main_loop polled))
            && negb (suspended (main_loop polled))).
  - apply bind_Return_inv in H as ([st2 f] & measured & Hmeasure & H).
    cbn [fst snd] in H.
    apply bind_Return_inv in H as ([] & ws & Hstep & H).
    apply bind_Return_inv in H as ([] & wd & Hdraw & H).
    cbn in H. injection H as <- <- <-.
    destruct (step_draw_adds _ _ _ _ Hstep Hdraw) as (later & Hlater).
    now exists measured, later.
  - unfold sleep, emit, bind, ret in H. cbn in H. injection H as <- <- <-.
    split; reflexivity.
Qed.

(** A frame entered while the main loop, once the events are handled, is
    neither exiting nor suspended: it returns. *)
Lemma dynamic_frame_runs st w polled :
  check_input w = Return tt polled ->
  exiting (main_loop polled) = false ->
  suspended (main_loop polled) = false ->
  exists st' f measured w' later,
    dynamic_measure st polled = Return (st', f) measured
    /\ dynamic_frame st w = Return (st', Some f) w'
    /\ trace w' = trace measured ++ later
    /\ Forall clock_free later
    /\ updates later = [Int.u64 (smoothed_duration f)].
Proof.
  intros Hinput Hex Hsu.
  destruct (dynamic_measure_reads st polled) as ([st' f] & measured & Hmeasure & _).
  destruct (step_adds (Int.u64 (smoothed_duration f)) measured)
    as ([] & ws & Hstep & _).
  destruct (draw_untimed ws) as ([] & w' & Hdraw & _).
  destruct (step_draw_adds _ _ _ _ Hstep Hdraw) as (later & Hlater).
  exists st', f, measured, w', later. split; [exact Hmeasure|].
  split; [|exact Hlater].
  unfold dynamic_frame. unfold bind at 1. rewrite Hinput.
  unfold is_exiting, is_suspended, get_main_loop, bind, ret.
  rewrite Hex, Hsu. cbn [negb andb]. rewrite Hmeasure. cbn [fst snd].
  rewrite Hstep, Hdraw. reflexivity.
Qed.

(** The frames of a run, read from the history it leaves. *)
Lemma dynamic_frames_returns frames : forall st w st' fs w',
  dynamic_frames frames st w = Return (st', fs) w' ->
  exists new,
    trace w' = trace w ++ new
    /\ map perfect_frame_duration fs
       = map (fun h => Int.i64 (Video_get_display_period_ns h))
           (reading_points (trace w) new)
    /\ map last_frame_duration fs
       = durations (dynamic_last_frame_date st) (real_times new)
    /\ updates new = map (fun f => Int.u64 (smoothed_duration f)) fs.
Proof.
  induction frames as [|frames IH]; intros st w st' fs w' Hrun.
  - cbn in Hrun. injection Hrun as <- <- <-. exists [].
    rewrite app_nil_r. repeat split.
  - cbn [dynamic_frames] in Hrun.
    apply bind_Return_inv in Hrun as (ex & wa & Hex & Hrun).
    unfold is_exiting, bind, get_main_loop, ret in Hex. injection Hex as <- <-.
    destruct (exiting (main_loop w)).
    { cbn in Hrun. injection Hrun as <- <- <-. exists [].
      rewrite app_nil_r. repeat split. }
    apply bind_Return_inv in Hrun as ([st1 o] & wb & Hframe & Hrun).
    apply bind_Return_inv in Hrun as ([st2 rest] & wc & Hrest & Hrun).
    cbn in Hrun. injection Hrun as <- <- <-.
    apply dynamic_frame_returns in Hframe
      as (polled & events & _ & Hevents & Hquiet & Hframe).
    cbn [fst snd] in *.
    destruct (IH st1 wb st2 rest wc Hrest)
      as (new & Hnew & Hperfect & Hlast & Hup).
    pose proof (untimed_updates events Hquiet) as Hup0.
    destruct (clock_free_quiet events (untimed_clock_free events Hquiet))
      as [Htimes0 Hpoints0].
    destruct o as [f|].
    + destruct Hframe as (measured & later & Hmeasure & Hlater & Hfree & Hup1).
      destruct (dynamic_measure_reads st polled)
        as (r & measured' & Hmeasure' & Hread & _ & _ & Hdate & Hperfect1
            & Hlast1 & _).
      rewrite Hmeasure in Hmeasure'. injection Hmeasure' as <- <-.
      cbn [fst snd] in *. cbv zeta in *.
      destruct (clock_free_quiet later Hfree) as [Htimes1 Hpoints1].
      set (now := Int.u64 (System_real_time_ns (trace polled))) in *.
      exists (events ++ System_get_real_time_ns now :: later ++ new).
      assert (Htrace : trace wb
                       = trace w ++ events
                         ++ System_get_real_time_ns now :: later).
      { rewrite Hlater, Hread, Hevents, <- !app_assoc. reflexivity. }
      split; [|split; [|split]].
      * rewrite Hnew, Htrace, <- !app_assoc. reflexivity.
      * rewrite reading_points_app, Hpoints0. cbn [app reading_points map].
        rewrite reading_points_app, Hpoints1. cbn [app].
        rewrite Hperfect, Hperfect1, Hread, Hevents, Htrace, <- !app_assoc.
        reflexivity.
      * rewrite real_times_app, Htimes0. cbn [app].
        change (real_times (System_get_real_time_ns now :: later ++ new))
          with (now :: real_times (later ++ new)).
        rewrite real_times_app, Htimes1. cbn [app durations map].
        now rewrite Hlast, Hlast1, Hdate.
      * rewrite updates_app, Hup0. cbn [app].
        change (updates (System_get_real_time_ns now :: later ++ new))
          with (updates (later ++ new)).
        rewrite updates_app, Hup1, Hup. reflexivity.
    + destruct Hframe as [-> Hsleep].
      exists (events
              ++ System_sleep (Int.u32 (fixed_timestep_ns / 1000000)) :: new).
      assert (Htrace : trace wb
                       = trace w ++ events
                         ++ [System_sleep (Int.u32 (fixed_timestep_ns / 1000000))]).
      { rewrite Hsleep, Hevents, <- !app_assoc. reflexivity. }
      split; [|split; [|split]].
      * rewrite Hnew, Htrace, <- !app_assoc. reflexivity.
      * rewrite reading_points_app, Hpoints0. cbn [app reading_points].
        rewrite Hperfect, Htrace, <- !app_assoc. reflexivity.
      * rewrite real_times_app, Htimes0. cbn [app].
        change (real_times (System_sleep ?d :: new)) with (real_times new).
        exact Hlast.
      * rewrite updates_app, Hup0. cbn [app].
        change (updates (System_sleep ?d :: new)) with (updates new).
        exact Hup.
Qed.

(** Frames that are steady step by their display period. *)
Lemma steady_updates fs :
  Forall steady fs ->
  map (fun f => Int.u64 (smoothed_duration f)) fs
  = map Int.u64 (map perfect_frame_duration fs).
Proof.
  induction 1 as [|f fs (_ & Hsmooth & _) _ IH]; [reflexivity|].
  cbn [map]. now rewrite IH, Hsmooth.
Qed.


(** C6.  In dynamic-timestep mode a frame reads the clock once; its nominal
    period is the display period that [Video] gives at that point, its
    measured duration is the time since the last reading, its spill the
    hundredth of [delta_buffer], its smoothed duration the period plus the
    spill, and [delta_buffer] receives the used duration less the smoothed
    one; the simulation is stepped once, by the smoothed duration.  A frame
    entered with an empty [delta_buffer] and whose measured duration is the
    display period has a spill of 0, a smoothed duration equal to the period,
    steps by the display period and leaves [delta_buffer] at 0.  So along any
    run of such frames that starts with [delta_buffer = 0], as [dynamic_run]
    does, this holds of every frame: the history shows one step per frame,
    each of the display period read in that frame. *)
Theorem dynamic_timestep_is_steady :
  (forall st w,
     let now := Int.u64 (System_real_time_ns (trace w)) in
     let read := trace w ++ [System_get_real_time_ns now] in
     exists st' f w',
       dynamic_measure st w = Return (st', f) w'
       /\ trace w' = read
       /\ perfect_frame_duration f
          = Int.i64 (Video_get_display_period_ns read)
       /\ last_frame_duration f
          = Int.i64 (Int.u64 (now - dynamic_last_frame_date st))
       /\ spill f
          = Float.to_int64
              (Float.Single.mul (Float.Single.of_int (delta_buffer st))
                 delta_buffer_spill)
       /\ smoothed_duration f = Int.i64 (perfect_frame_duration f + spill f)
       /\ delta_buffer st'
          = Int.i64 (delta_buffer st
                     + Int.i64 ((if last_frame_duration f
                                    >? Int.i64 (perfect_frame_duration f * 5)
                                 then perfect_frame_duration f
                                 else last_frame_duration f)
                                - smoothed_duration f))
       /\ delta_buffer_after f = delta_buffer st'
       /\ dynamic_last_frame_date st' = now
       /\ (delta_buffer st = 0 -> nominal f ->
           steady f /\ delta_buffer st' = 0))
  /\ (forall st w polled,
        check_input w = Return tt polled ->
        exiting (main_loop polled) = false ->
        suspended (main_loop polled) = false ->
        exists st' f measured w' later,
          dynamic_measure st polled = Return (st', f) measured
          /\ dynamic_frame st w = Return (st', Some f) w'
          /\ trace w' = trace measured ++ later
          /\ real_times later = []
          /\ updates later = [Int.u64 (smoothed_duration f)]
          /\ (delta_buffer st = 0 -> nominal f ->
              updates later
              = [Int.u64 (Int.i64 (Video_get_display_period_ns
                                     (trace measured)))]))
  /\ (forall frames st w st' fs w',
        dynamic_frames frames st w = Return (st', fs) w' ->
        exists new,
          trace w' = trace w ++ new
          /\ map perfect_frame_duration fs
             = map (fun h => Int.i64 (Video_get_display_period_ns h))
                 (reading_points (trace w) new)
          /\ map last_frame_duration fs
             = durations (dynamic_last_frame_date st) (real_times new)
          /\ updates new = map (fun f => Int.u64 (smoothed_duration f)) fs
          /\ (delta_buffer st = 0 -> Forall nominal fs ->
              delta_buffer st' = 0
              /\ Forall steady fs
              /\ updates new
                 = map (fun h =>
                          Int.u64 (Int.i64 (Video_get_display_period_ns h)))
                     (reading_points (trace w) new)))
  /\ (forall frames w st' fs w',
        dynamic_run frames w = Return (st', fs) w' ->
        let start := Int.u64 (System_real_time_ns (trace w)) in
        let begun := trace w ++ [System_get_real_time_ns start] in
        exists new,
          trace w' = begun ++ new
          /\ map perfect_frame_duration fs
             = map (fun h => Int.i64 (Video_get_display_period_ns h))
                 (reading_points begun new)
          /\ map last_frame_duration fs = durations start (real_times new)
          /\ updates new = map (fun f => Int.u64 (smoothed_duration f)) fs
          /\ (Forall nominal fs ->
              delta_buffer st' = 0
              /\ Forall steady fs
              /\ updates new
                 = map (fun h =>
                          Int.u64 (Int.i64 (Video_get_display_period_ns h)))
                     (reading_points begun new))).
Proof.
  assert (Hframes : forall frames st w st' fs w',
    dynamic_frames frames st w = Return (st', fs) w' ->
    exists new,
      trace w' = trace w ++ new
      /\ map perfect_frame_duration fs
         = map (fun h => Int.i64 (Video_get_display_period_ns h))
             (reading_points (trace w) new)
      /\ map last_frame_duration fs
         = durations (dynamic_last_frame_date st) (real_times new)
      /\ updates new = map (fun f => Int.u64 (smoothed_duration f)) fs
      /\ (delta_buffer st = 0 -> Forall nominal fs ->
          delta_buffer st' = 0
          /\ Forall steady fs
          /\ updates new
             = map (fun h => Int.u64 (Int.i64 (Video_get_display_period_ns h)))
                 (reading_points (trace w) new))).
  { intros frames st w st' fs w' Hrun.
    destruct (dynamic_frames_returns frames st w st' fs w' Hrun)
      as (new & Hnew & Hperfect & Hlast & Hup).
    exists new. repeat (split; [assumption|]).
    intros Hzero Hnominal.
    destruct (dynamic_frames_steady frames st w st' fs w' Hzero Hrun Hnominal)
      as [Hbuffer Hsteady].
    split; [exact Hbuffer|]. split; [exact Hsteady|].
    now rewrite Hup, (steady_updates fs Hsteady), Hperfect, map_map. }
  split; [|split; [|split]].
  - intros st w now read.
    destruct (dynamic_measure_reads st w)
      as ([st' f] & w' & Hmeasure & Hread & _ & _ & Hdate & Hperfect & Hlast
          & Hspill & Hsmooth & Hbuffer & Hafter).
    destruct (dynamic_measure_post st w)
      as (r & w'' & Hmeasure' & _ & _ & _ & Hsteady).
    rewrite Hmeasure in Hmeasure'. injection Hmeasure' as <- <-.
    cbn [fst snd] in *. rewrite Hread in Hperfect.
    exists st', f, w'. repeat (split; [assumption|]).
    intros Hzero Hnominal.
    destruct (Hsteady Hzero Hnominal) as (? & ? & Hempty).
    repeat split; try assumption. congruence.
  - intros st w polled Hinput Hex Hsu.
    destruct (dynamic_frame_runs st w polled Hinput Hex Hsu)
      as (st' & f & measured & w' & later & Hmeasure & Hframe & Hlater & Hfree
          & Hup).
    exists st', f, measured, w', later. repeat (split; [assumption|]).
    split; [apply (clock_free_quiet later Hfree)|]. split; [exact Hup|].
    intros Hzero Hnominal.
    destruct (dynamic_measure_reads st polled)
      as (r & w1 & Hmeasure1 & _ & _ & _ & _ & Hperfect & _).
    destruct (dynamic_measure_post st polled)
      as (r' & w2 & Hmeasure2 & _ & _ & _ & Hsteady).
    rewrite Hmeasure in Hmeasure1, Hmeasure2.
    injection Hmeasure1 as <- <-. injection Hmeasure2 as <- <-.
    cbn [fst snd] in *.
    destruct (Hsteady Hzero Hnominal) as (_ & Hsmooth & _).
    now rewrite Hup, Hsmooth, Hperfect.
  - exact Hframes.
  - intros frames w st' fs w' Hrun start begun. unfold dynamic_run in Hrun.
    apply bind_Return_inv in Hrun as (now & wa & Hstart & Hrun).
    unfold get_real_time_ns, bind, history, emit, ret in Hstart.
    injection Hstart as <- <-.
    destruct (Hframes frames _ _ st' fs w' Hrun)
      as (new & Hnew & Hperfect & Hlast & Hup & Hsteady).
    exists new. repeat (split; [assumption|]).
    intros Hnominal. now apply Hsteady.
Qed.

End Scheduling_properties.

Lemma quiet_bench_is_calm : calm (collaborators := quiet_bench).
Proof. intros h. split; reflexivity. Qed.



(** The same frame: the second of lag is dropped. *)
Lemma huge_lag_is_dropped_witness :
  exists st1 w1,
    fixed_measure (collaborators := quiet_bench) one_second_late initial_world
    = Return st1 w1
    /\ lag st1 = fixed_timestep_ns
    /\ time_dropped st1 = 990000000.
Proof.
  destruct (huge_lag_is_dropped (collaborators := quiet_bench)
              one_second_late initial_world)
    as (st1 & w1 & Hmeasure & Hlag & Hdropped & _).
  - vm_compute. discriminate.
  - exists st1, w1. split; [exact Hmeasure|]. split; [exact Hlag|].
    rewrite Hdropped. reflexivity.
Defined.

(** Three frames of a display at 60 Hz, each lasting one period. *)
Lemma dynamic_timestep_is_steady_witness :
  exists st' fs w',
    dynamic_run (collaborators := tick_bench) 3 initial_world
    = Return (st', fs) w'
    /\ length fs = 3%nat
    /\ Forall nominal fs
    /\ delta_buffer st' = 0
    /\ Forall steady fs
    /\ updates (trace w') = [16666666; 16666666; 16666666].
Proof.
  pose (frame := {| perfect_frame_duration := 16666666;
                    last_frame_duration := 16666666;
                    smoothed_duration := 16666666;
                    delta_buffer_after := 0; spill := 0 |}).
  assert (Hrun :
    dynamic_run (collaborators := tick_bench) 3 initial_world
    = Return ({| dynamic_last_frame_date := 49999998; delta_buffer := 0 |},
              repeat frame 3)
        (world_of (dynamic_run (collaborators := tick_bench) 3 initial_world))).
  { vm_compute. reflexivity. }
  assert (Hnominal : Forall nominal (repeat frame 3)).
  { repeat constructor. }
  destruct (proj2 (proj2 (proj2 (dynamic_timestep_is_steady
                                   (collaborators := tick_bench))))
              3%nat initial_world _ _ _ Hrun)
    as (new & Htrace & _ & _ & Hup & Hsteady).
  destruct (Hsteady Hnominal) as (Hbuffer & Hall & _).
  eexists _, _, _. split; [exact Hrun|].
  split; [reflexivity|]. split; [exact Hnominal|].
  split; [exact Hbuffer|]. split; [exact Hall|].
  rewrite Htrace, updates_app, Hup. reflexivity.
Defined.

(** ** Pressing and releasing *)

Section Pressing_properties.

Context {headers : Headers} {collaborators : Collaborators}.

Lemma direction_key_pressed_is_one_of_four s e :
  is_keyboard_direction_key_pressed s e = true ->
  let key := get_keyboard_key s e in
  type (internal_event e) = SDL_KEYDOWN
  /\ (KeyboardKey_eqb key KeyboardKey.RIGHT
      || KeyboardKey_eqb key KeyboardKey.UP
      || KeyboardKey_eqb key KeyboardKey.LEFT
      || KeyboardKey_eqb key KeyboardKey.DOWN = true).
Proof.
  intros H key. split.
  { revert H. apply is_keyboard_key_pressed_keys_type. }
  unfold is_keyboard_direction_key_pressed, directional_keys in H.
  cbn [is_keyboard_key_pressed_keys] in H.
  unfold is_keyboard_key_pressed_key in H. fold key in H.
  assert (Hnone : KeyboardKey_eqb KeyboardKey.NONE KeyboardKey.NONE = true)
    by apply Z.eqb_refl.
  rewrite Hnone in H. cbn [negb] in H.
  destruct (KeyboardKey_eqb key KeyboardKey.RIGHT); [reflexivity|].
  destruct (KeyboardKey_eqb key KeyboardKey.UP); [reflexivity|].
  destruct (KeyboardKey_eqb key KeyboardKey.LEFT); [reflexivity|].
  destruct (KeyboardKey_eqb key KeyboardKey.DOWN); [reflexivity|].
  rewrite !andb_false_r in H.
  repeat match type of H with
  | (if ?c then _ else _) = true => destruct c
  end; discriminate.
Qed.

(** X1.  [is_direction_pressed] holds exactly when [get_direction] gives a
    direction.  The direction is one of 0, 2, 4 and 6, never a diagonal, and
    it is -1 for every event that is neither a press of an arrow key nor a
    move of a joypad axis. *)
Theorem get_direction_tells_is_direction_pressed (s : InputStatics)
    (e : InputEvent) :
  let d := get_direction s e in
  (is_direction_pressed s e = true <-> d <> -1)
  /\ (d = -1 \/ d = 0 \/ d = 2 \/ d = 4 \/ d = 6)
  /\ (is_keyboard_direction_key_pressed s e = false ->
      is_joypad_axis_moved e = false -> d = -1).
Proof.
  cbv zeta. unfold is_direction_pressed, get_direction.
  destruct (is_keyboard_direction_key_pressed s e) eqn:Hkey.
  - apply direction_key_pressed_is_one_of_four in Hkey as [_ Hkey].
    cbv zeta in Hkey. cbn [orb].
    assert (Hyes : forall d : Z, d <> -1 -> true = true <-> d <> -1) by tauto.
    destruct (KeyboardKey_eqb _ KeyboardKey.RIGHT);
      [split; [apply Hyes|split; [|discriminate]]; lia|].
    destruct (KeyboardKey_eqb _ KeyboardKey.UP);
      [split; [apply Hyes|split; [|discriminate]]; lia|].
    destruct (KeyboardKey_eqb _ KeyboardKey.LEFT);
      [split; [apply Hyes|split; [|discriminate]]; lia|].
    destruct (KeyboardKey_eqb _ KeyboardKey.DOWN);
      [split; [apply Hyes|split; [|discriminate]]; lia|].
    discriminate.
  - cbn [orb]. unfold is_joypad_hat_moved at 1 3. cbn [andb].
    rewrite orb_false_r.
    destruct (is_joypad_axis_moved e) eqn:Hmoved; cbn [andb].
    + destruct (negb (is_joypad_axis_centered s e)).
      * assert (Hyes : forall d : Z, d <> -1 -> true = true <-> d <> -1)
          by tauto.
        destruct (_ || _), (Float.ltb _ _);
          (split; [apply Hyes|split; [|discriminate]]; lia).
      * unfold is_joypad_hat_moved.
        split; [split; [discriminate | intros H; now contradict H]|].
        split; [now left | discriminate].
    + unfold is_joypad_hat_moved.
      split; [split; [discriminate | intros H; now contradict H]|].
      split; [now left | reflexivity].
Qed.

(** X2.  No event is both a press and a release.  A move of a joypad
    axis is a release when the axis is centered and a press otherwise.  What
    is pressed other than a direction is a key, a button of a joypad or a
    button of the mouse. *)
Theorem pressed_and_released_exclude_each_other (s : InputStatics)
    (e : InputEvent) :
  (is_pressed s e = true -> is_released s e = false)
  /\ (is_joypad_axis_moved e = true ->
      is_pressed s e = negb (is_joypad_axis_centered s e)
      /\ is_released s e = is_joypad_axis_centered s e)
  /\ (is_non_direction_pressed s e = true ->
      type (internal_event e) = SDL_KEYDOWN
      \/ type (internal_event e) = SDL_CONTROLLERBUTTONDOWN
      \/ type (internal_event e) = SDL_MOUSEBUTTONDOWN).
Proof.
  unfold is_non_direction_pressed, is_pressed, is_released, is_direction_pressed.
  destruct (is_keyboard_direction_key_pressed s e) eqn:Hdir.
  { apply is_keyboard_key_pressed_keys_type in Hdir.
    unfold is_keyboard_key_pressed, is_keyboard_key_released,
      is_joypad_button_pressed, is_joypad_button_released,
      is_joypad_axis_moved, is_mouse_button_pressed, is_mouse_button_released,
      is_joypad_hat_moved.
    rewrite Hdir. cbn. rewrite !andb_false_r. repeat split; try discriminate. }
  unfold is_keyboard_key_pressed, is_keyboard_key_released,
    is_joypad_button_pressed, is_joypad_button_released,
    is_joypad_axis_centered, is_joypad_axis_moved, is_mouse_button_pressed,
    is_mouse_button_released, is_joypad_hat_moved.
  cbn [andb orb]. rewrite !orb_false_r.
  destruct (Z.eqb_spec (type (internal_event e)) SDL_KEYDOWN) as [->|Hkd];
    [cbn; rewrite ?andb_false_r; repeat split; try discriminate; auto|].
  destruct (Z.eqb_spec (type (internal_event e)) SDL_CONTROLLERAXISMOTION)
    as [->|Hax].
  { cbn. destruct (Float.eqb _ _); cbn; repeat split; try discriminate. }
  destruct (Z.eqb_spec (type (internal_event e)) SDL_CONTROLLERBUTTONDOWN)
    as [->|Hbd];
    [cbn; repeat split; try discriminate; auto|].
  destruct (Z.eqb_spec (type (internal_event e)) SDL_MOUSEBUTTONDOWN)
    as [->|Hmd];
    [cbn; repeat split; try discriminate; auto|].
  cbn. repeat split; discriminate.
Qed.
End Pressing_properties.

(** ** Simulated keys *)

Section Keys.

Context {headers : Headers} {collaborators : Collaborators}.

Lemma names_complete key : exists name, In (key, name) KeyboardKey.names.
Proof.
  destruct key; eexists; unfold KeyboardKey.names;
    repeat first [left; reflexivity | right].
Qed.

Lemma get_keyboard_key_found s e key :
  is_keyboard_event s e = true ->
  key_keysym_sym (internal_event e) = keycode key ->
  KeyboardKey_eqb (get_keyboard_key s e) key = true.
Proof.
  intros Hev Hsym. unfold get_keyboard_key. rewrite Hev. cbn [negb].
  rewrite Hsym.
  destruct (List.find _ KeyboardKey.names) as [entry|] eqn:Hfind.
  - apply List.find_some in Hfind as [_ Hfind]. exact Hfind.
  - destruct (names_complete key) as [name Hin].
    apply (List.find_none _ _ Hfind) in Hin. cbn in Hin.
    now rewrite Z.eqb_refl in Hin.
Qed.

Lemma simulated_press_polled key w :
  sdl_queue (input w) = [] ->
  (simulate_key_pressed key ;; get_event) w
  = Return
      (Some {| internal_event :=
                 if bool_decide (keycode key ∈ keys_pressed (input w))
                 then SDL.set_key_repeat 1 (SDL.key_event SDL_KEYDOWN (keycode key))
                 else SDL.key_event SDL_KEYDOWN (keycode key) |})
      (with_input
         (fun s => with_sdl_queue []
                     (with_keys_pressed ({[keycode key]} ∪ keys_pressed s) s))
         w).
Proof.
  intros Hq. destruct w as [s m h]. cbn [input] in Hq.
  unfold simulate_key_pressed, SDL_PushEvent, get_event, SDL_PollEvent,
    get_event_switch, bind, modify_input, get_input, ret, with_input.
  cbn [input main_loop trace sdl_queue with_sdl_queue]. rewrite Hq.
  cbn [app type SDL.key_event Z.eqb Pos.eqb SDL_KEYDOWN key_keysym_sym
       set_insert keys_pressed with_sdl_queue input main_loop trace].
  destruct (bool_decide (keycode key ∈ keys_pressed s)); reflexivity.
Qed.

Lemma simulated_release_polled key w :
  sdl_queue (input w) = [] ->
  (simulate_key_released key ;; get_event) w
  = Return
      (Some {| internal_event :=
                 if bool_decide (keycode key ∈ keys_pressed (input w))
                 then SDL.key_event SDL_KEYUP (keycode key)
                 else SDL.set_key_repeat 1 (SDL.key_event SDL_KEYUP (keycode key)) |})
      (with_input
         (fun s => with_sdl_queue []
                     (with_keys_pressed (keys_pressed s ∖ {[keycode key]}) s))
         w).
Proof.
  intros Hq. destruct w as [s m h]. cbn [input] in Hq.
  unfold simulate_key_released, SDL_PushEvent, get_event, SDL_PollEvent,
    get_event_switch, bind, modify_input, get_input, ret, with_input.
  cbn [input main_loop trace sdl_queue with_sdl_queue]. rewrite Hq.
  cbn [app type SDL.key_event Z.eqb Pos.eqb SDL_KEYDOWN SDL_KEYUP
       key_keysym_sym set_erase keys_pressed with_sdl_queue input main_loop
       trace].
  destruct (bool_decide (keycode key ∈ keys_pressed s)); reflexivity.
Qed.

(** X3.  A key press simulated while the queue is empty is the next event
    received, as a press of that key; when the key is already held down the
    event is marked as a repeat, and is no keyboard event at all unless
    repeats are enabled.  The release simulated next is received as a release
    of that key, which is then no longer held down. *)
Theorem simulated_key_press_is_received (key : KeyboardKey.Enum)
    (w : World) :
  sdl_queue (input w) = [] ->
  exists e w',
    (simulate_key_pressed key ;; get_event) w = Return (Some e) w'
    /\ sdl_queue (input w') = []
    /\ keys_pressed (input w') = {[keycode key]} ∪ keys_pressed (input w)
    /\ (keycode key ∉ keys_pressed (input w) ->
        is_keyboard_key_pressed_key (input w') e key = true)
    /\ (keycode key ∈ keys_pressed (input w) ->
        is_keyboard_key_pressed_key (input w') e key
        = repeat_keyboard (input w)
        /\ (repeat_keyboard (input w) = false ->
            is_keyboard_event (input w') e = false
            /\ get_keyboard_key (input w') e = KeyboardKey.NONE))
    /\ exists e' w'',
         (simulate_key_released key ;; get_event) w' = Return (Some e') w''
         /\ is_keyboard_key_released_key (input w'') e' key = true
         /\ keys_pressed (input w'')
            = keys_pressed (input w) ∖ {[keycode key]}.
Proof.
  intros Hq. eexists _, _. split; [apply (simulated_press_polled key w Hq)|].
  split; [reflexivity|]. split; [reflexivity|].
  cbn [input with_input]. split; [|split].
  - intros Hnew. rewrite (bool_decide_eq_false_2 _ Hnew).
    unfold is_keyboard_key_pressed_key. apply andb_true_iff. split.
    + reflexivity.
    + apply get_keyboard_key_found; reflexivity.
  - intros Hold. rewrite (bool_decide_eq_true_2 _ Hold).
    match goal with
    | |- is_keyboard_key_pressed_key ?s' ?e key = _ /\ _ =>
        assert (Hev : is_keyboard_event s' e = repeat_keyboard (input w))
          by reflexivity;
        assert (Hpressed :
                  is_keyboard_key_pressed s' e = repeat_keyboard (input w))
          by reflexivity
    end.
    split.
    + unfold is_keyboard_key_pressed_key. rewrite Hpressed.
      destruct (repeat_keyboard (input w)) eqn:Hrepeat; [|reflexivity].
      cbn [andb]. apply get_keyboard_key_found; [exact Hev | reflexivity].
    + intros Hrepeat. rewrite Hrepeat in Hev. split; [exact Hev|].
      unfold get_keyboard_key. now rewrite Hev.
  - eexists _, _. split; [now apply simulated_release_polled|].
    cbn [input with_input keys_pressed with_sdl_queue with_keys_pressed].
    assert (Hin : keycode key ∈ ({[keycode key]} ∪ keys_pressed (input w)
                                 : gset Z)).
    { apply elem_of_union. left. now apply elem_of_singleton. }
    rewrite (bool_decide_eq_true_2 _ Hin). split.
    + unfold is_keyboard_key_released_key. apply andb_true_iff. split.
      * reflexivity.
      * apply get_keyboard_key_found; reflexivity.
    + apply set_eq. intros x.
      rewrite !elem_of_difference, elem_of_union, elem_of_singleton. tauto.
Qed.

End Keys.

(** ** The names of the keys *)

Lemma same_name_from_spec {K} (table : list (K * string)) :
  forall i j k name e,
    table !! k = Some e -> snd e = name ->
    (i, (j + k)%nat) ∈ same_name_from i j name table.
Proof.
  induction table as [|entry rest IH]; intros i j k name e Hk Hname;
    [discriminate|].
  cbn [same_name_from]. apply elem_of_app. destruct k as [|k].
  - left. injection Hk as ->. rewrite Hname, String.eqb_refl.
    rewrite Nat.add_0_r. now apply list_elem_of_singleton.
  - right. replace (j + S k)%nat with (S j + k)%nat by lia.
    now apply (IH i (S j) k name e).
Qed.

Lemma same_names_from_spec {K} (table : list (K * string)) :
  forall n i j e1 e2,
    (i < j)%nat -> table !! i = Some e1 -> table !! j = Some e2 ->
    snd e1 = snd e2 ->
    ((n + i)%nat, (n + j)%nat) ∈ same_names_from n table.
Proof.
  induction table as [|entry rest IH]; intros n i j e1 e2 Hij H1 H2 Hname;
    [discriminate|].
  cbn [same_names_from]. apply elem_of_app. destruct i as [|i].
  - left. injection H1 as ->. destruct j as [|j]; [lia|].
    rewrite Nat.add_0_r. replace (n + S j)%nat with (S n + j)%nat by lia.
    now apply (same_name_from_spec rest n (S n) j (snd e1) e2).
  - right. destruct j as [|j]; [lia|].
    replace (n + S i)%nat with (S n + i)%nat by lia.
    replace (n + S j)%nat with (S n + j)%nat by lia.
    apply (IH (S n) i j e1 e2); [lia | assumption..].
Qed.

(** X4.  The names of the keys are pairwise distinct, but for one pair:
    [PERIOD] and [COLON] are both named ".". *)
Theorem key_names_are_distinct_but_for_colon (i j : nat)
    (k1 k2 : KeyboardKey.Enum) (name : string) :
  (i < j)%nat ->
  KeyboardKey.names !! i = Some (k1, name) ->
  KeyboardKey.names !! j = Some (k2, name) ->
  name = "." /\ k1 = KeyboardKey.PERIOD /\ k2 = KeyboardKey.COLON.
Proof.
  intros Hij H1 H2.
  pose proof (same_names_from_spec KeyboardKey.names 0 i j _ _ Hij H1 H2
                eq_refl) as Hin.
  change (same_names_from 0 KeyboardKey.names)
    with (same_names KeyboardKey.names) in Hin.
  assert (Hpairs : same_names KeyboardKey.names = [(20, 32)]%nat)
    by (vm_compute; reflexivity).
  rewrite Hpairs in Hin. apply list_elem_of_singleton in Hin.
  injection Hin as -> ->. cbn in H1, H2.
  injection H1 as <- <-. injection H2 as <-. auto.
Qed.

(** ** Joypads *)

Section Joypad_properties.

Context {headers : Headers} {collaborators : Collaborators}.

Lemma names_a_joypad_cases ev :
  names_a_joypad ev = true ->
  type ev = SDL_CONTROLLERAXISMOTION \/ type ev = SDL_CONTROLLERBUTTONUP
  \/ type ev = SDL_CONTROLLERBUTTONDOWN
  \/ type ev = SDL_CONTROLLERDEVICEREMOVED.
Proof.
  unfold names_a_joypad. rewrite !orb_true_iff, !Z.eqb_eq. tauto.
Qed.

Lemma notify_joypad_unknown e w :
  names_a_joypad (internal_event e) = true ->
  joypads (input w) !! controller_which (internal_event e) = None ->
  notify_joypad e w = Throw "std::out_of_range" w.
Proof.
  intros Hty Hnone. apply names_a_joypad_cases in Hty.
  unfold notify_joypad, joypads_at, caxis_which, cbutton_which, bind,
    get_input.
  destruct Hty as [Hty|[Hty|[Hty|Hty]]]; rewrite Hty; cbn; now rewrite Hnone.
Qed.

Lemma get_event_passes w ev q :
  sdl_queue (input w) = ev :: q ->
  SDL_CONTROLLERAXISMOTION <= type ev <= SDL_CONTROLLERDEVICEREMAPPED ->
  get_event w
  = Return (Some {| internal_event := ev |}) (with_input (with_sdl_queue q) w).
Proof.
  intros Hq Hty. unfold get_event, SDL_PollEvent, bind, get_input.
  rewrite Hq. cbn -[Z.eqb]. unfold get_event_switch.
  unfold SDL_CONTROLLERAXISMOTION, SDL_CONTROLLERDEVICEREMAPPED in Hty.
  repeat match goal with
  | |- context [type ev =? ?c] =>
      destruct (Z.eqb_spec (type ev) c) as [E|_];
      [exfalso; revert E;
       unfold SDL_KEYDOWN, SDL_KEYUP, SDL_JOYBUTTONDOWN, SDL_JOYBUTTONUP,
         SDL_MOUSEBUTTONDOWN, SDL_MOUSEBUTTONUP; lia|]
  end.
  destruct w as [s m h]. cbn. reflexivity.
Qed.

(** [check_input] on a queue that begins with an event of an unknown
    joypad. *)
Lemma check_input_unknown_joypad w ev q :
  sdl_queue (input w) = ev :: q ->
  names_a_joypad ev = true ->
  joypads (input w) !! controller_which ev = None ->
  exists w',
    check_input w = Throw "std::out_of_range" w'
    /\ sdl_queue (input w') = q
    /\ joypads (input w') = joypads (input w)
    /\ main_loop w' = main_loop w
    /\ adds fallback_effect (trace w) (trace w')
    /\ (type ev <> SDL_CONTROLLERDEVICEREMOVED -> trace w' = trace w).
Proof.
  intros Hq Hty Hnone.
  pose proof (names_a_joypad_cases ev Hty) as Hcases.
  assert (Hrange :
    SDL_CONTROLLERAXISMOTION <= type ev <= SDL_CONTROLLERDEVICEREMAPPED).
  { unfold SDL_CONTROLLERAXISMOTION, SDL_CONTROLLERDEVICEREMAPPED.
    destruct Hcases as [H|[H|[H|H]]]; rewrite H; cbv; split; discriminate. }
  set (e := {| internal_event := ev |}).
  assert (Hinput : exists w',
    notify_input e (with_input (with_sdl_queue q) w)
    = Throw "std::out_of_range" w'
    /\ sdl_queue (input w') = q
    /\ joypads (input w') = joypads (input w)
    /\ main_loop w' = main_loop w
    /\ adds fallback_effect (trace w) (trace w')
    /\ (type ev <> SDL_CONTROLLERDEVICEREMOVED -> trace w' = trace w)).
  { unfold notify_input, notify_input_chain.
    unfold bind at 1. unfold bind at 1. unfold get_main_loop at 1.
    unfold bind at 1. unfold get_input at 1.
    cbn [input main_loop trace with_input].
    assert (Hclosing : is_window_closing e = false).
    { unfold is_window_closing, e. cbn.
      destruct Hcases as [H|[H|[H|H]]]; rewrite H; reflexivity. }
    assert (Hwindow : (type ev =? SDL_WINDOWEVENT) = false).
    { destruct Hcases as [H|[H|[H|H]]]; rewrite H; reflexivity. }
    assert (Hkey : (type ev =? SDL_KEYDOWN) = false).
    { destruct Hcases as [H|[H|[H|H]]]; rewrite H; reflexivity. }
    assert (Hcontroller : is_controller_event e = true).
    { unfold is_controller_event, e. cbn.
      apply andb_true_iff. split; apply Z.leb_le; lia. }
    rewrite Hclosing.
    unfold is_window_resizing, is_window_focus_lost, is_window_focus_gained,
      is_keyboard_key_pressed.
    cbn [internal_event e]. rewrite Hwindow, Hkey. cbn [andb].
    rewrite !andb_false_r. rewrite Hcontroller.
    unfold bind at 1. unfold bind at 1. unfold history at 1.
    set (s := with_sdl_queue q (input w)).
    assert (Hjoy : forall w0,
      input w0 = s ->
      notify_joypad e w0 = Throw "std::out_of_range" w0).
    { intros w0 Hw0. apply notify_joypad_unknown; [exact Hty|].
      rewrite Hw0. exact Hnone. }
    unfold when at 1.
    match goal with
    | |- context [if ?c then _ else ret tt] => destruct c eqn:Hfallback
    end.
    - unfold bind at 1.
      destruct (other_joypad s (get_joypad s e)) as [joy|].
      + cbn. unfold bind at 1. rewrite Hjoy by reflexivity.
        eexists. split; [reflexivity|]. cbn.
        repeat split.
        * eexists [_; _]. rewrite <- app_assoc. split; [reflexivity|].
          repeat constructor.
        * intros Hne. exfalso. apply andb_true_iff in Hfallback as [H _].
          apply andb_true_iff in H as [H _].
          apply andb_true_iff in H as [_ H].
          unfold is_joypad_removed, e in H. cbn in H.
          now apply Z.eqb_eq in H.
      + cbn. unfold bind at 1. rewrite Hjoy by reflexivity.
        eexists. split; [reflexivity|]. cbn.
        repeat split.
        * eexists [_]. split; [reflexivity|]. repeat constructor.
        * intros Hne. exfalso. apply andb_true_iff in Hfallback as [H _].
          apply andb_true_iff in H as [H _].
          apply andb_true_iff in H as [_ H].
          unfold is_joypad_removed, e in H. cbn in H.
          now apply Z.eqb_eq in H.
    - cbn. unfold bind at 1. rewrite Hjoy by reflexivity.
      eexists. split; [reflexivity|]. cbn.
      repeat split. apply adds_refl. }
  destruct Hinput as (w' & Hrun & Hqueue & Hjoypads & Hloop & Hadds & Hsame).
  assert (Hcheck : check_input w = Throw "std::out_of_range" w').
  { unfold check_input. unfold bind at 1, get_input at 1.
    unfold bind at 1. rewrite Hq.
    cbn [pending_bound check_sdl_events]. unfold bind at 1.
    rewrite (get_event_passes w ev q Hq Hrange).
    unfold bind at 1. fold e. now rewrite Hrun. }
  exists w'. repeat split; assumption.
Qed.

(** X5.  An axis, button or removal event that names a joypad which is
    not in [joypads] makes [joypads.at] throw [std::out_of_range]:
    [notify_joypad] does not return, and neither do [check_input] nor the
    frame that called it, be it a frame of [dynamic_run] or, once it has
    measured the time, a frame of [fixed_run].  The event is taken off the
    queue, and the exception leaves the main loop and the joypads as they
    were. *)
Theorem event_of_unknown_joypad_throws (w : World) (ev : SDL_Event)
    (q : list SDL_Event) :
  sdl_queue (input w) = ev :: q ->
  names_a_joypad ev = true ->
  joypads (input w) !! controller_which ev = None ->
  notify_joypad {| internal_event := ev |} w = Throw "std::out_of_range" w
  /\ (exists w',
        check_input w = Throw "std::out_of_range" w'
        /\ (forall st, dynamic_frame st w = Throw "std::out_of_range" w')
        /\ sdl_queue (input w') = q
        /\ joypads (input w') = joypads (input w)
        /\ main_loop w' = main_loop w
        /\ adds fallback_effect (trace w) (trace w')
        /\ (type ev <> SDL_CONTROLLERDEVICEREMOVED -> trace w' = trace w))
  /\ (forall st,
        exists st1 measured w',
          fixed_measure st w = Return st1 measured
          /\ check_input measured = Throw "std::out_of_range" w'
          /\ fixed_frame st w = Throw "std::out_of_range" w'
          /\ sdl_queue (input w') = q
          /\ joypads (input w') = joypads (input w)
          /\ main_loop w' = main_loop w
          /\ adds fallback_effect (trace measured) (trace w')
          /\ (type ev <> SDL_CONTROLLERDEVICEREMOVED ->
              trace w' = trace measured)).
Proof.
  intros Hq Hty Hnone. split; [now apply notify_joypad_unknown|]. split.
  - destruct (check_input_unknown_joypad w ev q Hq Hty Hnone)
      as (w' & Hcheck & Hrest).
    exists w'. split; [exact Hcheck|]. split; [|exact Hrest].
    intros st. unfold dynamic_frame. unfold bind at 1. now rewrite Hcheck.
  - intros st.
    destruct (fixed_measure_post st w)
      as (st1 & measured & Hmeasure & Hinput & Hloop & _).
    destruct (check_input_unknown_joypad measured ev q)
      as (w' & Hcheck & Hqueue & Hjoypads & Hloop' & Hrest);
      [now rewrite Hinput | exact Hty | now rewrite Hinput|].
    exists st1, measured, w'. split; [exact Hmeasure|].
    split; [exact Hcheck|]. split.
    { unfold fixed_frame. unfold bind at 1. rewrite Hmeasure.
      unfold bind at 1. now rewrite Hcheck. }
    split; [exact Hqueue|]. split; [now rewrite Hjoypads, Hinput|].
    split; [now rewrite Hloop', Hloop | exact Hrest].
Qed.

(** X6.  A joypad that is plugged in is opened, stored under the instance
    id of its joystick, recorded in [jindex2id] and announced to Lua, and the
    event counts as handled; the same event received again does nothing and is
    not handled. *)
Theorem joypad_is_added_once (e : InputEvent) (w : World) :
  type (internal_event e) = SDL_CONTROLLERDEVICEADDED ->
  let i := cdevice_which (internal_event e) in
  let s := input w in
  (joypads s !! joypad_id_from_index s i <> None ->
   notify_joypad e w = Return false w)
  /\ (joypads s !! joypad_id_from_index s i = None ->
      let h := trace w ++ [SDL_GameControllerOpen i; SDL_JoystickOpen i] in
      let id := SDL_JoystickInstanceID h i in
      let joy := default (make_shared_Joypad h) (joypads s !! id) in
      exists w',
        notify_joypad e w = Return true w'
        /\ trace w' = h ++ [Lua_input_on_joypad_connected joy]
        /\ joypads (input w') = <[id := joy]> (joypads s)
        /\ jindex2id (input w') = <[i := id]> (jindex2id s)
        /\ get_joypad (input w') e = Some joy
        /\ notify_joypad e w' = Return false w').
Proof.
  intros Hty i s.
  assert (Hrun : forall w0,
    notify_joypad e w0
    = (let s := input w0 in
       let i := cdevice_which (internal_event e) in
       if bool_decide (joypads s !! joypad_id_from_index s i <> None)
       then Return false w0
       else
         let h := trace w0 ++ [SDL_GameControllerOpen i; SDL_JoystickOpen i] in
         let id := SDL_JoystickInstanceID h i in
         let joy := default (make_shared_Joypad h) (joypads s !! id) in
         Return true
           (with_main_loop
              (requested
                 (script_requests (h ++ [Lua_input_on_joypad_connected joy])))
              (with_trace (fun _ => h ++ [Lua_input_on_joypad_connected joy])
                 (with_input
                    (with_joypads (<[id := joy]> (joypads s))
                       (<[i := id]> (jindex2id s))) w0))))).
  { intros w0. unfold notify_joypad. rewrite Hty.
    cbn [Z.eqb SDL_CONTROLLERDEVICEADDED SDL_CONTROLLERAXISMOTION
         SDL_CONTROLLERBUTTONUP SDL_CONTROLLERBUTTONDOWN Pos.eqb].
    unfold bind at 1, get_input at 1. cbv zeta.
    match goal with |- context [if ?c then _ else _] => destruct c end;
      [reflexivity|].
    unfold bind, emit, history, modify_input. cbn [trace with_trace].
    rewrite scripts_eq. destruct w0 as [s0 m0 h0].
    unfold with_main_loop, with_input, with_trace.
    cbn [trace input main_loop]. rewrite <- !app_assoc. reflexivity. }
  split.
  - intros Hknown. rewrite Hrun. cbv zeta. fold s i.
    match goal with |- context [if ?c then _ else _] => destruct c eqn:Hd end;
      [reflexivity|].
    apply bool_decide_eq_false in Hd. contradiction.
  - intros Hnew. cbv zeta. eexists. rewrite Hrun. cbv zeta. fold s i.
    match goal with |- context [if ?c then _ else _] => destruct c eqn:Hd end;
      [apply bool_decide_eq_true in Hd; contradiction|]. clear Hd.
    split; [reflexivity|].
    set (h := trace w ++ [SDL_GameControllerOpen i; SDL_JoystickOpen i]).
    set (id := SDL_JoystickInstanceID h i).
    set (joy := default (make_shared_Joypad h) (joypads s !! id)).
    set (s' := with_joypads (<[id := joy]> (joypads s))
                 (<[i := id]> (jindex2id s)) s).
    split; [reflexivity|]. split; [reflexivity|]. split; [reflexivity|].
    cbn [input with_main_loop with_input with_trace]. fold s'.
    assert (Hlookup : joypad_id_from_index s' i = id).
    { unfold joypad_id_from_index, s'. cbn [jindex2id with_joypads].
      now rewrite lookup_insert_eq. }
    assert (Hjoy : joypads s' !! id = Some joy).
    { unfold s'. cbn [joypads with_joypads]. apply lookup_insert_eq. }
    split.
    + unfold get_joypad, is_controller_event. rewrite Hty.
      cbn [Z.eqb Z.leb Z.compare Pos.compare Pos.compare_cont
           SDL_CONTROLLERDEVICEADDED SDL_CONTROLLERAXISMOTION
           SDL_CONTROLLERBUTTONUP SDL_CONTROLLERBUTTONDOWN
           SDL_CONTROLLERDEVICEREMAPPED Pos.eqb andb negb orb].
      fold i s. fold s'. now rewrite Hlookup.
    + rewrite Hrun. cbv zeta.
      cbn [input with_main_loop with_input with_trace]. fold i s. fold s'.
      rewrite Hlookup.
      match goal with |- context [if ?c then _ else _] => destruct c eqn:Hin end;
        [reflexivity|].
      apply bool_decide_eq_false in Hin.
      exfalso. apply Hin. now rewrite Hjoy.
Qed.

(** X7.  A joypad that is unplugged is reset and announced to Lua, then
    erased from [joypads], and the whole of [jindex2id] is cleared with it, so
    that no index names a joypad any more; the same event received again
    throws [std::out_of_range]. *)
Theorem joypad_is_removed (e : InputEvent) (w : World) (joy : JoypadPtr) :
  type (internal_event e) = SDL_CONTROLLERDEVICEREMOVED ->
  let id := controller_which (internal_event e) in
  joypads (input w) !! id = Some joy ->
  let handled := on_joypad_removed (trace w ++ [Joypad_reset joy]) joy in
  exists w',
    notify_joypad e w = Return handled w'
    /\ trace w'
       = trace w ++ [Joypad_reset joy; Lua_on_joypad_removed joy handled]
    /\ joypads (input w') = delete id (joypads (input w))
    /\ jindex2id (input w') = ∅
    /\ get_joypad (input w') e = None
    /\ (forall i, joypad_id_from_index (input w') i = -1)
    /\ notify_joypad e w' = Throw "std::out_of_range" w'.
Proof.
  intros Hty id Hjoy handled. unfold notify_joypad at 1. rewrite Hty.
  cbn [Z.eqb SDL_CONTROLLERDEVICEADDED SDL_CONTROLLERAXISMOTION
       SDL_CONTROLLERBUTTONUP SDL_CONTROLLERBUTTONDOWN
       SDL_CONTROLLERDEVICEREMOVED Pos.eqb].
  unfold joypads_at, cbutton_which, caxis_which. fold id.
  unfold bind at 1. unfold bind at 1. unfold get_input at 1. rewrite Hjoy.
  unfold bind, emit, history, modify_input, get_input, ret.
  cbn [trace with_trace]. rewrite scripts_eq.
  eexists. split; [reflexivity|].
  cbn [trace input main_loop with_main_loop with_input with_trace
       joypads jindex2id with_joypads].
  rewrite <- !app_assoc. cbn [app].
  split; [reflexivity|]. split; [reflexivity|]. split; [reflexivity|].
  assert (Hgone : delete id (joypads (input w)) !! id = None)
    by apply lookup_delete_eq.
  split.
  { unfold get_joypad, is_controller_event. rewrite Hty.
    cbn [Z.eqb Z.leb Z.compare Pos.compare Pos.compare_cont
           SDL_CONTROLLERDEVICEADDED SDL_CONTROLLERAXISMOTION
           SDL_CONTROLLERBUTTONUP SDL_CONTROLLERBUTTONDOWN
           SDL_CONTROLLERDEVICEREMOVED
           SDL_CONTROLLERDEVICEREMAPPED Pos.eqb andb negb orb].
    unfold cdevice_which. fold id. cbn [joypads with_joypads]. exact Hgone. }
  split.
  { intros i. unfold joypad_id_from_index. cbn [jindex2id with_joypads].
    now rewrite lookup_empty. }
  apply notify_joypad_unknown.
  - unfold names_a_joypad. rewrite Hty. reflexivity.
  - cbn [input with_main_loop with_input joypads with_joypads]. exact Hgone.
Qed.

End Joypad_properties.

Section Other_joypad.

Context {headers : Headers} {collaborators : Collaborators}.

#[local] Instance key_le_total {V} : Total (@key_le V).
Proof. intros p q. unfold key_le. lia. Qed.

#[local] Instance key_le_transitive {V} : Transitive (@key_le V).
Proof. intros p q r. unfold key_le. lia. Qed.

Lemma in_key_order_lookup {V} (m : gmap Z V) id x :
  (id, x) ∈ in_key_order m <-> m !! id = Some x.
Proof.
  unfold in_key_order. rewrite merge_sort_Permutation.
  apply elem_of_map_to_list.
Qed.

Lemma find_first_of_sorted {A} (R : relation A) (f : A -> bool) l x :
  StronglySorted R l -> List.find f l = Some x ->
  x ∈ l /\ f x = true /\ forall y, y ∈ l -> f y = true -> x = y \/ R x y.
Proof.
  induction 1 as [|a l Hsorted IH Hall]; [discriminate|]. cbn.
  destruct (f a) eqn:Hfa.
  - intros [= ->]. split; [apply elem_of_cons; now left|]. split; [exact Hfa|].
    intros y Hy _. apply elem_of_cons in Hy as [->|Hy]; [now left|].
    right. rewrite List.Forall_forall in Hall. apply Hall.
    now apply list_elem_of_In.
  - intros Hfind. destruct (IH Hfind) as (Hx & Hfx & Hmin).
    split; [apply elem_of_cons; now right|]. split; [exact Hfx|].
    intros y Hy Hfy. apply elem_of_cons in Hy as [->|Hy]; [congruence|].
    now apply Hmin.
Qed.

Lemma find_none_elem_of {A} (f : A -> bool) l :
  List.find f l = None -> forall y, y ∈ l -> f y = false.
Proof.
  intros Hnone y Hy. apply (List.find_none f l Hnone).
  now apply list_elem_of_In.
Qed.

(** X8.  [other_joypad] never gives the joypad it was told to avoid: it
    gives the joypad of lowest id among the others, and [nullptr] only when
    there is no other. *)
Theorem other_joypad_is_another (s : InputStatics)
    (joypad : option JoypadPtr) :
  match other_joypad s joypad with
  | Some other =>
      Some other <> joypad
      /\ exists id,
           joypads s !! id = Some other
           /\ forall id' joy',
                joypads s !! id' = Some joy' -> Some joy' <> joypad ->
                id <= id'
  | None => forall id joy, joypads s !! id = Some joy -> Some joy = joypad
  end.
Proof.
  unfold other_joypad.
  destruct (List.find _ (in_key_order (joypads s))) as [[id other]|] eqn:Hfind.
  - apply find_first_of_sorted with (R := key_le) in Hfind
      as (Hin & Hother & Hmin).
    2:{ apply StronglySorted_merge_sort; apply _. }
    cbn [snd] in *. apply negb_true_iff, bool_decide_eq_false in Hother.
    split; [exact Hother|]. exists id. split.
    + now apply in_key_order_lookup.
    + intros id' joy' Hjoy' Hne.
      destruct (Hmin (id', joy')) as [Heq|Hle].
      * now apply in_key_order_lookup.
      * cbn. now apply negb_true_iff, bool_decide_eq_false.
      * injection Heq as -> _. lia.
      * exact Hle.
  - intros id joy Hjoy.
    apply find_none_elem_of with (y := (id, joy)) in Hfind.
    + cbn in Hfind. now apply negb_false_iff, bool_decide_eq_true in Hfind.
    + now apply in_key_order_lookup.
Qed.

End Other_joypad.

Section Fallback.

Context {headers : Headers} {collaborators : Collaborators}.

Lemma get_joypad_removed s e :
  type (internal_event e) = SDL_CONTROLLERDEVICEREMOVED ->
  get_joypad s e = joypads s !! controller_which (internal_event e).
Proof.
  intros Hty. unfold get_joypad, is_controller_event. rewrite Hty.
  reflexivity.
Qed.

Lemma chain_removed e w joy :
  type (internal_event e) = SDL_CONTROLLERDEVICEREMOVED ->
  joypads (input w) !! controller_which (internal_event e) = Some joy ->
  let s := input w in
  let main :=
    is_legacy_joypad_enabled s
    && bool_decide (game (main_loop w) <> None)
    && bool_decide (Controls_get_joypad (trace w) = Some joy) in
  let new_joy := other_joypad s (Some joy) in
  let h1 :=
    trace w
    ++ (if main then using_joystick new_joy ++ [Controls_set_joypad new_joy]
        else []) in
  let handled := on_joypad_removed (h1 ++ [Joypad_reset joy]) joy in
  let h2 := h1 ++ [Joypad_reset joy; Lua_on_joypad_removed joy handled] in
  notify_input_chain e w
  = Return handled
      {| input :=
           with_joypads
             (delete (controller_which (internal_event e)) (joypads s)) ∅ s;
         main_loop := requested (script_requests h2) (main_loop w);
         trace := h2 |}.
Proof.
  intros Hty Hjoy. cbv zeta.
  unfold notify_input_chain.
  unfold bind at 1. unfold get_main_loop at 1.
  unfold bind at 1. unfold get_input at 1.
  unfold is_window_closing, is_window_resizing, is_window_focus_lost,
    is_window_focus_gained, is_keyboard_key_pressed, is_controller_event,
    is_joypad_removed, is_joypad_added.
  rewrite Hty.
  cbn [Z.eqb Z.leb Z.compare Pos.compare Pos.compare_cont Pos.eqb
       SDL_QUIT SDL_WINDOWEVENT SDL_KEYDOWN SDL_CONTROLLERDEVICEADDED
       SDL_CONTROLLERAXISMOTION SDL_CONTROLLERDEVICEREMOVED
       SDL_CONTROLLERDEVICEREMAPPED andb negb orb].
  rewrite !andb_false_r. cbn [andb].
  rewrite (get_joypad_removed _ _ Hty), Hjoy.
  rewrite andb_true_r.
  unfold bind at 1. unfold bind at 1. unfold history at 1.
  destruct w as [s m h]. cbn [input main_loop trace] in *.
  assert (Hnotify : forall h0,
    notify_joypad e {| input := s; main_loop := m; trace := h0 |}
    = let handled := on_joypad_removed (h0 ++ [Joypad_reset joy]) joy in
      let h2 := h0 ++ [Joypad_reset joy; Lua_on_joypad_removed joy handled] in
      Return handled
        {| input :=
             with_joypads
               (delete (controller_which (internal_event e)) (joypads s)) ∅ s;
           main_loop := requested (script_requests h2) m;
           trace := h2 |}).
  { intros h0. unfold notify_joypad. rewrite Hty.
    cbn [Z.eqb Pos.eqb SDL_CONTROLLERDEVICEADDED SDL_CONTROLLERAXISMOTION
         SDL_CONTROLLERBUTTONUP SDL_CONTROLLERBUTTONDOWN
         SDL_CONTROLLERDEVICEREMOVED].
    unfold joypads_at, cbutton_which, caxis_which.
    unfold bind at 1. unfold bind at 1. unfold get_input at 1.
    cbn [input]. rewrite Hjoy.
    unfold bind, emit, history, modify_input, get_input, ret.
    cbn [trace with_trace]. rewrite scripts_eq.
    unfold with_main_loop, with_input, with_trace.
    cbn [trace input main_loop]. rewrite <- !app_assoc. reflexivity. }
  assert (Hrest : forall b1 b2 b3, b1 && false && b2 && b3 = false)
    by (intros; now rewrite andb_false_r).
  destruct (is_legacy_joypad_enabled s && bool_decide (game m <> None)
            && bool_decide (Controls_get_joypad h = Some joy)) eqn:Hmain.
  - unfold when at 1.
    unfold using_joystick.
    destruct (other_joypad s (Some joy)) as [other|]; cbn [app].
    + unfold bind at 1. unfold bind at 1.
      unfold emit at 1 2. unfold with_trace. cbn [trace input main_loop].
      unfold bind at 1. rewrite Hnotify. cbv zeta.
      unfold bind, history, get_input, get_main_loop, when, ret.
      rewrite Hrest.
      rewrite <- !app_assoc. reflexivity.
    + unfold bind at 1. unfold bind at 1. unfold ret at 1.
      unfold emit at 1. unfold with_trace. cbn [trace input main_loop].
      unfold bind at 1. rewrite Hnotify. cbv zeta.
      unfold bind, history, get_input, get_main_loop, when, ret.
      rewrite Hrest.
      rewrite <- !app_assoc. reflexivity.
  - unfold when at 1.
    unfold bind at 1. unfold ret at 1.
    unfold bind at 1. rewrite Hnotify. cbv zeta.
    unfold bind, history, get_input, get_main_loop, when, ret.
    rewrite Hrest.
    rewrite app_nil_r. reflexivity.
Qed.

Lemma other_joypad_differs s joypad other :
  other_joypad s joypad = Some other -> Some other <> joypad.
Proof.
  unfold other_joypad.
  destruct (List.find _ _) as [[id joy]|] eqn:Hfind; [|discriminate].
  intros [= <-]. apply List.find_some in Hfind as [_ Hfind].
  cbn in Hfind. now apply negb_true_iff, bool_decide_eq_false in Hfind.
Qed.

(** X9.  When a joypad is unplugged while a game runs with legacy joypads
    enabled, and it is the joypad of the controls, the controls are given
    another joypad, or none when there is no other, before the joypad is reset
    and Lua is told; the joypad they are given is never the one that goes.
    When it is not the joypad of the controls, the controls are left alone. *)
Theorem controls_fall_back_when_their_joypad_is_removed (e : InputEvent)
    (w : World) (joy : JoypadPtr) :
  type (internal_event e) = SDL_CONTROLLERDEVICEREMOVED ->
  joypads (input w) !! controller_which (internal_event e) = Some joy ->
  legacy_joypad_enabled (input w) = true ->
  game (main_loop w) <> None ->
  let new_joy := other_joypad (input w) (Some joy) in
  exists w' handled lua_handled game_handled,
    notify_input e w = Return tt w'
    /\ joypads (input w')
       = delete (controller_which (internal_event e)) (joypads (input w))
    /\ new_joy <> Some joy
    /\ (Controls_get_joypad (trace w) = Some joy ->
        trace w'
        = trace w ++ using_joystick new_joy
          ++ [Controls_set_joypad new_joy; Joypad_reset joy;
              Lua_on_joypad_removed joy handled]
          ++ forwarded e handled true lua_handled game_handled)
    /\ (Controls_get_joypad (trace w) <> Some joy ->
        trace w'
        = trace w
          ++ [Joypad_reset joy; Lua_on_joypad_removed joy handled]
          ++ forwarded e handled true lua_handled game_handled).
Proof.
  intros Hty Hjoy Hlegacy Hgame new_joy.
  pose proof (chain_removed e w joy Hty Hjoy) as Hchain. cbv zeta in Hchain.
  unfold is_legacy_joypad_enabled in Hchain.
  rewrite Hlegacy, (bool_decide_eq_true_2 _ Hgame) in Hchain.
  cbn [andb] in Hchain. fold new_joy in Hchain.
  unfold notify_input. unfold bind at 1. rewrite Hchain.
  match goal with
  | |- context [notify_input_forward e ?handled ?w1] =>
      destruct (forward_trace e handled w1)
        as ([] & w' & Hrun & lua & gm & Htrace & _);
      exists w', handled, lua, gm
  end.
  split; [exact Hrun|].
  cbn [trace main_loop] in Htrace. rewrite requested_game in Htrace.
  rewrite (bool_decide_eq_true_2 _ Hgame) in Htrace.
  assert (Hinput : input w'
    = with_joypads
        (delete (controller_which (internal_event e)) (joypads (input w)))
        ∅ (input w)).
  { revert Hrun. unfold notify_input_forward. clear.
    unfold bind, history, emit, get_main_loop, when, ret.
    repeat (rewrite ?scripts_eq;
            match goal with
            | |- context [if ?c then _ else _] => destruct c
            end; cbn [main_loop input trace with_trace with_main_loop]);
      rewrite ?scripts_eq; intros [= <-]; reflexivity. }
  split; [now rewrite Hinput|].
  split.
  { destruct new_joy as [other|] eqn:Hother; [|discriminate].
    now apply other_joypad_differs in Hother. }
  split.
  - intros Hmain. rewrite (bool_decide_eq_true_2 _ Hmain) in Htrace |- *.
    rewrite Htrace, <- !app_assoc. cbn [app]. reflexivity.
  - intros Hmain. rewrite (bool_decide_eq_false_2 _ Hmain) in Htrace |- *.
    rewrite Htrace, !app_nil_r, <- !app_assoc. reflexivity.
Qed.

End Fallback.

(** ** Losing and gaining the focus *)

Section Focus.

Context {headers : Headers} {collaborators : Collaborators}.

Lemma forward_flags event handled w :
  calm ->
  post (notify_input_forward event handled) w
    (fun _ w' =>
       flags (main_loop w') = flags (main_loop w)
       /\ exists lua_handled game_handled,
            trace w'
            = trace w ++ forwarded event handled
                           (bool_decide (game (main_loop w) <> None))
                           lua_handled game_handled).
Proof.
  intros Hcalm. unfold notify_input_forward, forwarded.
  destruct handled; cbn [negb].
  - post_run. split; [reflexivity|]. exists false, false. now rewrite app_nil_r.
  - post_run. rewrite requested_game.
    destruct (lua_notify_input (trace w) event) eqn:Hlua; cbn [negb andb].
    + post_run. rewrite requested_flags by assumption.
      split; [reflexivity|]. now exists true, false.
    + destruct (bool_decide (game (main_loop w) <> None)) eqn:Hgame.
      * post_run.
        match goal with |- context [game_notify_input ?h event] =>
          destruct (game_notify_input h event) eqn:Hg end; cbn [negb].
        -- post_run. rewrite !requested_flags by assumption.
           split; [reflexivity|]. exists false, true.
           now rewrite <- !app_assoc.
        -- post_run. rewrite !requested_flags by assumption.
           split; [reflexivity|]. exists false, false.
           now rewrite <- !app_assoc.
      * post_run. rewrite !requested_flags by assumption.
        split; [reflexivity|]. exists false, false.
        now rewrite <- !app_assoc.
Qed.

Lemma focus_lost_kind event :
  is_window_focus_lost event = true ->
  is_window_closing event = false /\ is_window_resizing event = false
  /\ is_window_focus_gained event = false.
Proof.
  unfold is_window_focus_lost, is_window_closing, is_window_resizing,
    is_window_focus_gained.
  intros H. apply andb_true_iff in H as [Hty Hev].
  apply Z.eqb_eq in Hty, Hev. rewrite Hty, Hev. repeat split.
Qed.

Lemma focus_gained_kind s event :
  is_window_focus_gained event = true ->
  is_window_closing event = false /\ is_window_resizing event = false
  /\ is_window_focus_lost event = false
  /\ is_keyboard_key_pressed s event = false
  /\ is_controller_event event = false.
Proof.
  unfold is_window_focus_lost, is_window_closing, is_window_resizing,
    is_window_focus_gained, is_keyboard_key_pressed, is_controller_event.
  intros H. apply andb_true_iff in H as [Hty Hev].
  apply Z.eqb_eq in Hty, Hev. rewrite Hty, Hev. repeat split.
Qed.

(** X10.  With [suspend_unfocused] set, losing the focus suspends the
    simulation and gaining it resumes it, once: the sounds and the music are
    paused or resumed, and a message is logged, only when the state changes.
    The event then goes on to Lua.  Scripts are taken not to suspend, resume
    or exit meanwhile. *)
Theorem focus_suspends_and_resumes (event : InputEvent) (w : World) :
  calm ->
  suspend_unfocused (main_loop w) = true ->
  is_window_focus_lost event = true \/ is_window_focus_gained event = true ->
  let lost := is_window_focus_lost event in
  exists w' lua_handled later,
    notify_input event w = Return tt w'
    /\ suspended (main_loop w') = lost
    /\ exiting (main_loop w') = exiting (main_loop w)
    /\ trace w'
       = trace w
         ++ (if Bool.eqb (suspended (main_loop w)) lost then []
             else if lost then suspension else resumption)
         ++ Lua_notify_input event lua_handled :: later.
Proof.
  intros Hcalm Hunfocused Hkind. cbv zeta.
  assert (Hchain : post (notify_input_chain event) w
    (fun handled w1 =>
       handled = false
       /\ suspended (main_loop w1) = is_window_focus_lost event
       /\ exiting (main_loop w1) = exiting (main_loop w)
       /\ trace w1
          = trace w
            ++ (if Bool.eqb (suspended (main_loop w))
                     (is_window_focus_lost event) then []
                else if is_window_focus_lost event then suspension
                     else resumption))).
  { unfold notify_input_chain. post_run. rewrite Hunfocused. cbn [andb].
    destruct Hkind as [Hlost|Hgained].
    - destruct (focus_lost_kind event Hlost) as (-> & -> & _).
      rewrite Hlost. unfold is_suspended, set_suspended. post_run.
      destruct (suspended (main_loop w)) eqn:Hsu; post_run;
        cbn [Bool.eqb negb]; post_run.
      + rewrite app_nil_r. now repeat split.
      + rewrite Hsu. cbn [Bool.eqb negb]. post_run.
        rewrite <- !app_assoc. now repeat split.
    - destruct (focus_gained_kind (input w) event Hgained)
        as (-> & -> & Hlost & _).
      rewrite Hlost, Hgained. unfold is_suspended, set_suspended. post_run.
      destruct (suspended (main_loop w)) eqn:Hsu; post_run;
        cbn [Bool.eqb negb]; post_run.
      + rewrite Hsu. cbn [Bool.eqb negb]. post_run.
        rewrite <- !app_assoc. now repeat split.
      + rewrite app_nil_r. now repeat split. }
  destruct Hchain as (handled & w1 & Hrun & -> & Hsu & Hex & Htrace).
  destruct (forward_flags event false w1 Hcalm)
    as ([] & w' & Hrun' & Hflags & lua & gm & Htrace').
  unfold flags in Hflags. injection Hflags as Hex' Hsu' _.
  exists w', lua. eexists.
  unfold notify_input, bind. rewrite Hrun, Hrun'.
  split; [reflexivity|]. split; [congruence|]. split; [congruence|].
  rewrite Htrace', Htrace, <- app_assoc. unfold forwarded. reflexivity.
Qed.

End Focus.

(** ** One step *)

Section Step_properties.

Context {headers : Headers} {collaborators : Collaborators}.

Lemma requested_next_game h m :
  keeps_the_game ->
  next_game (requested (script_requests h) m) = next_game m.
Proof.
  intros Hkeeps. unfold requested. rewrite (Hkeeps h).
  destruct (request_exiting _), (request_suspended _) as [b|]; cbn;
    try destruct (negb _); reflexivity.
Qed.

(** X11.  A step updates the current game, if any, then Lua, then the
    system, and then makes the game that [set_game] asked for the current
    one: a new game is started, and going to no game restarts Lua and stops
    the music.  Afterwards the main loop is not resetting.  Scripts are taken
    not to call [set_game] during the step. *)
Theorem step_goes_to_the_next_game (timestep : Z) (w : World) :
  keeps_the_game ->
  let current := game (main_loop w) in
  let next := next_game (main_loop w) in
  exists w',
    step timestep w = Return tt w'
    /\ game (main_loop w') = next
    /\ next_game (main_loop w') = next
    /\ trace w'
       = trace w
         ++ (if bool_decide (current <> None) then [Game_update] else [])
         ++ [Lua_update; System_update timestep]
         ++ game_change current next
    /\ is_resetting w' = Return false w'.
Proof.
  intros Hkeeps. cbv zeta.
  remember (game (main_loop w)) as current eqn:Hc.
  remember (next_game (main_loop w)) as next eqn:Hn.
  assert (Hstep : post (step timestep) w
    (fun _ w' =>
       game (main_loop w') = next
       /\ next_game (main_loop w') = next
       /\ trace w'
          = trace w
            ++ (if bool_decide (current <> None) then [Game_update] else [])
            ++ [Lua_update; System_update timestep]
            ++ game_change current next)).
  { unfold step, game_change. post_run. rewrite <- Hc.
    destruct (bool_decide (current <> None)) eqn:Hcurrent; post_run;
      rewrite ?requested_game, ?requested_next_game by assumption;
      rewrite <- Hc, <- Hn;
      destruct (bool_decide (next = current)) eqn:Hsame; cbn [negb];
      post_run;
      try (destruct (bool_decide (next <> None)) eqn:Hnext; post_run);
      rewrite ?requested_game, ?requested_next_game by assumption;
      cbn [game next_game with_game];
      rewrite <- ?Hc, <- ?Hn, <- ?app_assoc; cbn [app].
    all: try (apply bool_decide_eq_true in Hsame).
    all: try (apply bool_decide_eq_true in Hnext).
    all: try (apply bool_decide_eq_false in Hnext).
    all: try (destruct next as [g|]; [|now contradict Hnext]).
    all: try (destruct next as [g|]; [exfalso; apply Hnext; discriminate|]).
    all: repeat split; try reflexivity; try congruence.
    all: rewrite !requested_next_game by exact Hkeeps; congruence. }
  destruct Hstep as ([] & w' & Hrun & Hgame & Hnext & Htrace).
  exists w'. repeat split; try assumption.
  - unfold is_resetting, bind, get_main_loop, ret. rewrite Hgame, Hnext.
    f_equal. apply andb_false_iff. destruct next as [g|].
    + right. apply bool_decide_eq_false_2. discriminate.
    + left. apply bool_decide_eq_false_2. intros H. now apply H.
Qed.

End Step_properties.

(** ** Frames that wait *)

Section Idle.

Context {headers : Headers} {collaborators : Collaborators}.

(** X12.  The sleep at the end of a frame of [fixed_run] compares a
    reading of the clock in milliseconds with a date in nanoseconds.  Once
    the date of the frame, time dropped included, has passed 2^32 ns, that
    is 4.3 s, the difference wraps around to a huge duration and the frame
    never sleeps to fill the timestep, whatever the clock reads: only
    [debug_lag] makes it sleep. *)
Theorem frame_end_sleep_needs_a_young_clock (st : FixedRun) (w : World) :
  0 <= time_dropped st <= Int.INT64_MAX ->
  0 <= last_frame_date st ->
  2 ^ 32 <= last_frame_date st + time_dropped st
    <= 2 ^ 64 - fixed_timestep_ns ->
  exists w' ms,
    fixed_sleep st w = Return tt w'
    /\ main_loop w' = main_loop w
    /\ input w' = input w
    /\ trace w'
       = trace w ++ debug_sleep (main_loop w) ++ [System_get_real_time_ms ms].
Proof.
  intros Hdropped Hdate Hreal.
  assert (Hlate : forall ms,
    0 <= ms < 2 ^ 32 ->
    (Int.u64 (Int.i64 (ms - time_dropped st) - last_frame_date st)
     <? fixed_timestep_ns) = false).
  { intros ms Hms. apply Z.ltb_ge.
    rewrite IntFacts.i64_id
      by (unfold Int.INT64_MIN, Int.INT64_MAX in *; lia).
    unfold Int.u64, Int.wrap_unsigned, fixed_timestep_ns in *.
    set (d := ms - time_dropped st - last_frame_date st).
    assert (Hd : - 2 ^ 64 + 10000000 <= d < 0) by (subst d; lia).
    replace d with ((d + 2 ^ 64) + (-1) * 2 ^ 64) by lia.
    rewrite Z.mod_add by lia. rewrite Z.mod_small by lia. lia. }
  assert (Hms : forall h, 0 <= Int.u32 (System_real_time_ms h) < 2 ^ 32).
  { intros h. unfold Int.u32, Int.wrap_unsigned. apply Z.mod_pos_bound. lia. }
  assert (Hpost : post (fixed_sleep st) w
    (fun _ w' =>
       main_loop w' = main_loop w /\ input w' = input w
       /\ exists ms,
            trace w'
            = trace w ++ debug_sleep (main_loop w)
                ++ [System_get_real_time_ms ms])).
  { unfold fixed_sleep, debug_sleep, sleep, is_suspended, get_real_time_ms.
    post_run.
    destruct ((debug_lag (main_loop w) >? 0) && negb (turbo (main_loop w))
              && negb (suspended (main_loop w))) eqn:Hdebug; post_run;
      rewrite Hlate by apply Hms; cbn [andb]; post_run;
      repeat split; eexists; rewrite <- ?app_assoc; reflexivity. }
  destruct Hpost as ([] & w' & Hrun & Hmain & Hin & ms & Htrace).
  now exists w', ms.
Qed.

(** Whatever the clock, the end of a frame only waits. *)
Lemma fixed_sleep_waits st w :
  post (fixed_sleep st) w
    (fun _ w' =>
       main_loop w' = main_loop w /\ input w' = input w
       /\ adds waiting_effect (trace w) (trace w')).
Proof.
  unfold fixed_sleep, sleep, is_suspended, get_real_time_ms. post_run.
  destruct (_ && _ && _); post_run;
    match goal with |- context [if ?c then _ else _] => destruct c end;
    post_run; repeat split; eexists; rewrite <- ?app_assoc;
    (split; [reflexivity|]); repeat constructor.
Qed.

(** X13.  A frame that finds the main loop suspended after the input makes
    no step and draws nothing, even in turbo mode.  A frame of [fixed_run]
    only reads the clock and sleeps, and keeps the lag it measured for later;
    a frame of [dynamic_run] sleeps 10 ms without reading the clock, so that
    the next frame that runs measures its duration from the last frame that
    ran. *)
Theorem suspended_frame_is_idle (w w1 : World) :
  check_input w = Return tt w1 ->
  suspended (main_loop w1) = true ->
  (forall st st1 w0,
     fixed_measure st w0 = Return st1 w ->
     exists w' waits,
       fixed_frame st w0 = Return (st1, 0) w'
       /\ main_loop w' = main_loop w1
       /\ input w' = input w1
       /\ trace w' = trace w1 ++ waits
       /\ Forall waiting_effect waits)
  /\ (forall st,
        dynamic_frame st w
        = Return (st, None) (with_trace (fun h => h ++ [System_sleep 10]) w1)).
Proof.
  intros Hinput Hsuspended. split.
  - intros st st1 w0 Hmeasure.
    destruct (fixed_sleep_waits
                {| last_frame_date := last_frame_date st1; lag := lag st1;
                   time_dropped := time_dropped st1 |} w1)
      as ([] & w' & Hsleep & Hmain & Hin & waits & Htrace & Hwaits).
    assert (Hpost : post (fixed_frame st) w0
                      (fun r w'' => r = (st1, 0) /\ w'' = w')).
    { unfold fixed_frame.
      apply post_bind. exists st1, w. split; [exact Hmeasure|].
      apply post_bind. exists tt, w1. split; [exact Hinput|].
      apply post_bind. exists (lag st1, 0), w1. split.
      { unfold fixed_update, is_suspended, bind, get_main_loop, ret.
        rewrite Hsuspended, andb_false_r. apply catch_up_stops. auto. }
      unfold is_suspended. post_run. rewrite Hsuspended.
      cbn [fst snd andb negb].
      change ((0 >? 0) && false) with false. cbn iota. post_run.
      exists tt, w'. split; [exact Hsleep|].
      post_run. split; [|reflexivity]. now destruct st1. }
    destruct Hpost as (r & w'' & Hrun & -> & ->).
    exists w', waits. now repeat split.
  - intros st. unfold dynamic_frame, bind at 1. rewrite Hinput.
    unfold is_exiting, is_suspended, bind, get_main_loop, ret.
    rewrite Hsuspended. cbn [negb]. now rewrite andb_false_r.
Qed.

End Idle.

(** ** Turbo mode, and long frames *)

Section Turbo.

Context {headers : Headers} {collaborators : Collaborators}.

(** X14.  In turbo mode a frame of [fixed_run] that is not suspended makes
    one step at least, and ten at most, whatever the lag: with less than one
    timestep of lag it still makes one, and the lag goes below zero. *)
Theorem turbo_frame_steps_at_least_once (lag0 : Z) (w : World) :
  calm ->
  turbo (main_loop w) = true ->
  suspended (main_loop w) = false ->
  Int.INT64_MIN + fixed_timestep_ns <= lag0 <= Int.INT64_MAX ->
  exists lag' num_updates w',
    fixed_update lag0 w = Return (lag', num_updates) w'
    /\ 1 <= num_updates <= 10
    /\ lag' = lag0 - num_updates * fixed_timestep_ns
    /\ updates (trace w')
       = updates (trace w)
         ++ repeat fixed_timestep_ns (Z.to_nat num_updates)
    /\ (lag0 < 2 * fixed_timestep_ns -> num_updates = 1)
    /\ flags (main_loop w') = flags (main_loop w).
Proof.
  intros Hcalm Hturbo Hsuspended Hlag.
  assert (Hwrap : Int.i64 (lag0 - fixed_timestep_ns) = lag0 - fixed_timestep_ns).
  { apply IntFacts.i64_id.
    unfold fixed_timestep_ns, Int.INT64_MIN, Int.INT64_MAX in *. lia. }
  assert (Hpost : post (fixed_update lag0) w
    (fun r w' =>
       1 <= snd r <= 10
       /\ fst r = lag0 - snd r * fixed_timestep_ns
       /\ updates (trace w')
          = updates (trace w) ++ repeat fixed_timestep_ns (Z.to_nat (snd r))
       /\ (lag0 < 2 * fixed_timestep_ns -> snd r = 1)
       /\ flags (main_loop w') = flags (main_loop w))).
  { unfold fixed_update, is_suspended. post_run.
    rewrite Hturbo, Hsuspended. cbn [andb negb].
    apply post_bind. eapply post_weaken; [apply step_post|].
    intros [] w1 (Hup & _ & Hflags). specialize (Hflags Hcalm).
    rewrite Hwrap. change (0 + 1) with 1. change (Z.to_nat (10 - 1)) with 9%nat.
    assert (Hsu1 : suspended (main_loop w1) = false).
    { unfold flags in Hflags. injection Hflags as _ Hs _. congruence. }
    destruct (exiting (main_loop w1)) eqn:Hex1.
    - eapply post_return; [apply catch_up_stops; auto|]. cbn [fst snd].
      repeat split; try lia; try assumption.
    - eapply post_weaken.
      { apply (catch_up_post 9 (lag0 - fixed_timestep_ns) 1 w1);
          try assumption; try reflexivity; try lia.
        unfold fixed_timestep_ns, Int.INT64_MIN, Int.INT64_MAX in *. lia. }
      intros [lag' num'] w2 (Hlag' & Hnum' & Hup' & _ & Hflags').
      cbn [fst snd] in *. cbv zeta in *.
      set (turns := catch_up_turns (lag0 - fixed_timestep_ns) 1) in *.
      assert (Hturns : 0 <= turns <= 9).
      { subst turns. unfold catch_up_turns. lia. }
      repeat split; try lia.
      + rewrite Hup', Hup, <- app_assoc. f_equal. rewrite Hnum'.
        rewrite Z2Nat.inj_add by lia. reflexivity.
      + intros Hsmall.
        assert (turns = 0); [|lia].
        subst turns. unfold catch_up_turns.
        assert ((lag0 - fixed_timestep_ns) / fixed_timestep_ns <= 0); [|lia].
        assert ((lag0 - fixed_timestep_ns) / fixed_timestep_ns < 1); [|lia].
        apply Z.div_lt_upper_bound; unfold fixed_timestep_ns in *; lia.
      + congruence. }
  destruct Hpost as ([lag' num'] & w' & Hrun & H).
  now exists lag', num', w'.
Qed.

End Turbo.

Section Dynamic.

Context {headers : Headers} {collaborators : Collaborators}.

Lemma dynamic_measure_forgives st w st' f w' :
  delta_buffer st = 0 ->
  dynamic_measure st w = Return (st', f) w' ->
  smoothed_duration f = perfect_frame_duration f
  /\ (0 <= perfect_frame_duration f ->
      perfect_frame_duration f * 5 <= Int.INT64_MAX ->
      0 <= last_frame_duration f ->
      delta_buffer st'
      = (if last_frame_duration f >? perfect_frame_duration f * 5 then 0
         else last_frame_duration f - perfect_frame_duration f)
      /\ - perfect_frame_duration f <= delta_buffer st'
         <= 4 * perfect_frame_duration f).
Proof.
  intros Hzero Hmeasure.
  assert (Hpost : post (dynamic_measure st) w
    (fun r w' =>
       smoothed_duration (snd r) = perfect_frame_duration (snd r)
       /\ (0 <= perfect_frame_duration (snd r) ->
           perfect_frame_duration (snd r) * 5 <= Int.INT64_MAX ->
           0 <= last_frame_duration (snd r) ->
           delta_buffer (fst r)
           = (if last_frame_duration (snd r)
                 >? perfect_frame_duration (snd r) * 5 then 0
              else last_frame_duration (snd r) - perfect_frame_duration (snd r))
           /\ - perfect_frame_duration (snd r) <= delta_buffer (fst r)
              <= 4 * perfect_frame_duration (snd r)))).
  { unfold dynamic_measure, get_real_time_ns. post_run.
    cbn [fst snd delta_buffer delta_buffer_after last_frame_duration
         perfect_frame_duration spill smoothed_duration].
    rewrite Hzero.
    change (Float.to_int64
              (Float.Single.mul (Float.Single.of_int 0) delta_buffer_spill))
      with 0.
    set (perfect := Int.i64 (Video_get_display_period_ns _)).
    set (last := Int.i64 (Int.u64 _)).
    assert (Hperfect' : Int.i64 perfect = perfect) by apply i64_idem.
    assert (Hrange : Int.INT64_MIN <= last <= Int.INT64_MAX)
      by apply IntFacts.i64_range.
    rewrite !Z.add_0_r, !Z.add_0_l, !Hperfect'. split; [reflexivity|].
    intros Hperfect Hfits Hlast.
    rewrite (IntFacts.i64_id (perfect * 5))
      by (unfold Int.INT64_MIN, Int.INT64_MAX in *; lia).
    rewrite i64_idem.
    destruct (Z.gtb_spec last (perfect * 5)) as [Hlong|Hshort].
    - rewrite Z.sub_diag. change (Int.i64 0) with 0. lia.
    - rewrite IntFacts.i64_id
        by (unfold Int.INT64_MIN, Int.INT64_MAX in *; lia).
      lia. }
  destruct Hpost as (r & w'' & Hrun & H).
  rewrite Hmeasure in Hrun. injection Hrun as <- <-. exact H.
Qed.

(** X15.  A frame of [dynamic_run] entered with an empty [delta_buffer],
    while the main loop is neither exiting nor suspended once the events are
    handled: the clock is read once, the period is the one of the display at
    that point, and the one step that the history shows is of exactly that
    period.  The buffer receives the duration of the last frame, as the
    clock gives it, less the period, unless that frame took more than five
    periods, which counts as one period: the buffer then stays empty.  The
    error kept is never more than four periods. *)
Theorem long_frame_is_forgiven (st : DynamicRun) (w polled : World) :
  delta_buffer st = 0 ->
  check_input w = Return tt polled ->
  exiting (main_loop polled) = false ->
  suspended (main_loop polled) = false ->
  let now := Int.u64 (System_real_time_ns (trace polled)) in
  let read := trace polled ++ [System_get_real_time_ns now] in
  let period := Int.i64 (Video_get_display_period_ns read) in
  let last := Int.i64 (Int.u64 (now - dynamic_last_frame_date st)) in
  exists st' f w' later,
    dynamic_frame st w = Return (st', Some f) w'
    /\ trace w' = read ++ later
    /\ real_times later = []
    /\ updates later = [Int.u64 period]
    /\ perfect_frame_duration f = period
    /\ last_frame_duration f = last
    /\ smoothed_duration f = period
    /\ dynamic_last_frame_date st' = now
    /\ (0 <= period -> period * 5 <= Int.INT64_MAX -> 0 <= last ->
        updates later = [period]
        /\ delta_buffer st'
           = (if last >? period * 5 then 0 else last - period)
        /\ - period <= delta_buffer st' <= 4 * period).
Proof.
  intros Hzero Hinput Hex Hsu now read period last.
  destruct (dynamic_frame_runs st w polled Hinput Hex Hsu)
    as (st' & f & measured & w' & later & Hmeasure & Hframe & Hlater & Hfree
        & Hup).
  destruct (dynamic_measure_reads st polled)
    as (r & w1 & Hmeasure1 & Hread & _ & _ & Hdate & Hperfect & Hlast & _).
  rewrite Hmeasure in Hmeasure1. injection Hmeasure1 as <- <-.
  cbn [fst snd] in *. cbv zeta in *. rewrite Hread in Hperfect.
  fold now in Hread, Hperfect, Hlast, Hdate. fold read in Hread, Hperfect.
  fold period in Hperfect. fold last in Hlast.
  destruct (dynamic_measure_forgives st polled st' f measured Hzero Hmeasure)
    as [Hsmooth Hbuffer].
  rewrite Hperfect, Hlast in Hbuffer. rewrite Hperfect in Hsmooth.
  rewrite Hsmooth in Hup. rewrite Hread in Hlater.
  exists st', f, w', later. split; [exact Hframe|]. split; [exact Hlater|].
  split; [apply (clock_free_quiet later Hfree)|].
  do 5 (split; [assumption|]).
  intros Hperiod Hfits Hpositive. split; [|now apply Hbuffer].
  rewrite Hup. f_equal. unfold Int.u64, Int.wrap_unsigned.
  apply Z.mod_small. unfold Int.INT64_MAX in Hfits. lia.
Qed.

End Dynamic.

(** ** Starting a quest *)

Section Startup_properties.

Context {config : Config}.

Lemma check_version_compatibility_ok major minor :
  check_version_compatibility (major, minor) = Debug.Ok tt <->
  major <> 0 /\ major = SOLARUS_MAJOR_VERSION
  /\ minor <= SOLARUS_MINOR_VERSION
  /\ (major = 1 -> minor < SOLARUS_MINOR_VERSION -> 5 <= minor).
Proof.
  unfold check_version_compatibility. cbn [fst snd].
  destruct (Z.eqb_spec major 0) as [->|Hmajor]; cbn [Debug.and_then].
  { split; [discriminate | intros [H _]; now contradict H]. }
  destruct (Z.eqb_spec major SOLARUS_MAJOR_VERSION) as [Heq|Hne];
    cbn [negb].
  2:{ split; [discriminate | intros (_ & H & _); contradiction]. }
  destruct (Z.gtb_spec minor SOLARUS_MINOR_VERSION) as [Hgt|Hle].
  { split; [discriminate | intros (_ & _ & H & _); lia]. }
  destruct (Z.ltb_spec minor SOLARUS_MINOR_VERSION) as [Hlt|Hge];
    cbn [andb].
  2:{ split; [intros _; repeat split; try assumption; lia | reflexivity]. }
  destruct (Z.eqb_spec major 1) as [Hone|Hnot]; cbn [andb].
  2:{ split; [intros _; repeat split; try assumption; lia | reflexivity]. }
  destruct (Z.ltb_spec minor 5) as [Hold|Hnew]; cbn [negb].
  + split; [discriminate | intros (_ & _ & _ & H); specialize (H Hone Hlt); lia].
  + split; [intros _; repeat split; try assumption; lia | reflexivity].
Qed.

End Startup_properties.

(** X16.  A quest is accepted when its format has the major version of the
    engine and a minor version that is not above the engine's and, for major
    version 1, not below 5 unless it is the engine's own; otherwise the
    engine dies, with a message that tells the two versions.  A quest of
    format 1.5 or later that an engine 1.m runs is run by every later engine
    of major version 1. *)
Theorem check_version_compatibility_law (config : Config) (major minor : Z) :
  let result := check_version_compatibility (major, minor) in
  (result = Debug.Ok tt <->
     major <> 0 /\ major = SOLARUS_MAJOR_VERSION
     /\ minor <= SOLARUS_MINOR_VERSION
     /\ (major = 1 -> minor < SOLARUS_MINOR_VERSION -> 5 <= minor))
  /\ (major = 0 ->
      result
      = Debug.Died "No Solarus version is specified in your quest.dat file!")
  /\ (major <> 0 -> result <> Debug.Ok tt ->
      result
      = Debug.Died
          ("This quest is made for Solarus " ++ pretty major ++ "."
           ++ pretty minor ++ ".x but you are running Solarus "
           ++ SOLARUS_VERSION)%string)
  /\ (result = Debug.Ok tt ->
      SOLARUS_MAJOR_VERSION = 1 -> 5 <= minor ->
      forall later version default,
        SOLARUS_MINOR_VERSION <= later ->
        check_version_compatibility
          (config := {| SOLARUS_MAJOR_VERSION := 1;
                        SOLARUS_MINOR_VERSION := later;
                        SOLARUS_VERSION := version;
                        SOLARUS_DEFAULT_QUEST := default |})
          (major, minor) = Debug.Ok tt).
Proof.
  cbv zeta. split; [apply check_version_compatibility_ok|].
  split; [|split].
  - intros ->. reflexivity.
  - intros Hmajor. unfold check_version_compatibility. cbn [fst snd].
    destruct (Z.eqb_spec major 0) as [|_]; [contradiction|].
    cbn [Debug.and_then].
    match goal with
    | |- (if negb ?c then _ else _) <> _ -> _ => destruct c
    end; cbn [negb]; [intros H; now contradict H | reflexivity].
  - intros Hok Hone Hfive later version default Hlater.
    apply check_version_compatibility_ok in Hok.
    apply check_version_compatibility_ok. cbn. lia.
Qed.

(** ** The Lua console and the launcher *)

Section Trailing_spaces.

Lemma string_back_snoc chars c :
  string_back (string_of_list_ascii (chars ++ [c])) = Some c.
Proof.
  unfold string_back. rewrite list_ascii_of_string_of_list_ascii.
  apply last_snoc.
Qed.

Lemma string_pop_back_snoc chars c :
  string_pop_back (string_of_list_ascii (chars ++ [c]))
  = string_of_list_ascii chars.
Proof.
  unfold string_pop_back. rewrite list_ascii_of_string_of_list_ascii.
  now rewrite removelast_last.
Qed.

Lemma length_string_of_list_ascii chars :
  String.length (string_of_list_ascii chars) = length chars.
Proof. induction chars as [|c chars IH]; cbn; congruence. Qed.

(** The loop on the characters of the line. *)
Lemma erase_trailing_spaces_chars chars : forall fuel,
  (length chars <= fuel)%nat ->
  exists kept spaces,
    chars = kept ++ spaces
    /\ Forall (fun c => isspace c = true) spaces
    /\ (forall c, last kept = Some c -> isspace c = false)
    /\ erase_trailing_spaces fuel (string_of_list_ascii chars)
       = string_of_list_ascii kept.
Proof.
  induction chars as [|c chars IH] using rev_ind; intros fuel Hfuel.
  - exists [], []. repeat split; [constructor | discriminate |].
    destruct fuel; reflexivity.
  - rewrite length_app in Hfuel. cbn in Hfuel.
    destruct fuel as [|fuel]; [lia|]. cbn [erase_trailing_spaces].
    rewrite string_back_snoc, string_pop_back_snoc.
    destruct (isspace c) eqn:Hc.
    + destruct (IH fuel ltac:(lia)) as (kept & spaces & -> & Hsp & Hlast & Hrun).
      exists kept, (spaces ++ [c]). rewrite app_assoc.
      repeat split; try assumption.
      apply Forall_app. split; [exact Hsp | now repeat constructor].
    + exists (chars ++ [c]), []. rewrite app_nil_r.
      repeat split; [constructor|].
      intros c'. rewrite last_snoc. now intros [= <-].
Qed.

End Trailing_spaces.

Section Strings.

Lemma string_app_assoc (a b c : string) :
  ((a ++ b) ++ c = a ++ (b ++ c))%string.
Proof.
  induction a as [|x a IH]; [reflexivity|].
  change (String x ((a ++ b) ++ c) = String x (a ++ (b ++ c)))%string.
  now rewrite IH.
Qed.

Lemma string_app_nil_r (a : string) : (a ++ "" = a)%string.
Proof.
  induction a as [|x a IH]; [reflexivity|].
  change (String x (a ++ "") = String x a)%string. now rewrite IH.
Qed.

Lemma string_length_app (a b : string) :
  String.length (a ++ b) = (String.length a + String.length b)%nat.
Proof.
  induction a as [|x a IH]; [reflexivity|].
  change (S (String.length (a ++ b))
          = S (String.length a + String.length b))%nat.
  now rewrite IH.
Qed.

Lemma substring_all (s : string) : String.substring 0 (String.length s) s = s.
Proof.
  induction s as [|x s IH]; [reflexivity|].
  change (String x (String.substring 0 (String.length s) s) = String x s).
  now rewrite IH.
Qed.

Lemma getlines_from_line (command : string) : forall line rest,
  Forall (fun c => c <> Ascii.ascii_of_nat 10) (list_ascii_of_string command) ->
  getlines_from line (command ++ newline ++ rest)
  = (line ++ command)%string :: getlines_from "" rest.
Proof.
  induction command as [|x command IH]; intros line rest Hplain.
  - change ("" ++ newline ++ rest)%string with (String (ascii_of_nat 10) rest).
    cbn [getlines_from]. rewrite Ascii.eqb_refl.
    now rewrite string_app_nil_r.
  - cbn [list_ascii_of_string] in Hplain. apply Forall_cons in Hplain as [Hx Hplain].
    change (String x command ++ newline ++ rest)%string
      with (String x (command ++ newline ++ rest))%string.
    cbn [getlines_from].
    destruct (Ascii.eqb_spec x (ascii_of_nat 10)) as [|_]; [contradiction|].
    rewrite (IH _ _ Hplain), string_app_assoc. reflexivity.
Qed.

End Strings.

Section Launcher_properties.

Import QuestRunner.

Lemma i32_succ id :
  Int.INT_MIN <= id + 1 <= Int.INT_MAX -> Int.i32 (id + 1) = id + 1.
Proof.
  intros Hid. apply IntFacts.i32_id.
  unfold Int.INT_MIN, Int.INT_MAX in *. lia.
Qed.

Lemma run_goes_through calls : forall q,
  is_running q = true ->
  Forall goes_through calls ->
  Int.INT_MIN <= last_command_id q + 1 ->
  last_command_id q + Z.of_nat (length (commands_of calls)) <= Int.INT_MAX ->
  let (ids, q') := run calls q in
  ids = seqZ (last_command_id q + 1) (Z.of_nat (length (commands_of calls)))
  /\ process_stdin q'
     = (process_stdin q
        ++ fold_right (fun call s => written_by call ++ s) "" calls)%string.
Proof.
  induction calls as [|call calls IH]; intros q Hrunning Hcalls Hmin Hmax.
  - cbn. now rewrite string_app_nil_r.
  - pose proof (eq_refl : Int.INT_MIN = -2147483648) as Hlowest.
    pose proof (eq_refl : Int.INT_MAX = 2147483647) as Hhighest.
    apply Forall_cons in Hcalls as [Hcall Hcalls].
    destruct call as [command bytes_written|bytes_written];
      cbn [run commands_of flat_map app length] in *;
      fold (commands_of calls) in *.
    + destruct Hcall as [[Hplain Hblank] ->].
      unfold execute_command. rewrite Hrunning. cbn [negb].
      destruct (String.eqb_spec command "") as [->|_].
      { now contradict Hblank. }
      assert (Hlen : Z.of_nat (String.length (command ++ newline))
                     = Z.of_nat (String.length command) + 1).
      { rewrite string_length_app. cbn. lia. }
      rewrite Hlen, Z.eqb_refl. cbn [negb].
      cbn [last_command_id process_state process_stdin write].
      rewrite i32_succ by lia.
      match goal with
      | |- context [run calls ?q1] =>
          specialize (IH q1); destruct (run calls q1) as [ids q']
      end.
      cbn [last_command_id process_state process_stdin is_running] in IH.
      destruct IH as [Hids Hstdin]; [exact Hrunning | exact Hcalls | lia | lia |].
      split.
      * rewrite Hids. rewrite Nat2Z.inj_succ.
        rewrite (seqZ_cons _ (Z.succ _)) by lia.
        f_equal. f_equal; lia.
      * rewrite Hstdin. cbn [fold_right written_by].
        replace (Z.to_nat (Z.of_nat (String.length command) + 1))
          with (String.length (command ++ newline)) by lia.
        rewrite substring_all, !string_app_assoc. reflexivity.
    + cbn in Hcall. subst bytes_written. unfold timeout.
      assert (Hstarted : is_started q = true).
      { unfold is_running, is_started in *. now destruct (process_state q). }
      rewrite Hstarted.
      match goal with
      | |- context [run calls ?q1] =>
          specialize (IH q1); destruct (run calls q1) as [ids q']
      end.
      cbn [last_command_id process_state process_stdin is_running write] in IH.
      destruct IH as [Hids Hstdin]; [exact Hrunning | exact Hcalls | lia | lia |].
      split; [exact Hids|].
      rewrite Hstdin. cbn [fold_right written_by].
      change (Z.to_nat 1) with (String.length newline).
      rewrite substring_all, !string_app_assoc. reflexivity.
Qed.

Lemma getlines_written calls :
  Forall goes_through calls ->
  getlines (fold_right (fun call s => written_by call ++ s)%string "" calls)
  = map line_of calls.
Proof.
  unfold getlines. induction calls as [|call calls IH]; intros Hcalls.
  - reflexivity.
  - apply Forall_cons in Hcalls as [Hcall Hcalls].
    cbn [fold_right map]. destruct call as [command n|n]; cbn [written_by line_of].
    + destruct Hcall as [[Hplain _] _].
      rewrite string_app_assoc, (getlines_from_line command "" _ Hplain).
      now rewrite IH.
    + change newline with ("" ++ newline)%string.
      rewrite string_app_assoc, (getlines_from_line "" "" _ ltac:(constructor)).
      now rewrite IH.
Qed.

End Launcher_properties.

Section Quest_path.

Context {config : Config}.

(** X17.  The arguments that the launcher builds start with [-run] and end
    with the path of the quest, whatever the settings and the map.  Given
    these arguments the engine opens that quest, as long as the path is not
    empty and does not start with a dash; otherwise it opens the default
    quest, as it does without arguments and when an option follows the
    path. *)
Theorem launcher_arguments_end_with_the_quest_path
    (settings : QuestRunner.Settings) (quest_path map_id : string) :
  let arguments := QuestRunner.create_arguments settings quest_path map_id in
  last arguments = Some quest_path
  /\ head arguments = Some "-run"
  /\ (forall c rest,
        quest_path = String c rest -> c <> "-"%char ->
        get_quest_path arguments = quest_path)
  /\ (quest_path = "" \/ (exists rest, quest_path = String "-" rest) ->
      get_quest_path arguments = SOLARUS_DEFAULT_QUEST)
  /\ get_quest_path [] = SOLARUS_DEFAULT_QUEST
  /\ (forall c rest option,
        c <> "-"%char ->
        get_quest_path [String c rest; String "-" option]
        = SOLARUS_DEFAULT_QUEST).
Proof.
  cbv zeta.
  assert (Hlast : last (QuestRunner.create_arguments settings quest_path map_id)
                  = Some quest_path).
  { unfold QuestRunner.create_arguments. cbv zeta. apply last_snoc. }
  split; [exact Hlast|]. split.
  { unfold QuestRunner.create_arguments. cbv zeta. cbn [app].
    repeat match goal with
    | |- context [if ?c then _ else _] => destruct c
    end; reflexivity. }
  unfold get_quest_path. rewrite Hlast. split; [|split; [|split]].
  - intros c rest -> Hc.
    destruct (Ascii.eqb_spec c "-"); [contradiction | reflexivity].
  - intros [->|[rest ->]]; reflexivity.
  - reflexivity.
  - intros c rest option Hc. reflexivity.
Qed.

End Quest_path.

Section Console_properties.

Context {headers : Headers} {collaborators : Collaborators}.

Lemma console_transcript_app h h' :
  console_transcript (h ++ h') = console_transcript h ++ console_transcript h'.
Proof. unfold console_transcript. apply flat_map_app. Qed.

Lemma stdin_line_post line w :
  post (stdin_line line) w
    (fun _ w' =>
       lua_commands (main_loop w')
       = lua_commands (main_loop w) ++ queued [line]
       /\ exiting (main_loop w') = exiting (main_loop w)
       /\ lua_console_enabled (main_loop w') = lua_console_enabled (main_loop w)
       /\ num_lua_commands_done (main_loop w') = num_lua_commands_done (main_loop w)
       /\ input w' = input w
       /\ console_transcript (trace w') = console_transcript (trace w)).
Proof.
  unfold stdin_line, queued. cbn [flat_map]. fold (trimmed line).
  rewrite app_nil_r.
  destruct (String.eqb (trimmed line) ""); cbn [negb when].
  - post_run. rewrite app_nil_r. repeat split.
  - unfold push_lua_command. post_run.
    rewrite !console_transcript_app. cbn. rewrite !app_nil_r.
    repeat split.
Qed.

Lemma stdin_thread_post lines : forall w,
  exiting (main_loop w) = false ->
  post (stdin_thread lines) w
    (fun _ w' =>
       lua_commands (main_loop w') = lua_commands (main_loop w) ++ queued lines
       /\ exiting (main_loop w') = false
       /\ lua_console_enabled (main_loop w') = lua_console_enabled (main_loop w)
       /\ num_lua_commands_done (main_loop w') = num_lua_commands_done (main_loop w)
       /\ input w' = input w
       /\ console_transcript (trace w') = console_transcript (trace w)).
Proof.
  induction lines as [|line lines IH]; intros w Hexiting; cbn [stdin_thread].
  - post_run. unfold queued. cbn. rewrite app_nil_r. repeat split. exact Hexiting.
  - unfold is_exiting. post_run. rewrite Hexiting.
    apply post_bind. eapply post_weaken; [apply stdin_line_post|].
    intros [] w1 (Hcmds & Hex & Hen & Hdone & Hin & Htr).
    eapply post_weaken; [apply IH; congruence|].
    intros [] w2 (Hcmds' & Hex' & Hen' & Hdone' & Hin' & Htr').
    repeat split; try congruence.
    rewrite Hcmds', Hcmds, <- app_assoc. unfold queued. cbn [flat_map].
    now rewrite app_nil_r.
Qed.

Lemma run_lua_commands_transcript commands : forall w,
  Int.INT_MIN <= num_lua_commands_done (main_loop w) ->
  num_lua_commands_done (main_loop w) + Z.of_nat (length commands)
  <= Int.INT_MAX ->
  post (run_lua_commands commands) w
    (fun _ w' =>
       exists successes,
         length successes = length commands
         /\ console_transcript (trace w')
            = console_transcript (trace w)
              ++ transcript_of (num_lua_commands_done (main_loop w))
                   commands successes).
Proof.
  induction commands as [|command commands IH]; intros w Hmin Hmax;
    cbn [run_lua_commands].
  - post_run. exists []. cbn. now rewrite app_nil_r.
  - cbn [length] in Hmax. post_run.
    eapply post_weaken.
    { apply IH;
        cbn [main_loop with_main_loop num_lua_commands_done
             with_num_lua_commands_done];
        rewrite requested_num_lua_commands_done;
        rewrite IntFacts.i32_id;
        unfold Int.INT_MIN, Int.INT_MAX in *; lia. }
    intros [] w' (successes & Hlen & Htr).
    cbn [trace main_loop with_trace with_main_loop num_lua_commands_done
         with_num_lua_commands_done] in Htr.
    rewrite requested_num_lua_commands_done in Htr.
    rewrite IntFacts.i32_id in Htr
      by (unfold Int.INT_MIN, Int.INT_MAX in *; lia).
    eexists (_ :: successes). split; [cbn; now rewrite Hlen|].
    rewrite Htr. rewrite !console_transcript_app. cbn [console_transcript flat_map app].
    rewrite <- !app_assoc. cbn [app transcript_of]. reflexivity.
Qed.

Lemma queued_written calls :
  Forall goes_through calls ->
  queued (map line_of calls) = map trimmed (commands_of calls).
Proof.
  unfold queued, commands_of. induction calls as [|call calls IH];
    intros Hcalls; [reflexivity|].
  apply Forall_cons in Hcalls as [Hcall Hcalls].
  cbn [map flat_map]. rewrite (IH Hcalls).
  destruct call as [command n|n]; cbn [line_of app map].
  - destruct Hcall as [[_ Hblank] _]. fold (trimmed command) in Hblank.
    destruct (String.eqb_spec (trimmed command) ""); [contradiction|].
    reflexivity.
  - reflexivity.
Qed.

(** X18.  The launcher and the console count alike.  When a launcher that
    has sent no command yet sends commands that are each one line and
    not blank, and every write is complete, the commands get the ids 0, 1,
    2, ...; and when the console thread has read all that was written, the
    empty lines of the timer included, the next [check_input] runs the
    commands in order and announces each under the id the launcher returned
    for it. *)
Theorem launcher_ids_are_the_console_numbers (calls : list QuestRunner.Call)
    (q : QuestRunner.t) (w : World) :
  QuestRunner.is_running q = true ->
  QuestRunner.last_command_id q = -1 ->
  QuestRunner.process_stdin q = "" ->
  Forall goes_through calls ->
  Z.of_nat (length calls) <= Int.INT_MAX ->
  sdl_queue (input w) = [] ->
  exiting (main_loop w) = false ->
  lua_console_enabled (main_loop w) = true ->
  lua_commands (main_loop w) = [] ->
  num_lua_commands_done (main_loop w) = 0 ->
  let commands := map trimmed (commands_of calls) in
  exists q' w' successes,
    QuestRunner.run calls q = (seqZ 0 (Z.of_nat (length commands)), q')
    /\ (stdin_thread (getlines (QuestRunner.process_stdin q')) ;; check_input) w
       = Return tt w'
    /\ length successes = length commands
    /\ console_transcript (trace w')
       = console_transcript (trace w) ++ transcript_of 0 commands successes
    /\ lua_commands (main_loop w') = [].
Proof.
  intros Hrunning Hlast Hstdin Hcalls Hmany Hqueue Hexiting Henabled Hnone
    Hdone commands.
  assert (Hcount : (length (commands_of calls) <= length calls)%nat).
  { clear. unfold commands_of.
    induction calls as [|[] calls IH]; cbn [flat_map app length]; lia. }
  pose proof (run_goes_through calls q Hrunning Hcalls) as Hrun.
  rewrite Hlast in Hrun.
  destruct (QuestRunner.run calls q) as [ids q'].
  destruct Hrun as [-> Hwritten];
    [unfold Int.INT_MIN; lia | unfold Int.INT_MAX in *; lia|].
  rewrite Hstdin in Hwritten. cbn [String.append] in Hwritten.
  change ("" ++ ?s)%string with s in Hwritten.
  destruct (stdin_thread_post (getlines (QuestRunner.process_stdin q')) w Hexiting)
    as ([] & w1 & Hthread & Hcmds & Hex & Hen & Hdone1 & Hin & Htr).
  rewrite Hwritten, (getlines_written calls Hcalls), (queued_written calls Hcalls),
    Hnone in Hcmds.
  cbn [app] in Hcmds. fold commands in Hcmds.
  exists q'. unfold bind at 1. rewrite Hthread.
  unfold commands at 1. rewrite length_map. change (-1 + 1) with 0.
  unfold check_input. unfold bind at 1, get_input at 1. rewrite Hin, Hqueue.
  cbn [pending_bound length List.filter Nat.add check_sdl_events].
  unfold bind at 1. unfold bind at 1.
  rewrite (get_event_none w1) by (now rewrite Hin).
  unfold ret at 1. unfold bind at 1, get_main_loop at 1.
  rewrite Hen, Henabled, Hcmds. cbn [andb].
  destruct commands as [|command commands'] eqn:Hcommands.
  - cbn. exists w1, []. repeat split; try assumption.
    now rewrite Htr, app_nil_r.
  - rewrite bool_decide_eq_false_2 by discriminate. cbn [negb when].
    assert (Hpost :
      post (emit Mutex_lock;; run_lua_commands (command :: commands');;
            emit lua_commands_clear;;
            modify_main_loop (with_lua_commands []);; emit Mutex_unlock) w1
        (fun _ w' =>
           exists successes,
             length successes = length (command :: commands')
             /\ console_transcript (trace w')
                = console_transcript (trace w1)
                  ++ transcript_of 0 (command :: commands') successes
             /\ lua_commands (main_loop w') = [])).
    { post_run. eapply post_weaken.
      { apply run_lua_commands_transcript;
          cbn [main_loop with_trace]; rewrite Hdone1, Hdone.
        - unfold Int.INT_MIN. lia.
        - rewrite <- Hcommands. unfold commands. rewrite length_map.
          unfold Int.INT_MAX in *. lia. }
      intros [] w2 (successes & Hlen & Htr2). post_run.
      exists successes. split; [exact Hlen|]. split; [|reflexivity].
      cbn [trace with_trace main_loop] in *.
      rewrite Hdone1, Hdone in Htr2.
      rewrite !console_transcript_app, Htr2, console_transcript_app.
      cbn. now rewrite !app_nil_r. }
    destruct Hpost as ([] & w' & Hrun' & successes & Hlen & Htr' & Hcleared).
    exists w', successes. rewrite Hrun', Htr', Htr.
    repeat split; assumption.
Qed.

Lemma trimmed_chars line :
  exists kept spaces,
    list_ascii_of_string line = kept ++ spaces
    /\ Forall (fun c => isspace c = true) spaces
    /\ (forall c, last kept = Some c -> isspace c = false)
    /\ trimmed line = string_of_list_ascii kept.
Proof.
  destruct (erase_trailing_spaces_chars (list_ascii_of_string line)
              (String.length line)) as (kept & spaces & H).
  { rewrite <- (length_string_of_list_ascii (list_ascii_of_string line)).
    now rewrite string_of_list_ascii_of_string. }
  exists kept, spaces. unfold trimmed.
  now rewrite string_of_list_ascii_of_string in H.
Qed.

Lemma trimmed_all_spaces line : all_spaces line -> trimmed line = "".
Proof.
  intros Hall. destruct (trimmed_chars line) as (kept & spaces & Hline & _ & Hlast & ->).
  unfold all_spaces in Hall. rewrite Hline in Hall.
  apply Forall_app in Hall as [Hkept _].
  destruct kept as [|c kept] using rev_ind; [reflexivity|].
  apply Forall_app in Hkept as [_ Hc]. apply Forall_cons in Hc as [Hc _].
  specialize (Hlast c (last_snoc _ _)). congruence.
Qed.

(** X19.  A line read on the standard input is queued without its trailing
    white space, white space elsewhere being kept, and not at all when
    nothing else is left: then the thread does nothing, not even take the
    mutex.  Any other line is pushed once: the history gains a lock of the
    mutex, the [push_back] of the trimmed line and an unlock, in this
    order. *)
Theorem console_line_is_queued_without_trailing_spaces (line : string)
    (w : World) :
  let command := trimmed line in
  (exists spaces,
     list_ascii_of_string line = list_ascii_of_string command ++ spaces
     /\ Forall (fun c => isspace c = true) spaces)
  /\ (forall c, string_back command = Some c -> isspace c = false)
  /\ trimmed command = command
  /\ (all_spaces line <-> command = "")
  /\ exists w',
       stdin_line line w = Return tt w'
       /\ (command = "" -> w' = w)
       /\ (command <> "" ->
           lua_commands (main_loop w') = lua_commands (main_loop w) ++ [command]
           /\ num_lua_commands_pushed (main_loop w')
              = Int.i32 (num_lua_commands_pushed (main_loop w) + 1)
           /\ trace w'
              = trace w
                ++ [Mutex_lock; lua_commands_push_back command; Mutex_unlock]).
Proof.
  cbv zeta.
  destruct (trimmed_chars line) as (kept & spaces & Hline & Hspaces & Hlast & Hkept).
  split; [|split; [|split; [|split]]].
  - exists spaces. rewrite Hkept, list_ascii_of_string_of_list_ascii.
    now split.
  - intros c. rewrite Hkept. unfold string_back.
    rewrite list_ascii_of_string_of_list_ascii. apply Hlast.
  - destruct (trimmed_chars (trimmed line))
      as (kept' & spaces' & Hline' & Hspaces' & _ & Hkept').
    rewrite Hkept' . rewrite Hkept, list_ascii_of_string_of_list_ascii in Hline'.
    destruct spaces' as [|c spaces'] using rev_ind.
    + rewrite app_nil_r in Hline'. now subst kept'.
    + apply Forall_app in Hspaces' as [_ Hc]. apply Forall_cons in Hc as [Hc _].
      rewrite app_assoc in Hline'.
      specialize (Hlast c). rewrite Hline', last_snoc in Hlast.
      specialize (Hlast eq_refl). congruence.
  - split; [apply trimmed_all_spaces|].
    intros Hempty. rewrite Hkept in Hempty.
    assert (kept = []) as ->.
    { destruct kept; [reflexivity | discriminate]. }
    unfold all_spaces. now rewrite Hline.
  - unfold stdin_line. fold (trimmed line).
    destruct (String.eqb_spec (trimmed line) "") as [Hempty|Hcommand];
      cbn [negb when].
    + exists w. split; [reflexivity|]. split; [reflexivity | contradiction].
    + destruct (push_lua_command_post (trimmed line) w)
        as (id & w' & Hpush & _ & Hcmds & Hpushed & _ & _ & _ & Htrace).
      exists w'. unfold bind. rewrite Hpush.
      split; [reflexivity|]. split; [contradiction|]. intros _.
      repeat split; assumption.
Qed.

Lemma list_ascii_of_string_app (a b : string) :
  list_ascii_of_string (a ++ b)
  = list_ascii_of_string a ++ list_ascii_of_string b.
Proof.
  induction a as [|x a IH]; [reflexivity|].
  change (x :: list_ascii_of_string (a ++ b)
          = x :: (list_ascii_of_string a ++ list_ascii_of_string b)).
  now rewrite IH.
Qed.

Lemma getlines_from_spaces input : forall line,
  all_spaces line -> all_spaces input ->
  Forall all_spaces (getlines_from line input).
Proof.
  induction input as [|c input IH]; intros line Hline Hinput;
    cbn [getlines_from].
  - destruct (String.eqb line ""); repeat constructor. exact Hline.
  - unfold all_spaces in Hinput. cbn [list_ascii_of_string] in Hinput.
    apply Forall_cons in Hinput as [Hc Hinput].
    destruct (Ascii.eqb c (ascii_of_nat 10)).
    + constructor; [exact Hline|]. apply IH; [constructor | exact Hinput].
    + apply IH; [|exact Hinput]. unfold all_spaces.
      rewrite list_ascii_of_string_app. apply Forall_app. split; [exact Hline|].
      now repeat constructor.
Qed.

Lemma stdin_thread_blank lines w :
  Forall all_spaces lines -> stdin_thread lines w = Return tt w.
Proof.
  induction 1 as [|line lines Hline _ IH]; [reflexivity|].
  cbn [stdin_thread]. unfold bind at 1, is_exiting, get_main_loop, bind, ret.
  destruct (exiting (main_loop w)); [reflexivity|].
  unfold stdin_line. fold (trimmed line).
  rewrite (trimmed_all_spaces line Hline). cbn. exact IH.
Qed.

(** X20.  A command made of white space only gets an id from the launcher
    and is written to the quest, but the console thread queues nothing for it and
    leaves the main loop as it is. *)
Theorem blank_command_gets_an_id_but_is_not_queued (command : string)
    (q : QuestRunner.t) (w : World) :
  QuestRunner.is_running q = true ->
  command <> "" ->
  all_spaces command ->
  Int.INT_MIN <= QuestRunner.last_command_id q + 1 <= Int.INT_MAX ->
  let bytes_written := Z.of_nat (String.length command) + 1 in
  exists q',
    QuestRunner.execute_command bytes_written command q
    = (QuestRunner.last_command_id q + 1, q')
    /\ QuestRunner.last_command_id q' = QuestRunner.last_command_id q + 1
    /\ QuestRunner.process_stdin q'
       = (QuestRunner.process_stdin q ++ command ++ newline)%string
    /\ stdin_thread (getlines (command ++ newline)) w = Return tt w
    /\ queued (getlines (command ++ newline)) = [].
Proof.
  intros Hrunning Hcommand Hspaces Hid bytes_written.
  assert (Hlines : Forall all_spaces (getlines (command ++ newline))).
  { apply getlines_from_spaces; [constructor|]. unfold all_spaces.
    rewrite list_ascii_of_string_app. apply Forall_app. split; [exact Hspaces|].
    now repeat constructor. }
  unfold QuestRunner.execute_command. rewrite Hrunning. cbn [negb].
  destruct (String.eqb_spec command "") as [|_]; [contradiction|].
  assert (Hlen : Z.of_nat (String.length (command ++ newline)) = bytes_written).
  { rewrite string_length_app. unfold bytes_written. cbn. lia. }
  rewrite Hlen, Z.eqb_refl. cbn [negb].
  cbn [QuestRunner.last_command_id QuestRunner.process_state QuestRunner.process_stdin
       QuestRunner.write].
  rewrite i32_succ by exact Hid.
  eexists. split; [reflexivity|]. cbn [QuestRunner.last_command_id QuestRunner.process_stdin].
  split; [reflexivity|]. split.
  { rewrite <- Hlen, Nat2Z.id, substring_all. reflexivity. }
  split; [now apply stdin_thread_blank|].
  unfold queued. induction Hlines as [|line lines Hline _ IH]; [reflexivity|].
  cbn [flat_map]. now rewrite (trimmed_all_spaces line Hline), IH.
Qed.

End Console_properties.

(** ** References to Lua values *)

Section ScopedLuaRef_properties.

Import ScopedLuaRef.

Context {auxlib : Auxlib}.

(** An address that holds no object, or an empty one. *)
Definition vacant (s : Lua) (p : Z) : Prop :=
  forall o, objects s !! p = Some o -> is_empty o = true.

Lemma is_empty_fields o :
  is_empty o = false <->
  l o <> None /\ ref o <> LUA_REFNIL /\ ref o <> LUA_NOREF.
Proof.
  unfold is_empty. rewrite !orb_false_iff, bool_decide_eq_false, !Z.eqb_neq.
  tauto.
Qed.

Lemma eta o : {| l := l o; ref := ref o |} = o.
Proof. now destruct o. Qed.

(** The registry that [clear] leaves. *)
Lemma clear_registry o r :
  match l o with
  | Some _ => luaL_unref (ref o) r
  | None => r
  end
  = if is_empty o then r else delete (ref o) r.
Proof.
  unfold is_empty, luaL_unref. destruct (l o) as [state|]; [|reflexivity].
  rewrite bool_decide_eq_false_2 by discriminate. cbn [orb].
  rewrite orb_comm. reflexivity.
Qed.

Lemma clear_eq this s o :
  objects s !! this = Some o ->
  clear this s
  = Some {| registry :=
              if is_empty o then registry s else delete (ref o) (registry s);
            objects :=
              <[this := {| l := None; ref := LUA_REFNIL |}]> (objects s) |}.
Proof.
  intros Ho. unfold clear. rewrite Ho. cbn. now rewrite clear_registry.
Qed.

(** *** What keeps the registry and the objects in agreement *)

(** An object gives up what it holds. *)
Lemma sound_release s p o e :
  sound s -> objects s !! p = Some o -> is_empty e = true ->
  sound {| registry :=
             if is_empty o then registry s else delete (ref o) (registry s);
           objects := <[p := e]> (objects s) |}.
Proof.
  intros (Hheld & Honce & Hall) Ho He. split; [|split]; cbn [registry objects].
  - intros q o' Ho' Hfull. apply lookup_insert_Some in Ho' as [[-> <-]|[Hq Ho']];
      [congruence|].
    specialize (Hheld q o' Ho' Hfull).
    destruct (is_empty o) eqn:Hempty; [exact Hheld|].
    rewrite lookup_delete_ne; [exact Hheld|].
    intros Hsame. apply Hq. symmetry. eapply Honce; eauto.
  - intros q q' o1 o2 H1 H2 Hfull1 Hfull2 Hsame.
    apply lookup_insert_Some in H1 as [[-> <-]|[Hq1 H1]]; [congruence|].
    apply lookup_insert_Some in H2 as [[-> <-]|[Hq2 H2]]; [congruence|].
    eapply Honce; eauto.
  - intros key Hkey.
    assert (Hin : is_Some (registry s !! key)
                  /\ (is_empty o = false -> key <> ref o)).
    { destruct (is_empty o); [split; [exact Hkey | discriminate]|].
      destruct (decide (key = ref o)) as [->|Hne].
      - rewrite lookup_delete_eq in Hkey. now destruct Hkey.
      - rewrite lookup_delete_ne in Hkey by congruence. now split. }
    destruct Hin as [Hin Hne].
    destruct (Hall key Hin) as (q & o' & Ho' & Hfull & Href).
    exists q, o'. split; [|now split].
    rewrite lookup_insert_ne; [exact Ho'|].
    intros <-. rewrite Ho in Ho'. injection Ho' as <-.
    now apply (Hne Hfull).
Qed.

(** An address that holds nothing is given an empty object. *)
Lemma sound_vacant s p e :
  sound s -> vacant s p -> is_empty e = true -> sound (with_object p e s).
Proof.
  intros Hsound Hvacant He.
  destruct (objects s !! p) as [o|] eqn:Ho.
  - pose proof (sound_release s p o e Hsound Ho He) as H.
    now rewrite (Hvacant o Ho) in H.
  - destruct Hsound as (Hheld & Honce & Hall).
    split; [|split]; cbn [registry objects with_object].
    + intros q o' Ho' Hfull.
      apply lookup_insert_Some in Ho' as [[-> <-]|[Hq Ho']]; [congruence|].
      eauto.
    + intros q q' o1 o2 H1 H2 Hfull1 Hfull2 Hsame.
      apply lookup_insert_Some in H1 as [[-> <-]|[Hq1 H1]]; [congruence|].
      apply lookup_insert_Some in H2 as [[-> <-]|[Hq2 H2]]; [congruence|].
      eapply Honce; eauto.
    + intros key Hkey. destruct (Hall key Hkey) as (q & o' & Ho' & Hfull & Href).
      exists q, o'. split; [|now split].
      rewrite lookup_insert_ne; [exact Ho' | congruence].
Qed.

(** An address that holds nothing is given a new key. *)
Lemma sound_acquire s p o key v :
  sound s -> vacant s p -> registry s !! key = None ->
  is_empty o = false -> ref o = key ->
  sound {| registry := <[key := v]> (registry s);
           objects := <[p := o]> (objects s) |}.
Proof.
  intros (Hheld & Honce & Hall) Hvacant Hfresh Hfull Hkey.
  split; [|split]; cbn [registry objects].
  - intros q o' Ho' Hfull'.
    apply lookup_insert_Some in Ho' as [[-> <-]|[Hq Ho']].
    + rewrite Hkey, lookup_insert_eq. eauto.
    + destruct (Hheld q o' Ho' Hfull') as [v' Hv'].
      rewrite lookup_insert_ne; [eauto | congruence].
  - intros q q' o1 o2 H1 H2 Hfull1 Hfull2 Hsame.
    apply lookup_insert_Some in H1 as [[-> <-]|[Hq1 H1]];
      apply lookup_insert_Some in H2 as [[-> <-]|[Hq2 H2]].
    + reflexivity.
    + destruct (Hheld q' o2 H2 Hfull2) as [v' Hv']. congruence.
    + destruct (Hheld q o1 H1 Hfull1) as [v' Hv']. congruence.
    + eapply Honce; eauto.
  - intros key' Hkey'. destruct (decide (key' = key)) as [->|Hne].
    + exists p, o. now rewrite lookup_insert_eq.
    + rewrite lookup_insert_ne in Hkey' by congruence.
      destruct (Hall key' Hkey') as (q & o' & Ho' & Hfull' & Href).
      exists q, o'. split; [|now split].
      rewrite lookup_insert_ne; [exact Ho'|].
      intros <-. specialize (Hvacant o' Ho'). congruence.
Qed.

(** What an object holds goes to an address that holds nothing. *)
Lemma sound_transfer s p q o e :
  sound s -> objects s !! p = Some o -> p <> q -> vacant s q ->
  is_empty e = true ->
  sound {| registry := registry s;
           objects := <[p := e]> (<[q := o]> (objects s)) |}.
Proof.
  intros (Hheld & Honce & Hall) Ho Hpq Hvacant He.
  split; [|split]; cbn [registry objects].
  - intros a o' Ho' Hfull.
    apply lookup_insert_Some in Ho' as [[-> <-]|[Ha Ho']]; [congruence|].
    apply lookup_insert_Some in Ho' as [[-> <-]|[Ha' Ho']]; eauto.
  - assert (Hold : forall a o',
      p <> a -> (<[q := o]> (objects s)) !! a = Some o' ->
      is_empty o' = false ->
      exists a', objects s !! a' = Some o'
                 /\ (a' = a \/ (a' = p /\ a = q))).
    { intros a o' Ha Ho' Hfull.
      apply lookup_insert_Some in Ho' as [[-> <-]|[Ha' Ho']].
      - exists p. auto.
      - exists a. auto. }
    intros a b o1 o2 H1 H2 Hfull1 Hfull2 Hsame.
    apply lookup_insert_Some in H1 as [[-> <-]|[Ha H1]]; [congruence|].
    apply lookup_insert_Some in H2 as [[-> <-]|[Hb H2]]; [congruence|].
    destruct (Hold a o1 Ha H1 Hfull1) as (a' & Ha' & Hwhere1).
    destruct (Hold b o2 Hb H2 Hfull2) as (b' & Hb' & Hwhere2).
    assert (a' = b') as <- by (eapply Honce; eauto).
    destruct Hwhere1 as [->|[-> ->]], Hwhere2 as [->|[Hp ->]];
      try reflexivity; congruence.
  - intros key Hkey. destruct (Hall key Hkey) as (a & o' & Ho' & Hfull & Href).
    destruct (decide (a = p)) as [->|Ha].
    + exists q, o. rewrite Ho in Ho'. injection Ho' as <-.
      rewrite lookup_insert_ne by congruence. now rewrite lookup_insert_eq.
    + exists a, o'. split; [|now split].
      rewrite lookup_insert_ne by congruence.
      rewrite lookup_insert_ne; [exact Ho'|].
      intros <-. specialize (Hvacant o' Ho'). congruence.
Qed.

(** An empty object ends. *)
Lemma sound_remove s p e :
  sound s -> objects s !! p = Some e -> is_empty e = true ->
  sound {| registry := registry s; objects := delete p (objects s) |}.
Proof.
  intros (Hheld & Honce & Hall) Hp He.
  split; [|split]; cbn [registry objects].
  - intros q o Ho Hfull. apply lookup_delete_Some in Ho as [_ Ho]. eauto.
  - intros q q' o1 o2 H1 H2 Hfull1 Hfull2 Hsame.
    apply lookup_delete_Some in H1 as [_ H1].
    apply lookup_delete_Some in H2 as [_ H2]. eapply Honce; eauto.
  - intros key Hkey. destruct (Hall key Hkey) as (q & o & Ho & Hfull & Href).
    exists q, o. split; [|now split].
    rewrite lookup_delete_ne; [exact Ho | congruence].
Qed.

(** *** The operations, one by one *)

Lemma allocate_Some this o s s' :
  allocate this o s = Some s' ->
  objects s !! this = None /\ s' = with_object this o s.
Proof.
  unfold allocate. destruct (objects s !! this); [discriminate|].
  now intros [= <-].
Qed.

Lemma vacant_absent s p : objects s !! p = None -> vacant s p.
Proof. intros Hp o Ho. congruence. Qed.

Lemma vacant_set s p e : is_empty e = true -> vacant (with_object p e s) p.
Proof.
  intros He o Ho. cbn in Ho. rewrite lookup_insert_eq in Ho. congruence.
Qed.

Lemma sound_clear this s s' :
  sound s -> clear this s = Some s' ->
  sound s' /\ objects s' !! this = Some {| l := None; ref := LUA_REFNIL |}.
Proof.
  intros Hsound Hclear.
  destruct (objects s !! this) as [o|] eqn:Ho.
  - rewrite (clear_eq this s o Ho) in Hclear. injection Hclear as <-.
    split; [now apply sound_release|].
    cbn. now rewrite lookup_insert_eq.
  - unfold clear in Hclear. now rewrite Ho in Hclear.
Qed.

Lemma sound_assign this other s s' :
  fresh_keys -> sound s -> assign this other s = Some s' -> sound s'.
Proof.
  intros Hfresh Hsound Hassign. unfold assign in Hassign.
  destruct (clear this s) as [s1|] eqn:Hclear; [|discriminate].
  apply sound_clear in Hclear as [Hsound1 Hcleared]; [|exact Hsound].
  cbn in Hassign.
  destruct (objects s1 !! other) as [o|] eqn:Ho; [|discriminate].
  rewrite Hcleared in Hassign. cbn in Hassign.
  assert (Hsound2 :
    sound (with_object this {| l := l o; ref := LUA_REFNIL |} s1)
    /\ vacant (with_object this {| l := l o; ref := LUA_REFNIL |} s1) this).
  { assert (He : is_empty {| l := l o; ref := LUA_REFNIL |} = true).
    { unfold is_empty. cbn [l ref]. now rewrite orb_true_r. }
    split; [|now apply vacant_set].
    apply sound_vacant; [exact Hsound1 | | exact He].
    intros o' Ho'. rewrite Hcleared in Ho'. now injection Ho' as <-. }
  destruct Hsound2 as [Hsound2 Hvacant2].
  destruct (l o) as [state|] eqn:Hl; [|now injection Hassign as <-].
  destruct ((ref o =? LUA_REFNIL) || (ref o =? LUA_NOREF)) eqn:Hnil.
  - injection Hassign as <-.
    apply sound_vacant; [exact Hsound2 | exact Hvacant2|].
    unfold is_empty. cbn [l ref]. rewrite <- orb_assoc, Hnil.
    now rewrite orb_true_r.
  - assert (Hfull : is_empty o = false).
    { unfold is_empty. rewrite Hl, <- orb_assoc, Hnil.
      now rewrite bool_decide_eq_false_2. }
    assert (Hother : other <> this).
    { intros ->. rewrite Ho in Hcleared. injection Hcleared as ->. discriminate. }
    pose proof Hsound1 as (Hheld & _ & _).
    destruct (Hheld other o Ho Hfull) as [v Hv].
    cbn [registry with_object lua_rawgeti luaL_ref] in Hassign.
    unfold lua_rawgeti in Hassign. rewrite Hv in Hassign.
    cbn [luaL_ref] in Hassign. injection Hassign as <-.
    destruct (Hfresh (registry s1)) as (Hkey & Hnotnil & Hnotnoref).
    unfold with_object, with_registry. cbn [registry objects].
    rewrite insert_insert_eq.
    apply sound_acquire.
    + exact Hsound1.
    + intros o' Ho'. rewrite Hcleared in Ho'. now injection Ho' as <-.
    + exact Hkey.
    + apply is_empty_fields. cbn [l ref]. now split.
    + reflexivity.
Qed.

Lemma sound_move_assign this other s s' :
  sound s -> move_assign this other s = Some s' -> sound s'.
Proof.
  intros Hsound Hmove. unfold move_assign in Hmove.
  destruct (clear this s) as [s1|] eqn:Hclear; [|discriminate].
  apply sound_clear in Hclear as [Hsound1 Hcleared]; [|exact Hsound].
  cbn in Hmove.
  destruct (objects s1 !! other) as [o|] eqn:Ho; [|discriminate].
  cbn in Hmove. injection Hmove as <-. rewrite eta.
  destruct (decide (other = this)) as [->|Hne].
  - rewrite Ho in Hcleared. injection Hcleared as ->.
    unfold with_object. cbn [registry objects]. rewrite insert_insert_eq.
    apply (sound_vacant s1 this); [exact Hsound1 | | reflexivity].
    intros o' Ho'. rewrite Ho in Ho'. now injection Ho' as <-.
  - apply (sound_transfer s1 other this o); try assumption; [|reflexivity].
    intros o' Ho'. rewrite Hcleared in Ho'. now injection Ho' as <-.
Qed.

Lemma sound_copy_construct this other s s' :
  fresh_keys -> sound s -> copy_construct this other s = Some s' -> sound s'.
Proof.
  intros Hfresh Hsound Hcopy. unfold copy_construct in Hcopy.
  destruct (objects s !! other) as [o|]; [|discriminate]. cbn in Hcopy.
  destruct (allocate this _ s) as [s1|] eqn:Hnew; [|discriminate].
  apply allocate_Some in Hnew as [Habsent ->]. cbn in Hcopy.
  apply (sound_assign _ _ _ _ Hfresh) in Hcopy; [exact Hcopy|].
  apply sound_vacant; [exact Hsound | now apply vacant_absent|].
  unfold is_empty. cbn [l ref]. now rewrite orb_true_r.
Qed.

Lemma sound_move_construct this other s s' :
  sound s -> move_construct this other s = Some s' -> sound s'.
Proof.
  intros Hsound Hmove. unfold move_construct in Hmove.
  destruct (objects s !! other) as [o|] eqn:Ho; [|discriminate].
  cbn in Hmove.
  destruct (allocate this _ s) as [s1|] eqn:Hnew; [|discriminate].
  apply allocate_Some in Hnew as [Habsent ->]. cbn in Hmove.
  injection Hmove as <-. rewrite eta.
  apply (sound_transfer s other this o); try assumption; [| |reflexivity].
  - intros ->. congruence.
  - now apply vacant_absent.
Qed.

Lemma sound_destroy this s s' :
  sound s -> destroy this s = Some s' -> sound s'.
Proof.
  intros Hsound Hdestroy. unfold destroy in Hdestroy.
  destruct (clear this s) as [s1|] eqn:Hclear; [|discriminate].
  apply sound_clear in Hclear as [Hsound1 Hcleared]; [|exact Hsound].
  cbn in Hdestroy. injection Hdestroy as <-.
  now apply (sound_remove s1 this {| l := None; ref := LUA_REFNIL |}).
Qed.

Lemma sound_construct_empty this s s' :
  sound s -> construct_empty this s = Some s' -> sound s'.
Proof.
  intros Hsound Hnew. apply allocate_Some in Hnew as [Habsent ->].
  apply sound_vacant; [exact Hsound | now apply vacant_absent | reflexivity].
Qed.

Lemma reference_Some b this state v s s' :
  reference b this state v s = Some s' ->
  objects s !! this = None
  /\ s' = {| registry := <[luaL_ref_key (registry s) := v]> (registry s);
             objects :=
               <[this := {| l := Some state;
                            ref := luaL_ref_key (registry s) |}]>
                 (objects s) |}.
Proof.
  unfold reference, construct, luaL_ref, Debug.SOLARUS_ASSERT,
    Debug.SOLARUS_REQUIRE.
  rewrite bool_decide_eq_true_2 by discriminate.
  destruct (negb (Debug.NDEBUG b)); cbn [Debug.and_then];
    intros Hnew; apply allocate_Some in Hnew as [Habsent ->]; now split.
Qed.

Lemma sound_reference b this state v s s' :
  fresh_keys -> sound s -> reference b this state v s = Some s' -> sound s'.
Proof.
  intros Hfresh Hsound Hnew. apply reference_Some in Hnew as [Habsent ->].
  destruct (Hfresh (registry s)) as (Hkey & Hnotnil & Hnotnoref).
  apply sound_acquire; try assumption.
  - now apply vacant_absent.
  - apply is_empty_fields. cbn [l ref]. now split.
  - reflexivity.
Qed.

Lemma sound_run b op s s' :
  fresh_keys -> sound s -> run b op s = Some s' -> sound s'.
Proof.
  intros Hfresh Hsound. destruct op; cbn [run].
  - now apply sound_reference.
  - now apply sound_construct_empty.
  - now apply sound_copy_construct.
  - now apply sound_move_construct.
  - now apply sound_assign.
  - now apply sound_move_assign.
  - intros Hclear. now apply sound_clear in Hclear as [? _].
  - now apply sound_destroy.
Qed.

Lemma sound_nothing : sound nothing.
Proof.
  split; [|split]; cbn.
  - intros p o Ho. now rewrite lookup_empty in Ho.
  - intros p q o o' Ho. now rewrite lookup_empty in Ho.
  - intros key [v Hv]. now rewrite lookup_empty in Hv.
Qed.

(** X21.  However references are made, copied, moved, assigned, cleared
    and destroyed, the objects and the registry stay in agreement: an object
    that is not empty holds a key of the registry, no two objects hold the
    same key, so that no key is released twice, and every key of the registry
    is held by an object, so that when no object is left the registry is
    empty.  [luaL_ref] is taken to give keys that are not in use. *)
Theorem references_are_held_once (b : Debug.Build) (ops : list Op)
    (s s' : Lua) :
  fresh_keys ->
  sound s ->
  run_all b ops s = Some s' ->
  sound s' /\ (objects s' = ∅ -> registry s' = ∅).
Proof.
  intros Hfresh Hsound Hrun.
  assert (Hsound' : sound s').
  { revert s Hsound Hrun. induction ops as [|op ops IH]; intros s Hsound Hrun.
    - cbn in Hrun. now injection Hrun as <-.
    - cbn [run_all] in Hrun.
      destruct (run b op s) as [s1|] eqn:Hop; [|discriminate].
      cbn in Hrun. eapply IH; [|exact Hrun].
      eapply sound_run; eassumption. }
  split; [exact Hsound'|]. destruct Hsound' as (_ & _ & Hall).
  intros Hnone. apply map_eq. intros key. rewrite lookup_empty.
    destruct (registry s' !! key) as [v|] eqn:Hkey; [|reflexivity].
    destruct (Hall key (mk_is_Some _ _ Hkey)) as (p & o & Ho & _).
    rewrite Hnone, lookup_empty in Ho. discriminate.
Qed.

(** *** Assignment *)

Lemma clear_clear this s s' :
  clear this s = Some s' -> clear this s' = Some s'.
Proof.
  unfold clear. destruct (objects s !! this) as [o|]; [|discriminate].
  cbn. intros [= <-]. cbn. rewrite lookup_insert_eq. cbn.
  unfold with_object, with_registry. cbn. now rewrite insert_insert_eq.
Qed.

(** X22.  An object assigned to itself loses what it holds: the copy
    assignment and the move assignment both clear the object first and then
    read it, so [x = x] leaves [x] empty and releases its key.  Assigned from
    another object that holds a value, the object gets a key of its own for
    the same value, and the other object keeps its key. *)
Theorem self_assignment_empties_the_reference (this : Z) (s : Lua) (o : t) :
  objects s !! this = Some o ->
  assign this this s = clear this s
  /\ move_assign this this s = clear this s
  /\ (exists s',
        clear this s = Some s'
        /\ objects s' !! this = Some {| l := None; ref := LUA_REFNIL |}
        /\ (is_empty o = false ->
            lua_rawgeti (registry s') (ref o) = None))
  /\ (forall other o' v,
        fresh_keys -> sound s ->
        other <> this ->
        objects s !! other = Some o' ->
        is_empty o' = false ->
        lua_rawgeti (registry s) (ref o') = Some v ->
        exists s' key,
          assign this other s = Some s'
          /\ objects s' !! this = Some {| l := l o'; ref := key |}
          /\ key <> ref o'
          /\ lua_rawgeti (registry s') key = Some v
          /\ objects s' !! other = Some o'
          /\ lua_rawgeti (registry s') (ref o') = Some v).
Proof.
  intros Ho.
  pose proof (clear_eq this s o Ho) as Hclear.
  split; [|split; [|split]].
  - unfold assign. rewrite Hclear. cbn. rewrite lookup_insert_eq. cbn.
    unfold with_object. cbn. now rewrite insert_insert_eq.
  - unfold move_assign. rewrite Hclear. cbn. rewrite lookup_insert_eq. cbn.
    unfold with_object. cbn. now rewrite !insert_insert_eq.
  - eexists. split; [exact Hclear|]. cbn. split; [apply lookup_insert_eq|].
    intros ->. apply lookup_delete_eq.
  - intros other o' v Hfresh Hsound Hne Ho' Hfull Hv.
    assert (Hne' : this <> other) by (intros ->; now apply Hne).
    unfold lua_rawgeti in *.
    set (r1 := if is_empty o then registry s else delete (ref o) (registry s))
      in *.
    assert (Hv1 : r1 !! ref o' = Some v).
    { subst r1. destruct (is_empty o) eqn:Hempty; [exact Hv|].
      rewrite lookup_delete_ne; [exact Hv|].
      intros Hsame. apply Hne. destruct Hsound as (_ & Honce & _).
      symmetry. eapply Honce; eauto. }
    apply is_empty_fields in Hfull as (Hstate & Hnil & Hnoref).
    destruct (l o') as [state|] eqn:Hl; [|congruence].
    destruct (Hfresh r1) as (Hkey & _ & _).
    exists {| registry := <[luaL_ref_key r1 := v]> r1;
              objects := <[this := {| l := Some state; ref := luaL_ref_key r1 |}]>
                           (objects s) |}, (luaL_ref_key r1).
    split.
    { unfold assign. rewrite Hclear. cbn.
      rewrite (lookup_insert_ne (objects s) this other) by exact Hne'.
      rewrite Ho'. cbn.
      rewrite lookup_insert_eq. cbn. rewrite Hl.
      apply Z.eqb_neq in Hnil, Hnoref. rewrite Hnil, Hnoref. cbn [orb].
      unfold lua_rawgeti. fold r1. rewrite Hv1. cbn.
      unfold with_object, with_registry. cbn. now rewrite !insert_insert_eq. }
    cbn. split; [apply lookup_insert_eq|]. split; [congruence|].
    split; [apply lookup_insert_eq|].
    split; [rewrite lookup_insert_ne by exact Hne'; exact Ho'|].
    rewrite lookup_insert_ne by congruence. exact Hv1.
Qed.

(** *** Copies *)

(** X23.  A copy holds the same value under a key of its own.  Destroying
    the copy puts the registry and the objects back as they were; destroying
    the original leaves the copy with its value. *)
Theorem a_copy_is_a_reference_of_its_own (this other : Z) (s : Lua) (o : t) :
  fresh_keys ->
  objects s !! this = None ->
  objects s !! other = Some o ->
  (copy_construct this other s ≫= destroy this) = Some s
  /\ (forall v,
        is_empty o = false ->
        lua_rawgeti (registry s) (ref o) = Some v ->
        exists s1 s2 key,
          copy_construct this other s = Some s1
          /\ objects s1 !! this = Some {| l := l o; ref := key |}
          /\ key <> ref o
          /\ lua_rawgeti (registry s1) key = Some v
          /\ destroy other s1 = Some s2
          /\ objects s2 !! other = None
          /\ lua_rawgeti (registry s2) (ref o) = None
          /\ objects s2 !! this = Some {| l := l o; ref := key |}
          /\ lua_rawgeti (registry s2) key = Some v).
Proof.
  intros Hfresh Habsent Ho.
  assert (Hne : other <> this) by congruence.
  assert (Hne' : this <> other) by congruence.
  assert (Hcopy : copy_construct this other s
    = Some
        (match l o with
         | Some _ =>
             if (ref o =? LUA_REFNIL) || (ref o =? LUA_NOREF) then
               with_object this {| l := l o; ref := ref o |} s
             else
               match registry s !! ref o with
               | Some v =>
                   {| registry := <[luaL_ref_key (registry s) := v]> (registry s);
                      objects :=
                        <[this := {| l := l o;
                                     ref := luaL_ref_key (registry s) |}]>
                          (objects s) |}
               | None => with_object this {| l := l o; ref := LUA_REFNIL |} s
               end
         | None => with_object this {| l := None; ref := LUA_REFNIL |} s
         end)).
  { unfold copy_construct, allocate. rewrite Ho. cbn. rewrite Habsent. cbn.
    unfold assign, clear. cbn. rewrite lookup_insert_eq. cbn.
    destruct (l o) as [state|] eqn:Hl; cbn;
      rewrite (lookup_insert_ne _ this other) by exact Hne';
      rewrite (lookup_insert_ne _ this other) by exact Hne';
      rewrite Ho; cbn; rewrite lookup_insert_eq; cbn; rewrite Hl;
      unfold with_object, with_registry, lua_rawgeti; cbn;
      [|now rewrite !insert_insert_eq].
    destruct ((ref o =? LUA_REFNIL) || (ref o =? LUA_NOREF));
      [now rewrite !insert_insert_eq|].
    destruct (registry s !! ref o) as [v|]; cbn;
      now rewrite !insert_insert_eq. }
  split.
  - rewrite Hcopy. cbn. unfold destroy, clear.
    destruct s as [r objs]. cbn in *.
    destruct (l o) as [state|] eqn:Hl.
    + destruct ((ref o =? LUA_REFNIL) || (ref o =? LUA_NOREF)) eqn:Hnil.
      * cbn. rewrite lookup_insert_eq. cbn.
        unfold luaL_unref. rewrite orb_comm, Hnil.
        rewrite insert_insert_eq, delete_insert_id by exact Habsent.
        reflexivity.
      * destruct (r !! ref o) as [v|] eqn:Hv; cbn; rewrite lookup_insert_eq;
          cbn.
        -- destruct (Hfresh r) as (Hkey & Hnotnil & Hnotnoref).
           unfold luaL_unref.
           apply Z.eqb_neq in Hnotnil, Hnotnoref.
           rewrite Hnotnil, Hnotnoref. cbn [orb].
           rewrite delete_insert_id by exact Hkey.
           rewrite insert_insert_eq, delete_insert_id by exact Habsent.
           reflexivity.
        -- rewrite insert_insert_eq, delete_insert_id by exact Habsent.
           reflexivity.
    + cbn. rewrite lookup_insert_eq. cbn.
      rewrite insert_insert_eq, delete_insert_id by exact Habsent.
      reflexivity.
  - intros v Hfull Hv. unfold lua_rawgeti in *.
    apply is_empty_fields in Hfull as (Hstate & Hnil & Hnoref).
    destruct (l o) as [state|] eqn:Hl; [|congruence].
    apply Z.eqb_neq in Hnil, Hnoref. rewrite Hnil, Hnoref, Hv in Hcopy.
    cbn [orb] in Hcopy.
    destruct (Hfresh (registry s)) as (Hkey & Hnotnil & Hnotnoref).
    assert (Hkeys : luaL_ref_key (registry s) <> ref o) by congruence.
    eexists _, _, (luaL_ref_key (registry s)).
    split; [exact Hcopy|]. cbn.
    split; [apply lookup_insert_eq|]. split; [exact Hkeys|].
    split; [apply lookup_insert_eq|].
    split.
    { unfold destroy, clear. cbn. rewrite lookup_insert_ne by congruence.
      rewrite Ho. cbn. rewrite Hl. reflexivity. }
    cbn. split; [apply lookup_delete_eq|].
    unfold luaL_unref. rewrite Hnil, Hnoref. cbn [orb].
    split; [apply lookup_delete_eq|].
    split.
    + rewrite lookup_delete_ne by congruence.
      rewrite lookup_insert_ne by congruence. apply lookup_insert_eq.
    + rewrite lookup_delete_ne by congruence. apply lookup_insert_eq.
Qed.

End ScopedLuaRef_properties.

(** ** Examples with references *)

Lemma foldr_max_bound (keys : list Z) (key : Z) :
  key ∈ keys -> key <= foldr Z.max 0 keys.
Proof.
  induction keys as [|k keys IH]; intros Hin.
  - now apply elem_of_nil in Hin.
  - cbn. apply elem_of_cons in Hin as [->|Hin]; [lia|].
    specialize (IH Hin). lia.
Qed.

Lemma foldr_max_nonneg (keys : list Z) : 0 <= foldr Z.max 0 keys.
Proof. induction keys as [|k keys IH]; cbn; lia. Qed.

Lemma counting_is_fresh :
  ScopedLuaRef.fresh_keys (auxlib := ScopedLuaRef.counting).
Proof.
  intros r. cbn. unfold ScopedLuaRef.highest_key.
  set (keys := map fst (map_to_list r)).
  pose proof (foldr_max_nonneg keys) as Hpos.
  split; [|unfold ScopedLuaRef.LUA_REFNIL, ScopedLuaRef.LUA_NOREF; lia].
  destruct (r !! (foldr Z.max 0 keys + 1)) as [v|] eqn:Hv; [|reflexivity].
  apply elem_of_map_to_list in Hv.
  assert (Hin : foldr Z.max 0 keys + 1 ∈ keys).
  { apply list_elem_of_In. apply list_elem_of_In in Hv.
    exact (in_map fst _ _ Hv). }
  apply foldr_max_bound in Hin. lia.
Qed.

(** A value is referenced, the reference copied, assigned to itself, and
    the copy destroyed: nothing is left in the registry. *)
Lemma references_are_held_once_witness :
  exists s',
    ScopedLuaRef.run_all (auxlib := ScopedLuaRef.counting) Debug.DebugBuild
      [ScopedLuaRef.Reference 1 7 100; ScopedLuaRef.Copy_construct 2 1;
       ScopedLuaRef.Assign 1 1; ScopedLuaRef.Destroy 2]
      ScopedLuaRef.nothing
    = Some s'
    /\ ScopedLuaRef.sound s'
    /\ ScopedLuaRef.registry s' = ∅.
Proof.
  eexists. split; [vm_compute; reflexivity|].
  split; [|reflexivity].
  apply (references_are_held_once (auxlib := ScopedLuaRef.counting)
           Debug.DebugBuild
           [ScopedLuaRef.Reference 1 7 100; ScopedLuaRef.Copy_construct 2 1;
            ScopedLuaRef.Assign 1 1; ScopedLuaRef.Destroy 2]
           ScopedLuaRef.nothing _ counting_is_fresh sound_nothing).
  vm_compute. reflexivity.
Defined.

(** The one reference, assigned to itself. *)
Lemma self_assignment_empties_the_reference_witness :
  ScopedLuaRef.assign (auxlib := ScopedLuaRef.counting) 1 1
    ScopedLuaRef.one_reference
  = ScopedLuaRef.clear 1 ScopedLuaRef.one_reference
  /\ exists s',
       ScopedLuaRef.clear 1 ScopedLuaRef.one_reference = Some s'
       /\ ScopedLuaRef.lua_rawgeti (ScopedLuaRef.registry s') 1 = None.
Proof.
  destruct (self_assignment_empties_the_reference
              (auxlib := ScopedLuaRef.counting) 1 ScopedLuaRef.one_reference
              {| ScopedLuaRef.l := Some 7; ScopedLuaRef.ref := 1 |} eq_refl)
    as (Hself & _ & (s' & Hclear & _ & Hreleased) & _).
  split; [exact Hself|]. exists s'. split; [exact Hclear|].
  apply Hreleased. reflexivity.
Defined.

(** The one reference, copied, and the copy destroyed. *)
Lemma a_copy_is_a_reference_of_its_own_witness :
  (ScopedLuaRef.copy_construct (auxlib := ScopedLuaRef.counting) 2 1
     ScopedLuaRef.one_reference
   ≫= ScopedLuaRef.destroy 2)
  = Some ScopedLuaRef.one_reference.
Proof.
  exact (proj1 (a_copy_is_a_reference_of_its_own
                  (auxlib := ScopedLuaRef.counting) 2 1
                  ScopedLuaRef.one_reference
                  {| ScopedLuaRef.l := Some 7; ScopedLuaRef.ref := 1 |}
                  counting_is_fresh eq_refl eq_refl)).
Defined.

(** ** Examples *)

(** The space key, pressed and released. *)
Lemma simulated_key_press_is_received_witness :
  exists e w' e' w'',
    (simulate_key_pressed (headers := SDL2_headers) KeyboardKey.SPACE ;;
     get_event (collaborators := quiet_bench)) initial_world
    = Return (Some e) w'
    /\ is_keyboard_key_pressed_key (headers := SDL2_headers)
         (input w') e KeyboardKey.SPACE = true
    /\ (simulate_key_released (headers := SDL2_headers) KeyboardKey.SPACE ;;
        get_event (collaborators := quiet_bench)) w'
       = Return (Some e') w''
    /\ is_keyboard_key_released_key (headers := SDL2_headers)
         (input w'') e' KeyboardKey.SPACE = true.
Proof.
  destruct (simulated_key_press_is_received (headers := SDL2_headers)
              (collaborators := quiet_bench)
              KeyboardKey.SPACE initial_world eq_refl)
    as (e & w' & Hrun & _ & _ & Hnew & _ & e' & w'' & Hrun' & Hreleased & _).
  exists e, w', e', w''. split; [exact Hrun|]. split.
  - apply Hnew. apply not_elem_of_empty.
  - split; [exact Hrun' | exact Hreleased].
Defined.

(** The two entries named ".". *)
Lemma key_names_are_distinct_but_for_colon_witness :
  KeyboardKey.names !! 20%nat = Some (KeyboardKey.PERIOD, ".")
  /\ KeyboardKey.names !! 32%nat = Some (KeyboardKey.COLON, ".")
  /\ "." = "." /\ KeyboardKey.PERIOD = KeyboardKey.PERIOD
  /\ KeyboardKey.COLON = KeyboardKey.COLON.
Proof.
  split; [reflexivity|]. split; [reflexivity|].
  apply (key_names_are_distinct_but_for_colon 20 32); [lia | reflexivity..].
Defined.

(** An axis of joypad 7 moves, and no joypad is known. *)
Lemma event_of_unknown_joypad_throws_witness :
  (exists w',
     check_input (collaborators := quiet_bench)
       (bench_world [SDL.caxis_event 7 0 1000] ∅ ∅ ∅)
     = Throw "std::out_of_range" w'
     /\ sdl_queue (input w') = []
     /\ trace w' = [])
  /\ (exists w',
        fixed_frame (collaborators := quiet_bench)
          {| last_frame_date := 0; lag := 0; time_dropped := 0 |}
          (bench_world [SDL.caxis_event 7 0 1000] ∅ ∅ ∅)
        = Throw "std::out_of_range" w'
        /\ sdl_queue (input w') = []
        /\ updates (trace w') = []).
Proof.
  destruct (event_of_unknown_joypad_throws (collaborators := quiet_bench)
              (bench_world [SDL.caxis_event 7 0 1000] ∅ ∅ ∅)
              (SDL.caxis_event 7 0 1000) [] eq_refl eq_refl eq_refl)
    as (_ & (w' & Hcheck & _ & Hqueue & _ & _ & _ & Hsame) & Hfixed).
  split.
  - exists w'. split; [exact Hcheck|]. split; [exact Hqueue|].
    apply Hsame. discriminate.
  - destruct (Hfixed {| last_frame_date := 0; lag := 0; time_dropped := 0 |})
      as (st1 & measured & w'' & Hmeasure & _ & Hframe & Hqueue' & _ & _ & _
          & Hsame').
    exists w''. split; [exact Hframe|]. split; [exact Hqueue'|].
    rewrite Hsame' by discriminate.
    vm_compute in Hmeasure. injection Hmeasure as _ <-. reflexivity.
Defined.

(** The first joypad is plugged in. *)
Lemma joypad_is_added_once_witness :
  exists w',
    notify_joypad (collaborators := quiet_bench)
      {| internal_event := cdevice_event SDL_CONTROLLERDEVICEADDED 0 |}
      initial_world
    = Return true w'
    /\ joypads (input w') = {[0 := 2]}
    /\ jindex2id (input w') = {[0 := 0]}
    /\ notify_joypad (collaborators := quiet_bench)
         {| internal_event := cdevice_event SDL_CONTROLLERDEVICEADDED 0 |} w'
       = Return false w'.
Proof.
  destruct (proj2 (joypad_is_added_once (collaborators := quiet_bench)
                     {| internal_event :=
                          cdevice_event SDL_CONTROLLERDEVICEADDED 0 |}
                     initial_world eq_refl) eq_refl)
    as (w' & Hrun & _ & Hjoypads & Hindex & _ & Hagain).
  exists w'. split; [exact Hrun|]. split; [exact Hjoypads|].
  split; [exact Hindex | exact Hagain].
Defined.

(** Joypad 30 is unplugged. *)
Lemma joypad_is_removed_witness :
  exists w',
    notify_joypad (collaborators := quiet_bench)
      {| internal_event := cdevice_event SDL_CONTROLLERDEVICEREMOVED 3 |}
      two_joypads
    = Return false w'
    /\ joypads (input w') = delete 3 (joypads (input two_joypads))
    /\ joypad_id_from_index (input w') 1 = -1.
Proof.
  destruct (joypad_is_removed (collaborators := quiet_bench)
              {| internal_event := cdevice_event SDL_CONTROLLERDEVICEREMOVED 3 |}
              two_joypads 30 eq_refl eq_refl)
    as (w' & Hrun & _ & Hjoypads & _ & _ & Hindex & _).
  exists w'. split; [exact Hrun|]. split; [exact Hjoypads | apply Hindex].
Defined.

(** Joypad 30, which the controls use, is unplugged: they take joypad 50. *)
Lemma controls_fall_back_when_their_joypad_is_removed_witness :
  exists w' handled lua_handled game_handled,
    notify_input (collaborators := controls_bench (Some 30))
      {| internal_event := cdevice_event SDL_CONTROLLERDEVICEREMOVED 3 |}
      two_joypads
    = Return tt w'
    /\ trace w'
       = using_joystick (collaborators := controls_bench (Some 30)) (Some 50)
         ++ [Controls_set_joypad (Some 50); Joypad_reset 30;
             Lua_on_joypad_removed 30 handled]
         ++ forwarded
              {| internal_event := cdevice_event SDL_CONTROLLERDEVICEREMOVED 3 |}
              handled true lua_handled game_handled.
Proof.
  destruct (controls_fall_back_when_their_joypad_is_removed
              (collaborators := controls_bench (Some 30))
              {| internal_event := cdevice_event SDL_CONTROLLERDEVICEREMOVED 3 |}
              two_joypads 30 eq_refl eq_refl eq_refl ltac:(discriminate))
    as (w' & handled & lua & gm & Hrun & _ & _ & Hmain & _).
  exists w', handled, lua, gm. split; [exact Hrun|].
  apply Hmain. reflexivity.
Defined.

(** A game was asked for: the step starts it. *)
Lemma step_goes_to_the_next_game_witness :
  exists w',
    step (collaborators := quiet_bench) fixed_timestep_ns
      (with_main_loop (with_next_game (Some 1)) initial_world)
    = Return tt w'
    /\ game (main_loop w') = Some 1
    /\ trace w' = [Lua_update; System_update fixed_timestep_ns; Game_start].
Proof.
  destruct (step_goes_to_the_next_game (collaborators := quiet_bench)
              fixed_timestep_ns
              (with_main_loop (with_next_game (Some 1)) initial_world)
              (fun _ => eq_refl))
    as (w' & Hrun & Hgame & _ & Htrace & _).
  exists w'. split; [exact Hrun|]. split; [exact Hgame | exact Htrace].
Defined.

(** The window loses the focus while the simulation runs. *)
Lemma focus_suspends_and_resumes_witness :
  exists w' lua_handled later,
    notify_input (collaborators := quiet_bench)
      {| internal_event :=
           SDL.window_event_of SDL_WINDOWEVENT_FOCUS_LOST 0 0 |}
      initial_world
    = Return tt w'
    /\ suspended (main_loop w') = true
    /\ trace w'
       = suspension
         ++ Lua_notify_input
              {| internal_event :=
                   SDL.window_event_of SDL_WINDOWEVENT_FOCUS_LOST 0 0 |}
              lua_handled
            :: later.
Proof.
  destruct (focus_suspends_and_resumes (collaborators := quiet_bench)
              {| internal_event :=
                   SDL.window_event_of SDL_WINDOWEVENT_FOCUS_LOST 0 0 |}
              initial_world quiet_bench_is_calm eq_refl (or_introl eq_refl))
    as (w' & lua & later & Hrun & Hsuspended & _ & Htrace).
  exists w', lua, later. split; [exact Hrun|].
  split; [exact Hsuspended | exact Htrace].
Defined.

(** A suspended frame in each of the two modes. *)
Lemma suspended_frame_is_idle_witness :
  (exists w' waits,
     fixed_frame (collaborators := quiet_bench)
       {| last_frame_date := 0; lag := 0; time_dropped := 0 |}
       (with_main_loop (with_suspended true) initial_world)
     = Return ({| last_frame_date := 0; lag := 0; time_dropped := 0 |}, 0) w'
     /\ trace w' = [System_get_real_time_ns 0] ++ waits
     /\ Forall waiting_effect waits)
  /\ dynamic_frame (collaborators := quiet_bench)
       {| dynamic_last_frame_date := 0; delta_buffer := 0 |}
       (with_main_loop (with_suspended true) initial_world)
     = Return ({| dynamic_last_frame_date := 0; delta_buffer := 0 |}, None)
         (with_trace (fun h => h ++ [System_sleep 10])
            (with_main_loop (with_suspended true) initial_world)).
Proof.
  split.
  - destruct (proj1 (suspended_frame_is_idle (collaborators := quiet_bench)
                       (with_trace (fun h => h ++ [System_get_real_time_ns 0])
                          (with_main_loop (with_suspended true) initial_world))
                       (with_trace (fun h => h ++ [System_get_real_time_ns 0])
                          (with_main_loop (with_suspended true) initial_world))
                       eq_refl eq_refl)
                {| last_frame_date := 0; lag := 0; time_dropped := 0 |}
                {| last_frame_date := 0; lag := 0; time_dropped := 0 |}
                (with_main_loop (with_suspended true) initial_world) eq_refl)
      as (w' & waits & Hrun & _ & _ & Htrace & Hwaits).
    exists w', waits. split; [exact Hrun|]. split; [exact Htrace | exact Hwaits].
  - exact (proj2 (suspended_frame_is_idle (collaborators := quiet_bench)
                    (with_main_loop (with_suspended true) initial_world)
                    (with_main_loop (with_suspended true) initial_world)
                    eq_refl eq_refl)
             {| dynamic_last_frame_date := 0; delta_buffer := 0 |}).
Defined.

(** A turbo frame entered without lag. *)
Lemma turbo_frame_steps_at_least_once_witness :
  exists w',
    fixed_update (collaborators := quiet_bench) 0
      (with_main_loop (with_turbo true) initial_world)
    = Return (- fixed_timestep_ns, 1) w'
    /\ updates (trace w') = [fixed_timestep_ns].
Proof.
  destruct (turbo_frame_steps_at_least_once (collaborators := quiet_bench) 0
              (with_main_loop (with_turbo true) initial_world)
              quiet_bench_is_calm eq_refl eq_refl)
    as (lag' & num & w' & Hrun & _ & Hlag & Hupdates & Hone & _).
  - unfold Int.INT64_MIN, Int.INT64_MAX, fixed_timestep_ns. lia.
  - assert (Hnum : num = 1) by (apply Hone; unfold fixed_timestep_ns; lia).
    subst num lag'. exists w'. split; [exact Hrun | exact Hupdates].
Defined.

(** A frame that began at 5 s and lasted 3 ms. *)
Lemma frame_end_sleep_needs_a_young_clock_witness :
  fixed_sleep (collaborators := late_bench) begun_at_five_seconds initial_world
  = Return tt
      (with_trace (fun h => h ++ [System_get_real_time_ms 5003]) initial_world).
Proof.
  destruct (frame_end_sleep_needs_a_young_clock (collaborators := late_bench)
              begun_at_five_seconds initial_world)
    as (w' & ms & Hrun & _ & _ & _).
  - unfold begun_at_five_seconds, Int.INT64_MAX. cbn. lia.
  - unfold begun_at_five_seconds. cbn. lia.
  - unfold begun_at_five_seconds, fixed_timestep_ns. cbn. lia.
  - rewrite Hrun. vm_compute in Hrun. injection Hrun as <-. reflexivity.
Defined.

(** A frame of [dynamic_run] that lasted 5.003 s. *)
Lemma long_frame_is_forgiven_witness :
  exists st' f w',
    dynamic_frame (collaborators := late_bench)
      {| dynamic_last_frame_date := 0; delta_buffer := 0 |} initial_world
    = Return (st', Some f) w'
    /\ last_frame_duration f = 5003000000
    /\ updates (trace w') = [16666666]
    /\ delta_buffer st' = 0.
Proof.
  destruct (long_frame_is_forgiven (collaborators := late_bench)
              {| dynamic_last_frame_date := 0; delta_buffer := 0 |}
              initial_world initial_world eq_refl eq_refl eq_refl eq_refl)
    as (st' & f & w' & later & Hrun & Htrace & _ & Hup & _ & Hlast & _ & _
        & Hbuffer).
  exists st', f, w'. split; [exact Hrun|]. split; [exact Hlast|].
  split; [rewrite Htrace, updates_app, Hup; reflexivity|].
  destruct Hbuffer as (_ & Hbuffer & _);
    [vm_compute; discriminate | vm_compute; discriminate
    | vm_compute; discriminate | exact Hbuffer].
Defined.

(** Two commands typed in the launcher. *)
Lemma launcher_ids_are_the_console_numbers_witness :
  exists q' w' successes,
    QuestRunner.run typed_commands running_launcher = ([0; 1], q')
    /\ (stdin_thread (getlines (QuestRunner.process_stdin q')) ;;
        check_input (collaborators := quiet_bench)) initial_world
       = Return tt w'
    /\ console_transcript (trace w')
       = transcript_of 0 ["print(1)"; "x = 2"] successes.
Proof.
  destruct (launcher_ids_are_the_console_numbers (collaborators := quiet_bench)
              typed_commands running_launcher initial_world
              eq_refl eq_refl eq_refl)
    as (q' & w' & successes & Hrun & Hconsole & _ & Htranscript & _).
  - repeat constructor; try discriminate.
  - cbn. unfold Int.INT_MAX. lia.
  - reflexivity.
  - reflexivity.
  - reflexivity.
  - reflexivity.
  - reflexivity.
  - exists q', w', successes. split; [exact Hrun|].
    split; [exact Hconsole | exact Htranscript].
Defined.

(** Two spaces, sent as the sixth command. *)
Lemma blank_command_gets_an_id_but_is_not_queued_witness :
  exists q',
    QuestRunner.execute_command 3 "  "
      {| QuestRunner.process_state := QuestRunner.Running;
         QuestRunner.process_stdin := "";
         QuestRunner.last_command_id := 4 |}
    = (5, q')
    /\ stdin_thread (getlines (QuestRunner.process_stdin q')) initial_world
       = Return tt initial_world.
Proof.
  destruct (blank_command_gets_an_id_but_is_not_queued "  "
              {| QuestRunner.process_state := QuestRunner.Running;
                 QuestRunner.process_stdin := "";
                 QuestRunner.last_command_id := 4 |}
              initial_world eq_refl)
    as (q' & Hrun & _ & Hstdin & Hthread & _).
  - discriminate.
  - repeat constructor.
  - cbn. unfold Int.INT_MIN, Int.INT_MAX. lia.
  - exists q'. split; [exact Hrun|]. rewrite Hstdin. exact Hthread.
Defined.
